(** * Secalot XRP wallet: the U2F-tunnelled APDU client

    A shallow embedding of the JavaScript client (src/index.js and its
    confirmation-requiring variant) together with the properties of its
    frame codec, tunnel adapter, status classification and chunked signing.

    JavaScript numbers are integers [Z]; a [Buffer] is a list of integers
    in [0, 256); [undefined] is [None]; a promise is a tree whose only
    effect is the call of the U2F transport. *)

From Stdlib Require Import ZArith List String Ascii Bool Lia DecimalString.
Import ListNotations.
Local Open Scope Z_scope.

(** ** Buffers *)

Definition Buffer : Type := list Z.

Definition is_byte (b : Z) : Prop := 0 <= b < 256.

Definition is_buffer (buf : Buffer) : Prop := Forall is_byte buf.

Module Buf.

(** [buf.length] *)
Definition length (buf : Buffer) : Z := Z.of_nat (List.length buf).

(** [buf[i]]: [undefined] outside the buffer. *)
Definition get (buf : Buffer) (i : Z) : option Z :=
  if i <? 0 then None else nth_error buf (Z.to_nat i).

(** [Buffer.alloc(n)]: [n] zero bytes. *)
Definition alloc (n : Z) : Buffer := repeat 0 (Z.to_nat n).

Fixpoint store (buf : Buffer) (i : nat) (v : Z) : Buffer :=
  match buf, i with
  | [], _ => []
  | _ :: rest, O => v :: rest
  | b :: rest, S i' => b :: store rest i' v
  end.

(** [buf[i] = v]: the value is reduced to a byte, and a store outside
    the buffer is dropped. *)
Definition set (buf : Buffer) (i v : Z) : Buffer :=
  if i <? 0 then buf else store buf (Z.to_nat i) (v mod 256).

Definition clamp (len i : Z) : Z :=
  if i <? 0 then Z.max (len + i) 0 else Z.min i len.

(** [buf.slice(start, end)] *)
Definition slice (buf : Buffer) (start end_ : Z) : Buffer :=
  let s := clamp (length buf) start in
  let e := clamp (length buf) end_ in
  firstn (Z.to_nat (e - s)) (skipn (Z.to_nat s) buf).

(** [source.copy(target, targetStart, sourceStart, sourceEnd)]; the
    updated target is returned. *)
Definition copy (source target : Buffer)
           (targetStart sourceStart sourceEnd : Z) : Buffer :=
  let piece := firstn (Z.to_nat (sourceEnd - sourceStart))
                      (skipn (Z.to_nat sourceStart) source) in
  let piece := firstn (Z.to_nat (length target - targetStart)) piece in
  firstn (Z.to_nat targetStart) target ++ piece
    ++ skipn (Z.to_nat targetStart + List.length piece) target.

(** [Buffer.concat([a, b])] *)
Definition concat (a b : Buffer) : Buffer := a ++ b.

Definition hexDigit (c : ascii) : option Z :=
  let n := Z.of_nat (nat_of_ascii c) in
  if (48 <=? n) && (n <=? 57) then Some (n - 48)
  else if (97 <=? n) && (n <=? 102) then Some (n - 87)
  else if (65 <=? n) && (n <=? 70) then Some (n - 55)
  else None.

(** [Buffer.from(s, 'hex')]: decoding stops at the first pair that is
    not two hexadecimal digits. *)
Fixpoint fromHex (s : string) : Buffer :=
  match s with
  | String a (String b rest) =>
      match hexDigit a, hexDigit b with
      | Some x, Some y => (16 * x + y) :: fromHex rest
      | _, _ => []
      end
  | _ => []
  end.

(** [Buffer.from(s, 'utf8')]: a Rocq string is read as the UTF-8 byte
    sequence of the JavaScript string. *)
Fixpoint fromUtf8 (s : string) : Buffer :=
  match s with
  | EmptyString => []
  | String c rest => Z.of_nat (nat_of_ascii c) :: fromUtf8 rest
  end.

End Buf.

(** [x !== v] for the result [x] of an index read and a number [v]. *)
Definition strict_neq (x : option Z) (v : Z) : bool :=
  match x with
  | Some a => negb (a =? v)
  | None => true
  end.

(** [x === v] *)
Definition strict_eq (x : option Z) (v : Z) : bool := negb (strict_neq x v).

(** [x & m]: [undefined] converts to 0. *)
Definition bit_and (x : option Z) (m : Z) : Z :=
  match x with
  | Some a => Z.land a m
  | None => 0
  end.

(** [n.toString()] for an integer. *)
Definition toString (n : Z) : string := NilZero.string_of_int (Z.to_int n).

(** [x - v] for the result [x] of an index read: [undefined - v] is NaN,
    written [None]. *)
Definition minus (x : option Z) (v : Z) : option Z :=
  match x with
  | Some a => Some (a - v)
  | None => None
  end.

(** [n.toString()] for a number that may be NaN. *)
Definition numberToString (n : option Z) : string :=
  match n with
  | Some a => toString a
  | None => "NaN"
  end.

(** ** The base64 codec of the Buffer library

    [buf.toString('base64')] is RFC 4648 with padding.
    [Buffer.from(s, 'base64')] reads up to the first [=], skips characters
    outside the alphabet, accepts both the standard and the URL-safe
    characters, and needs no padding. *)

Module Base64.

Definition alphabet : string :=
  "ABCDEFGHIJKLMNOPQRSTUVWXYZabcdefghijklmnopqrstuvwxyz0123456789+/".

Definition lookup (n : Z) : ascii :=
  match String.get (Z.to_nat n) alphabet with
  | Some c => c
  | None => "="%char
  end.

Definition revLookup (c : ascii) : option Z :=
  let n := Z.of_nat (nat_of_ascii c) in
  if (65 <=? n) && (n <=? 90) then Some (n - 65)
  else if (97 <=? n) && (n <=? 122) then Some (n - 71)
  else if (48 <=? n) && (n <=? 57) then Some (n + 4)
  else if (n =? 43) || (n =? 45) then Some 62
  else if (n =? 47) || (n =? 95) then Some 63
  else None.

Fixpoint encode (buf : Buffer) : string :=
  match buf with
  | [] => EmptyString
  | [a] =>
      String (lookup (a / 4))
        (String (lookup ((a * 16) mod 64)) "==")
  | [a; b] =>
      let tmp := a * 256 + b in
      String (lookup (tmp / 1024))
        (String (lookup ((tmp / 16) mod 64))
           (String (lookup ((tmp * 4) mod 64)) "="))
  | a :: b :: c :: rest =>
      let tmp := a * 65536 + b * 256 + c in
      String (lookup ((tmp / 262144) mod 64))
        (String (lookup ((tmp / 4096) mod 64))
           (String (lookup ((tmp / 64) mod 64))
              (String (lookup (tmp mod 64)) (encode rest))))
  end.

(** The sextets of the characters before the first [=]. *)
Fixpoint sextets (s : string) : list Z :=
  match s with
  | EmptyString => []
  | String c rest =>
      if Ascii.eqb c "=" then []
      else match revLookup c with
           | Some v => v :: sextets rest
           | None => sextets rest
           end
  end.

Fixpoint bytes (l : list Z) : Buffer :=
  match l with
  | s1 :: s2 :: s3 :: s4 :: rest =>
      let tmp := s1 * 262144 + s2 * 4096 + s3 * 64 + s4 in
      (tmp / 65536) mod 256 :: (tmp / 256) mod 256 :: tmp mod 256
        :: bytes rest
  | [s1; s2; s3] =>
      let tmp := s1 * 1024 + s2 * 16 + s3 / 4 in
      [(tmp / 256) mod 256; tmp mod 256]
  | [s1; s2] => [(s1 * 4 + s2 / 16) mod 256]
  | _ => []
  end.

Definition decode (s : string) : Buffer := bytes (sextets s).

End Base64.

(** [buf.toString('base64')] *)
Definition toBase64 (buf : Buffer) : string := Base64.encode buf.

(** [Buffer.from(s, 'base64')] *)
Definition fromBase64 (s : string) : Buffer := Base64.decode s.

(** ** URL-safe base64 (index.js, lines 3-9) *)

(** [s.replace(/c/g, d)] for single characters. *)
Fixpoint replaceAll (c d : ascii) (s : string) : string :=
  match s with
  | EmptyString => EmptyString
  | String x rest =>
      String (if Ascii.eqb x c then d else x) (replaceAll c d rest)
  end.

(** [s.replace(/=+$/, '')] *)
Fixpoint stripPadding (s : string) : string :=
  match s with
  | EmptyString => EmptyString
  | String x rest =>
      match stripPadding rest with
      | EmptyString => if Ascii.eqb x "=" then EmptyString
                       else String x EmptyString
      | r => String x r
      end
  end.

Definition webSafe64 (base64 : string) : string :=
  stripPadding (replaceAll "/" "_" (replaceAll "+" "-" base64)).

Definition normal64 (base64 : string) : string :=
  (replaceAll "_" "/" (replaceAll "-" "+" base64)
   ++ String.substring 0 ((3 * String.length base64) mod 4) "==")%string.

(** ** Promises over the U2F transport

    The only effect of the client is the [sign] primitive of u2f-api.  A
    promise is the tree of the calls it makes: it is settled ([Resolve],
    [Reject]) or it calls [sign] and continues with what the transport
    answers. *)

Inductive JsError : Type :=
| Error (message : string)
| TypeError
| TransportError (code : Z).

Record SignRequest : Type := mkSignRequest {
  version : string;
  challenge : string;
  keyHandle : string;
  appId : string
}.

(** The response object of [sign]; an absent [signatureData] is
    [undefined]. *)
Record SignResponse : Type := mkSignResponse {
  signatureData : option string
}.

Inductive SignOutcome : Type :=
| SignResolved (response : SignResponse)
| SignRejected (err : JsError).

Inductive Promise (A : Type) : Type :=
| Resolve (a : A)
| Reject (e : JsError)
| Sign (requests : list SignRequest) (timeout : Z)
       (k : SignOutcome -> Promise A).

Arguments Resolve {A} a.
Arguments Reject {A} e.
Arguments Sign {A} requests timeout k.

(** [p.then(f).catch((err) => { reject(err) })] inside
    [new Promise(function (resolve, reject) { ... })], where [f] settles
    the outer promise: a rejection of [p] rejects the outer promise with
    the same error. *)
Fixpoint bind {A B : Type} (p : Promise A) (f : A -> Promise B) : Promise B :=
  match p with
  | Resolve a => f a
  | Reject e => Reject e
  | Sign requests timeout k =>
      Sign requests timeout (fun outcome => bind (k outcome) f)
  end.

Notation "x <- p ;; q" := (bind p (fun x => q))
  (at level 61, p at next level, right associativity).

Inductive Settled (A : Type) : Type :=
| Fulfilled (a : A)
| Rejected (e : JsError).

Arguments Fulfilled {A} a.
Arguments Rejected {A} e.

(** The promise that is already settled. *)
Definition settled {A : Type} (s : Settled A) : Promise A :=
  match s with
  | Fulfilled a => Resolve a
  | Rejected e => Reject e
  end.

(** One call of the transport: the request list and the timeout. *)
Definition Call : Type := (list SignRequest * Z)%type.

(** The transport answers a call knowing the calls made before it. *)
Definition Transport : Type := list Call -> Call -> SignOutcome.

(** Runs a promise against a transport; returns how it settles and the
    calls made, oldest first. *)
Fixpoint run {A : Type} (p : Promise A) (u2f : Transport) (log : list Call)
  : Settled A * list Call :=
  match p with
  | Resolve a => (Fulfilled a, log)
  | Reject e => (Rejected e, log)
  | Sign requests timeout k =>
      run (k (u2f log (requests, timeout))) u2f (log ++ [(requests, timeout)])
  end.

(** ** The chunking loop of signData

    The loop is the same in both variants up to [maxChunkSize]:
<<
    while (offset !== rawData.length) {
      var chunkSize = (offset + maxChunkSize > rawData.length
                       ? rawData.length - offset : maxChunkSize)
      var apdu = Buffer.alloc(5 + chunkSize)
      apdu[0] = 0x80; apdu[1] = 0xF2
      apdu[2] = (offset === 0 ? 0x00 : 0x01)
      apdu[3] = 0x00; apdu[4] = chunkSize
      rawData.copy(apdu, 5, offset, offset + chunkSize)
      apdus.push(apdu)
      offset += chunkSize
    }
>>
    [None] means the iteration bound was reached before the loop exit. *)

Definition chunkApdu (maxChunkSize : Z) (rawData : Buffer) (offset : Z)
  : Buffer * Z :=
  let chunkSize :=
    if offset + maxChunkSize >? Buf.length rawData
    then Buf.length rawData - offset else maxChunkSize in
  let apdu := Buf.alloc (5 + chunkSize) in
  let apdu := Buf.set apdu 0 0x80 in
  let apdu := Buf.set apdu 1 0xF2 in
  let apdu := Buf.set apdu 2 (if offset =? 0 then 0x00 else 0x01) in
  let apdu := Buf.set apdu 3 0x00 in
  let apdu := Buf.set apdu 4 chunkSize in
  let apdu := Buf.copy rawData apdu 5 offset (offset + chunkSize) in
  (apdu, chunkSize).

Fixpoint chunkLoop (fuel : nat) (maxChunkSize : Z) (rawData : Buffer)
         (offset : Z) (apdus : list Buffer) : option (list Buffer) :=
  if offset =? Buf.length rawData then Some apdus
  else match fuel with
       | O => None
       | S fuel' =>
           let '(apdu, chunkSize) := chunkApdu maxChunkSize rawData offset in
           chunkLoop fuel' maxChunkSize rawData (offset + chunkSize)
                     (apdus ++ [apdu])
       end.

(** The frames of a payload; the loop needs at most one iteration per
    payload byte. *)
Definition chunkApdus (maxChunkSize : Z) (rawData : Buffer)
  : option (list Buffer) :=
  chunkLoop (List.length rawData) maxChunkSize rawData 0 [].

(** ** Response tests shared by the two variants *)

(** [response[response.length - 2] !== sw1 ||
     response[response.length - 1] !== sw2] *)
Definition statusIsNot (response : Buffer) (sw1 sw2 : Z) : bool :=
  strict_neq (Buf.get response (Buf.length response - 2)) sw1
  || strict_neq (Buf.get response (Buf.length response - 1)) sw2.

(** [response[response.length - 2] === sw1 &&
     response[response.length - 1] === sw2] *)
Definition statusIs (response : Buffer) (sw1 sw2 : Z) : bool :=
  strict_eq (Buf.get response (Buf.length response - 2)) sw1
  && strict_eq (Buf.get response (Buf.length response - 1)) sw2.

(** The test signData makes on the response to a chunk; [None] lets the
    transfer go on, [Some err] rejects with [err]. *)
Definition chunk_then (response : Buffer) : option JsError :=
  if negb (Buf.length response =? 2)
  then Some (Error "Invalid APDU response.")
  else if strict_neq (Buf.get response 0) 0x90
          || strict_neq (Buf.get response 1) 0x00
  then
    if strict_eq (Buf.get response 0) 0x6d
       && strict_eq (Buf.get response 1) 0x00
    then Some (Error "Wallet not initialized.")
    else if strict_eq (Buf.get response 0) 0x69
            && strict_eq (Buf.get response 1) 0x82
    then Some (Error "PIN-code not verified.")
    else Some (Error "Invalid APDU response.")
  else None.

(** ** src/index.js *)

Module Index.

(** The record getInfo resolves; [info_version] is its field
    [version]. *)
Record XRPInfo : Type := mkXRPInfo {
  info_version : string;
  walletInitialized : bool;
  pinVerified : bool
}.

Section Client.

(** [location.origin] *)
Variable origin : string.

Definition xrpMagic : Buffer := Buf.fromHex "8877665544332211".

Definition zeroChallenge : Buffer :=
  Buf.fromHex
    "0000000000000000000000000000000000000000000000000000000000000000".

Definition signRequest (apdu : Buffer) : SignRequest :=
  let keyHandle := Buf.concat xrpMagic apdu in
  {| version := "U2F_V2";
     challenge := webSafe64 (toBase64 zeroChallenge);
     keyHandle := webSafe64 (toBase64 keyHandle);
     appId := origin |}.

(** How the handlers of [sign([signRequest], timeout)] settle the
    promise of sendAPDU. *)
Definition sendAPDU_settle (outcome : SignOutcome) : Settled Buffer :=
  match outcome with
  | SignResolved response =>
      match signatureData response with
      | Some sd =>
          let data := fromBase64 (normal64 sd) in
          if Buf.length data <? 2
          then Rejected (Error "Invalid response APDU.")
          else Fulfilled data
      | None => Rejected (Error "Failed to send an APDU.")
      end
  | SignRejected err => Rejected err
  end.

(** [apdu] is [None] when the caller passes [undefined]:
    [Buffer.concat] then throws a TypeError inside the executor. *)
Definition sendAPDU (apdu : option Buffer) (timeout : Z) : Promise Buffer :=
  match apdu with
  | None => Reject TypeError
  | Some apdu =>
      Sign [signRequest apdu] timeout
           (fun outcome => settled (sendAPDU_settle outcome))
  end.

Definition getInfo_then (response : Buffer) : Promise XRPInfo :=
  if statusIsNot response 0x90 0x00
  then Reject (Error "Invalid APDU response.")
  else if negb (Buf.length response =? 10)
  then Reject (Error "Invalid APDU response.")
  else
    match Buf.get response 0, Buf.get response 1 with
    | Some major, Some minor =>
        Resolve
          {| info_version :=
               (toString major ++ "." ++ toString minor)%string;
             walletInitialized :=
               bit_and (Buf.get response 2) 0x01 =? 0x01;
             pinVerified :=
               bit_and (Buf.get response 2) 0x02 =? 0x02 |}
    | _, _ => Reject TypeError
    end.

Definition getInfo (timeout : Z) : Promise XRPInfo :=
  let apdu := Buf.fromHex "80C40000" in
  response <- sendAPDU (Some apdu) timeout ;;
  getInfo_then response.

Definition getRandom_then (length : Z) (response : Buffer)
  : Promise Buffer :=
  if statusIsNot response 0x90 0x00
  then Reject (Error "Invalid APDU response.")
  else if negb (Buf.length response =? length + 2)
  then Reject (Error "Invalid APDU response.")
  else Resolve (Buf.slice response 0 (Buf.length response - 2)).

Definition getRandom_apdu (length : Z) : Buffer :=
  let apdu := Buf.fromHex "80C0000000" in
  Buf.set apdu 4 length.

Definition getRandom (timeout length : Z) : Promise Buffer :=
  if (length =? 0) || (length >? 128)
  then Reject (Error "Invalid length.")
  else
    response <- sendAPDU (Some (getRandom_apdu length)) timeout ;;
    getRandom_then length response.

Definition initWallet_apdu (privateKey pin : Buffer) : Buffer :=
  let apdu :=
    Buf.alloc (5 + 1 + Buf.length privateKey + Buf.length pin) in
  let apdu := Buf.set apdu 0 0x80 in
  let apdu := Buf.set apdu 1 0x20 in
  let apdu := Buf.set apdu 2 0x00 in
  let apdu := Buf.set apdu 3 0x00 in
  let apdu :=
    Buf.set apdu 4 (1 + Buf.length pin + Buf.length privateKey) in
  let apdu := Buf.set apdu 5 (Buf.length pin) in
  let apdu := Buf.copy pin apdu 6 0 (Buf.length pin) in
  Buf.copy privateKey apdu (6 + Buf.length pin) 0 (Buf.length privateKey).

Definition initWallet_then (response : Buffer) : Promise unit :=
  if negb (Buf.length response =? 2)
  then Reject (Error "Invalid APDU response.")
  else if strict_neq (Buf.get response 0) 0x90
          || strict_neq (Buf.get response 1) 0x00
  then
    if strict_eq (Buf.get response 0) 0x6d
       && strict_eq (Buf.get response 1) 0x00
    then Reject (Error "Wallet already initialized.")
    else Reject (Error "Invalid APDU response.")
  else Resolve tt.

Definition initWallet (timeout : Z) (privateKey pin : string)
  : Promise unit :=
  let privateKey := Buf.fromHex privateKey in
  let pin := Buf.fromUtf8 pin in
  if negb (Buf.length privateKey =? 32)
  then Reject (Error "Invalid private key length.")
  else if (Buf.length pin <? 4) || (Buf.length pin >? 32)
  then Reject (Error "Invalid pin length.")
  else
    response <- sendAPDU (Some (initWallet_apdu privateKey pin)) timeout ;;
    initWallet_then response.

Definition wipeoutWallet_then (response : Buffer) : Promise unit :=
  if negb (Buf.length response =? 2)
  then Reject (Error "Invalid APDU response.")
  else if strict_neq (Buf.get response 0) 0x90
          || strict_neq (Buf.get response 1) 0x00
  then
    if strict_eq (Buf.get response 0) 0x6d
       && strict_eq (Buf.get response 1) 0x00
    then Reject (Error "Wallet not initialized.")
    else Reject (Error "Invalid APDU response.")
  else Resolve tt.

Definition wipeoutWallet (timeout : Z) : Promise unit :=
  let apdu := Buf.fromHex "80F0000000" in
  response <- sendAPDU (Some apdu) timeout ;;
  wipeoutWallet_then response.

Definition getPinTriesLeft_then (response : Buffer)
  : Promise (option Z) :=
  if negb (Buf.length response =? 2)
  then Reject (Error "Invalid APDU response.")
  else if strict_neq (Buf.get response 0) 0x63
  then
    if strict_eq (Buf.get response 0) 0x6d
       && strict_eq (Buf.get response 1) 0x00
    then Reject (Error "Wallet not initialized.")
    else Reject (Error "Invalid APDU response.")
  else Resolve (minus (Buf.get response 1) 0xC0).

Definition getPinTriesLeft (timeout : Z) : Promise (option Z) :=
  let apdu := Buf.fromHex "80228000" in
  response <- sendAPDU (Some apdu) timeout ;;
  getPinTriesLeft_then response.

Definition verifyPin_apdu (pin : Buffer) : Buffer :=
  let apdu := Buf.alloc (5 + Buf.length pin) in
  let apdu := Buf.set apdu 0 0x80 in
  let apdu := Buf.set apdu 1 0x22 in
  let apdu := Buf.set apdu 2 0x00 in
  let apdu := Buf.set apdu 3 0x00 in
  let apdu := Buf.set apdu 4 (Buf.length pin) in
  Buf.copy pin apdu 5 0 (Buf.length pin).

(** The handler of the follow-up inside verifyPin:
    [(triesLeft) => { reject(new Error('Invalid PIN-code. ' +
    triesLeft.toString() + ' tries left.')) }] *)
Definition invalidPin (triesLeft : option Z) : Promise unit :=
  Reject (Error ("Invalid PIN-code. " ++ numberToString triesLeft
                   ++ " tries left.")).

Definition verifyPin_then (timeout : Z) (response : Buffer)
  : Promise unit :=
  if negb (Buf.length response =? 2)
  then Reject (Error "Invalid APDU response.")
  else if strict_neq (Buf.get response 0) 0x90
          || strict_neq (Buf.get response 1) 0x00
  then
    if strict_eq (Buf.get response 0) 0x6d
       && strict_eq (Buf.get response 1) 0x00
    then Reject (Error "Wallet not initialized.")
    else if strict_eq (Buf.get response 0) 0x69
            && strict_eq (Buf.get response 1) 0x82
    then
      triesLeft <- getPinTriesLeft timeout ;;
      invalidPin triesLeft
    else if strict_eq (Buf.get response 0) 0x67
            && strict_eq (Buf.get response 1) 0x00
    then Reject (Error "Unsupported PIN-code length.")
    else if strict_eq (Buf.get response 0) 0x69
            && strict_eq (Buf.get response 1) 0x83
    then Reject (Error "PIN-code blocked.")
    else Reject (Error "Invalid APDU response.")
  else Resolve tt.

Definition verifyPin (timeout : Z) (pin : string) : Promise unit :=
  let pin := Buf.fromUtf8 pin in
  if (Buf.length pin <? 4) || (Buf.length pin >? 32)
  then Reject (Error "Invalid pin length.")
  else
    response <- sendAPDU (Some (verifyPin_apdu pin)) timeout ;;
    verifyPin_then timeout response.

Definition getPublicKey_then (response : Buffer) : Promise Buffer :=
  if statusIsNot response 0x90 0x00
  then
    if statusIs response 0x6d 0x00
    then Reject (Error "Wallet not initialized.")
    else if statusIs response 0x69 0x82
    then Reject (Error "PIN-code not verified.")
    else Reject (Error "Invalid APDU response.")
  else if negb (Buf.length response =? 67)
  then Reject (Error "Invalid APDU response.")
  else Resolve (Buf.slice response 0 (Buf.length response - 2)).

Definition getPublicKey (timeout : Z) : Promise Buffer :=
  let apdu := Buf.fromHex "80400000" in
  response <- sendAPDU (Some apdu) timeout ;;
  getPublicKey_then response.

Definition maxChunkSize : Z := 8.

Definition finalizeApdu : Buffer := Buf.fromHex "80f20200".

Definition finalize_then (response : Buffer) : Promise Buffer :=
  if statusIsNot response 0x90 0x00
  then Reject (Error "Invalid APDU response.")
  else Resolve (Buf.slice response 0 (Buf.length response - 2)).

(** The finalize round trip, sent when the queue is empty. *)
Definition finalize (timeout : Z) : Promise Buffer :=
  response <- sendAPDU (Some finalizeApdu) timeout ;;
  finalize_then response.

(** [localCallback] with the queue [apdus] as its argument:
    [apdus.shift()] takes the head and leaves the tail, and is
    [undefined] on the empty queue. *)
Fixpoint localCallback (timeout : Z) (apdus : list Buffer)
  : Promise Buffer :=
  match apdus with
  | [] =>
      response <- sendAPDU None timeout ;;
      match chunk_then response with
      | Some err => Reject err
      | None => finalize timeout
      end
  | apdu :: apdus' =>
      response <- sendAPDU (Some apdu) timeout ;;
      match chunk_then response with
      | Some err => Reject err
      | None =>
          match apdus' with
          | [] => finalize timeout
          | _ :: _ => localCallback timeout apdus'
          end
      end
  end.

(** [None] only if the chunking loop does not end. *)
Definition signData (timeout : Z) (dataToSign : string)
  : option (Promise Buffer) :=
  let rawData := Buf.fromHex dataToSign in
  match chunkApdus maxChunkSize rawData with
  | Some apdus => Some (localCallback timeout apdus)
  | None => None
  end.

End Client.

End Index.

(** ** src/unnamed/part_000

    The variant for devices that ask the user to confirm a signature: the
    response frame travels behind a five-byte header, the chunks are 128
    bytes long, and the finalize step tells an expired confirmation
    apart. *)

Module Confirm.

Section Client.

(** [location.origin] *)
Variable origin : string.

Definition sendAPDU_settle (outcome : SignOutcome) : Settled Buffer :=
  match outcome with
  | SignResolved response =>
      match signatureData response with
      | Some sd =>
          let data := fromBase64 (normal64 sd) in
          if Buf.length data <? 5 + 2
          then Rejected (Error "Invalid response APDU.")
          else if strict_neq (Buf.get data 0) 0x01
                  || strict_neq (Buf.get data 1) 0x00
                  || strict_neq (Buf.get data 2) 0x00
                  || strict_neq (Buf.get data 3) 0x00
                  || strict_neq (Buf.get data 4) 0x00
          then Rejected (Error "Invalid response APDU.")
          else Fulfilled (Buf.slice data 5 (Buf.length data))
      | None => Rejected (Error "Failed to send an APDU.")
      end
  | SignRejected err => Rejected err
  end.

Definition sendAPDU (apdu : option Buffer) (timeout : Z) : Promise Buffer :=
  match apdu with
  | None => Reject TypeError
  | Some apdu =>
      Sign [Index.signRequest origin apdu] timeout
           (fun outcome => settled (sendAPDU_settle outcome))
  end.

Definition maxChunkSize : Z := 128.

Definition finalizeApdu : Buffer := Buf.fromHex "80f20200".

Definition finalize_then (response : Buffer) : Promise Buffer :=
  if statusIsNot response 0x90 0x00
  then
    if strict_eq (Buf.get response (Buf.length response - 2)) 0x64
       || strict_eq (Buf.get response (Buf.length response - 1)) 0x01
    then Reject (Error "Transaction signing confirmation time expired.")
    else Reject (Error "Invalid APDU response.")
  else Resolve (Buf.slice response 0 (Buf.length response - 2)).

Definition finalize (timeout : Z) : Promise Buffer :=
  response <- sendAPDU (Some finalizeApdu) timeout ;;
  finalize_then response.

Fixpoint localCallback (timeout : Z) (apdus : list Buffer)
  : Promise Buffer :=
  match apdus with
  | [] =>
      response <- sendAPDU None timeout ;;
      match chunk_then response with
      | Some err => Reject err
      | None => finalize timeout
      end
  | apdu :: apdus' =>
      response <- sendAPDU (Some apdu) timeout ;;
      match chunk_then response with
      | Some err => Reject err
      | None =>
          match apdus' with
          | [] => finalize timeout
          | _ :: _ => localCallback timeout apdus'
          end
      end
  end.

(** [None] only if the chunking loop does not end. *)
Definition signData (timeout : Z) (dataToSign : string)
  : option (Promise Buffer) :=
  if timeout <? 60
  then Some (Reject (Error "Timeout should be at least 60 seconds."))
  else
    let rawData := Buf.fromHex dataToSign in
    match chunkApdus maxChunkSize rawData with
    | Some apdus => Some (localCallback timeout apdus)
    | None => None
    end.

(** getRandomID, which only this variant has. *)
Definition getRandomID_then (response : Buffer) : Promise Buffer :=
  if statusIsNot response 0x90 0x00
  then
    if statusIs response 0x6d 0x00
    then Reject (Error "Wallet not initialized.")
    else if statusIs response 0x69 0x82
    then Reject (Error "PIN-code not verified.")
    else Reject (Error "Invalid APDU response.")
  else if negb (Buf.length response =? 10)
  then Reject (Error "Invalid APDU response.")
  else Resolve (Buf.slice response 0 (Buf.length response - 2)).

Definition getRandomID (timeout : Z) : Promise Buffer :=
  let apdu := Buf.fromHex "80E2000000" in
  response <- sendAPDU (Some apdu) timeout ;;
  getRandomID_then response.

(** initWallet with a secret type; [secretType === 'privateKey'] is the
    equality of strings. *)
Definition initWallet_apdu (secretType : string) (secret pin : Buffer)
  : Buffer :=
  let apdu := Buf.alloc (5 + 1 + Buf.length secret + Buf.length pin) in
  let apdu := Buf.set apdu 0 0x80 in
  let apdu := Buf.set apdu 1 0x20 in
  let apdu := Buf.set apdu 2 0x00 in
  let apdu :=
    if String.eqb secretType "privateKey"
    then Buf.set apdu 3 0x00
    else Buf.set apdu 3 0x01 in
  let apdu := Buf.set apdu 4 (1 + Buf.length pin + Buf.length secret) in
  let apdu := Buf.set apdu 5 (Buf.length pin) in
  let apdu := Buf.copy pin apdu 6 0 (Buf.length pin) in
  Buf.copy secret apdu (6 + Buf.length pin) 0 (Buf.length secret).

(** The check of the secret against its type; [Some err] rejects. *)
Definition checkSecret (secretType : string) (secret : Buffer)
  : option JsError :=
  if String.eqb secretType "privateKey"
  then
    if negb (Buf.length secret =? 32)
    then Some (Error "Invalid secret length.")
    else None
  else if String.eqb secretType "xrpSecret"
  then
    if negb (Buf.length secret =? 16)
    then Some (Error "Invalid secret length.")
    else None
  else Some (Error "Invalid secret type.").

(** The response handler is the one of index.js. *)
Definition initWallet (timeout : Z) (secretType secret pin : string)
  : Promise unit :=
  let secret := Buf.fromHex secret in
  let pin := Buf.fromUtf8 pin in
  match checkSecret secretType secret with
  | Some err => Reject err
  | None =>
      if (Buf.length pin <? 4) || (Buf.length pin >? 32)
      then Reject (Error "Invalid pin length.")
      else
        response <-
          sendAPDU (Some (initWallet_apdu secretType secret pin)) timeout ;;
        Index.initWallet_then response
  end.

(** getPublicKey of this variant: a compressed key, 35 bytes with the
    status. *)
Definition getPublicKey_then (response : Buffer) : Promise Buffer :=
  if statusIsNot response 0x90 0x00
  then
    if statusIs response 0x6d 0x00
    then Reject (Error "Wallet not initialized.")
    else if statusIs response 0x69 0x82
    then Reject (Error "PIN-code not verified.")
    else Reject (Error "Invalid APDU response.")
  else if negb (Buf.length response =? 35)
  then Reject (Error "Invalid APDU response.")
  else Resolve (Buf.slice response 0 (Buf.length response - 2)).

Definition getPublicKey (timeout : Z) : Promise Buffer :=
  let apdu := Buf.fromHex "80400000" in
  response <- sendAPDU (Some apdu) timeout ;;
  getPublicKey_then response.

End Client.

End Confirm.

(** ** Vocabulary of the statements *)

(** The error kinds of the specification, as the errors the code raises. *)
Definition InvalidLength : JsError := Error "Invalid length.".
Definition TunnelError : JsError := Error "Failed to send an APDU.".
Definition MalformedResponse : JsError := Error "Invalid response APDU.".
Definition ProtocolError : JsError := Error "Invalid APDU response.".
Definition WalletNotInitialized : JsError := Error "Wallet not initialized.".
Definition PinNotVerified : JsError := Error "PIN-code not verified.".
Definition ConfirmationExpired : JsError :=
  Error "Transaction signing confirmation time expired.".
Definition InvalidPinRetry (triesLeft : Z) : JsError :=
  Error ("Invalid PIN-code. " ++ toString triesLeft ++ " tries left.").

(** The transport call that carries a frame. *)
Definition callOf (origin : string) (timeout : Z) (apdu : Buffer) : Call :=
  ([Index.signRequest origin apdu], timeout).

(** The transport text of a response frame, as a device writes it. *)
Definition answer (frame : Buffer) : SignOutcome :=
  SignResolved {| signatureData := Some (webSafe64 (toBase64 frame)) |}.

(** [Calls p c]: the promise [p] makes the call [c] under some behaviour
    of the transport. *)
Inductive Calls {A : Type} : Promise A -> Call -> Prop :=
| Calls_here requests timeout k :
    Calls (Sign requests timeout k) (requests, timeout)
| Calls_later requests timeout k outcome c :
    Calls (k outcome) c -> Calls (Sign requests timeout k) c.

(** The exported operations of index.js with their arguments. *)
Inductive Operation : Type :=
| OpGetInfo
| OpGetRandom (length : Z)
| OpInitWallet (privateKey pin : string)
| OpWipeoutWallet
| OpVerifyPin (pin : string)
| OpGetPublicKey
| OpSignData (dataToSign : string).

Definition CallsOf (origin : string) (timeout : Z) (op : Operation)
           (c : Call) : Prop :=
  match op with
  | OpGetInfo => Calls (Index.getInfo origin timeout) c
  | OpGetRandom length => Calls (Index.getRandom origin timeout length) c
  | OpInitWallet privateKey pin =>
      Calls (Index.initWallet origin timeout privateKey pin) c
  | OpWipeoutWallet => Calls (Index.wipeoutWallet origin timeout) c
  | OpVerifyPin pin => Calls (Index.verifyPin origin timeout pin) c
  | OpGetPublicKey => Calls (Index.getPublicKey origin timeout) c
  | OpSignData dataToSign =>
      exists p, Index.signData origin timeout dataToSign = Some p
                /\ Calls p c
  end.

(** The frame invariant of the specification:
    [80 <ins> <p1> <p2> <len> <payload>] with [len] the payload byte
    count. *)
Definition CommandFrame (frame : Buffer) : Prop :=
  exists ins p1 p2 payload,
    frame = [0x80; ins; p1; p2; Buf.length payload] ++ payload.

(** A frame that is the four header bytes alone. *)
Definition HeaderFrame (frame : Buffer) : Prop :=
  exists ins p1 p2, frame = [0x80; ins; p1; p2].

(** A frame whose fifth byte announces the length of the response and
    that carries no payload. *)
Definition ExpectFrame (frame : Buffer) : Prop :=
  exists ins p1 p2 le, frame = [0x80; ins; p1; p2; le].

(** The bytes [p1] and [p2] of a frame. *)
Definition frameP1 (frame : Buffer) : option Z := Buf.get frame 2.
Definition frameP2 (frame : Buffer) : option Z := Buf.get frame 3.

(** The chunk frames in the words of the specification: piece [i] of the
    payload is its bytes from [i * size] on, at most [size] of them; the
    first frame has the start flag, the others the continue flag. *)
Definition piece (size : nat) (rawData : Buffer) (i : nat) : Buffer :=
  firstn size (skipn (i * size) rawData).

Definition chunkFrame (size : nat) (rawData : Buffer) (i : nat) : Buffer :=
  [0x80; 0xF2; if Nat.eqb i 0 then 0x00 else 0x01; 0x00;
   Buf.length (piece size rawData i)] ++ piece size rawData i.

Definition chunkCount (size : nat) (rawData : Buffer) : nat :=
  (List.length rawData + size - 1) / size.

Definition chunkFrames (size : nat) (rawData : Buffer) : list Buffer :=
  map (chunkFrame size rawData) (seq 0 (chunkCount size rawData)).

(** The round trip of chunk [i] of a transfer that started with the log
    [log]: how sendAPDU settles for the frame [i] after the frames before
    it were sent. *)
Definition roundTrip (origin : string) (timeout : Z) (u2f : Transport)
           (log : list Call) (apdus : list Buffer) (i : nat)
  : Settled Buffer :=
  Index.sendAPDU_settle
    (u2f (log ++ map (callOf origin timeout) (firstn i apdus))
         (callOf origin timeout (nth i apdus []))).

Definition success : Buffer := [0x90; 0x00].

(** Strings as sequences of characters. *)
Fixpoint mapString (f : ascii -> ascii) (s : string) : string :=
  match s with
  | EmptyString => EmptyString
  | String c rest => String (f c) (mapString f rest)
  end.

Fixpoint AllChars (P : ascii -> Prop) (s : string) : Prop :=
  match s with
  | EmptyString => True
  | String c rest => P c /\ AllChars P rest
  end.

(** What webSafe64 and normal64 do to one character. *)
Definition webSafeChar (c : ascii) : ascii :=
  let c1 := if Ascii.eqb c "+" then "-"%char else c in
  if Ascii.eqb c1 "/" then "_"%char else c1.

Definition normalChar (c : ascii) : ascii :=
  let c1 := if Ascii.eqb c "-" then "+"%char else c in
  if Ascii.eqb c1 "_" then "/"%char else c1.

Definition isSextetChar (c : ascii) : Prop :=
  exists n, 0 <= n < 64 /\ c = Base64.lookup n.

Definition isPad (c : ascii) : Prop := c = "="%char.

(** What the URL-safe mapping needs of the character of a sextet. *)
Definition sextet_ok (n : Z) : bool :=
  let c := Base64.lookup n in
  let w := if Ascii.eqb (if Ascii.eqb c "+" then "-"%char else c) "/"
           then "_"%char
           else (if Ascii.eqb c "+" then "-"%char else c) in
  let r := if Ascii.eqb (if Ascii.eqb w "-" then "+"%char else w) "_"
           then "/"%char
           else (if Ascii.eqb w "-" then "+"%char else w) in
  match Base64.revLookup c, Base64.revLookup w with
  | Some m, Some m' => (m =? n) && (m' =? n)
  | _, _ => false
  end
  && negb (Ascii.eqb c "=") && negb (Ascii.eqb w "=") && Ascii.eqb r c.

(** [HasStatus response sw1 sw2]: the response ends in the status bytes
    [sw1 sw2]. *)
Definition HasStatus (response : Buffer) (sw1 sw2 : Z) : Prop :=
  exists payload, response = payload ++ [sw1; sw2].

(** ** Vocabulary of the further properties *)

(** The last character of a string. *)
Fixpoint lastChar (s : string) : option ascii :=
  match s with
  | EmptyString => None
  | String c EmptyString => Some c
  | String _ rest => lastChar rest
  end.

(** A character that is neither [+] nor [/]. *)
Definition isUrlSafe (c : ascii) : Prop := c <> "+"%char /\ c <> "/"%char.

(** How a promise ends against a transport: the error of its rejection,
    if any, and the calls made. *)
Definition settledError {A : Type} (s : Settled A) : option JsError :=
  match s with
  | Fulfilled _ => None
  | Rejected e => Some e
  end.

Definition outcome {A : Type} (p : Promise A) (u2f : Transport)
  : option JsError * list Call :=
  (settledError (fst (run p u2f [])), snd (run p u2f [])).

(** An operation of index.js run against a transport. *)
Definition performs (origin : string) (timeout : Z) (op : Operation)
           (u2f : Transport) : option (option JsError * list Call) :=
  match op with
  | OpGetInfo => Some (outcome (Index.getInfo origin timeout) u2f)
  | OpGetRandom length =>
      Some (outcome (Index.getRandom origin timeout length) u2f)
  | OpInitWallet privateKey pin =>
      Some (outcome (Index.initWallet origin timeout privateKey pin) u2f)
  | OpWipeoutWallet => Some (outcome (Index.wipeoutWallet origin timeout) u2f)
  | OpVerifyPin pin => Some (outcome (Index.verifyPin origin timeout pin) u2f)
  | OpGetPublicKey => Some (outcome (Index.getPublicKey origin timeout) u2f)
  | OpSignData dataToSign =>
      match Index.signData origin timeout dataToSign with
      | Some p => Some (outcome p u2f)
      | None => None
      end
  end.

(** The most transport calls an operation can make. *)
Definition callBound (op : Operation) : nat :=
  match op with
  | OpVerifyPin _ => 2
  | OpSignData dataToSign => chunkCount 8 (Buf.fromHex dataToSign) + 1
  | _ => 1
  end.

(** The header the confirming variant expects before a response frame. *)
Definition tunnelHeader : Buffer := [0x01; 0x00; 0x00; 0x00; 0x00].

(** The round trip of chunk [i] in the confirming variant. *)
Definition confirmRoundTrip (origin : string) (timeout : Z) (u2f : Transport)
           (log : list Call) (apdus : list Buffer) (i : nat)
  : Settled Buffer :=
  Confirm.sendAPDU_settle
    (u2f (log ++ map (callOf origin timeout) (firstn i apdus))
         (callOf origin timeout (nth i apdus []))).

(** The status family 0x63Cn: high byte 0x63, low byte 0xC0 to 0xCF. *)
Definition InFamily63Cn (sw1 sw2 : Z) : Prop :=
  sw1 = 0x63 /\ 0xC0 <= sw2 <= 0xCF.

(** ** URL-safe base64, after RFC 4648

    The reference the texts of the tunnel are compared with.  It is
    written from section 5 of RFC 4648 and not from the code: the bytes
    are read three at a time as four groups of six bits, most significant
    bit first, a last group short of bits is filled with zero bits, each
    group is written as the character at its index in the URL-safe
    alphabet, and no padding is written. *)
Module Rfc4648.

Definition urlAlphabet : string :=
  "ABCDEFGHIJKLMNOPQRSTUVWXYZabcdefghijklmnopqrstuvwxyz0123456789-_".

Definition urlChar (group : Z) : ascii :=
  match String.get (Z.to_nat group) urlAlphabet with
  | Some c => c
  | None => "?"%char
  end.

Fixpoint base64url (bytes : Buffer) : string :=
  match bytes with
  | [] => EmptyString
  | [a] =>
      String (urlChar (a / 4))
        (String (urlChar (a mod 4 * 16)) EmptyString)
  | [a; b] =>
      String (urlChar (a / 4))
        (String (urlChar (a mod 4 * 16 + b / 16))
           (String (urlChar (b mod 16 * 4)) EmptyString))
  | a :: b :: c :: rest =>
      String (urlChar (a / 4))
        (String (urlChar (a mod 4 * 16 + b / 16))
           (String (urlChar (b mod 16 * 4 + c / 64))
              (String (urlChar (c mod 64)) (base64url rest))))
  end.

End Rfc4648.

(** What the comparison with the reference needs of a group of six bits:
    the character the code writes for it is the character of the
    reference, and it is no padding. *)
Definition group_ok (group : Z) : bool :=
  Ascii.eqb (webSafeChar (Base64.lookup group)) (Rfc4648.urlChar group)
  && negb (Ascii.eqb (Rfc4648.urlChar group) "=").

(** * Properties *)

(** ** Facts about buffers *)

Lemma is_buffer_cons (b : Z) (buf : Buffer) :
  is_buffer (b :: buf) <-> is_byte b /\ is_buffer buf.
Proof.
  unfold is_buffer. split.
  - intros H. inversion H; subst. now split.
  - intros [Hb Hbuf]. now constructor.
Qed.

(** Induction over a buffer three bytes at a time, as the base64 encoder
    reads it. *)
Lemma buffer_ind3 (P : Buffer -> Prop) :
  P [] ->
  (forall a, P [a]) ->
  (forall a b, P [a; b]) ->
  (forall a b c rest, P rest -> P (a :: b :: c :: rest)) ->
  forall buf, P buf.
Proof.
  intros H0 H1 H2 H3.
  fix IH 1.
  intros [|a [|b [|c rest]]].
  - exact H0.
  - apply H1.
  - apply H2.
  - apply H3, IH.
Qed.

(** ** The base64 alphabet *)

Lemma sextet_ok_all (n : Z) : 0 <= n < 64 -> sextet_ok n = true.
Proof.
  intros Hn.
  assert (Hall : forallb sextet_ok (map Z.of_nat (seq 0 64)) = true)
    by (vm_compute; reflexivity).
  rewrite forallb_forall in Hall.
  apply Hall.
  replace n with (Z.of_nat (Z.to_nat n)) by lia.
  apply in_map, in_seq. lia.
Qed.

Section UrlSafeBase64.

Local Open Scope string_scope.

Lemma replaceAll_compose (a b c d : ascii) (s : string) :
replaceAll c d (replaceAll a b s)
= mapString (fun x => let x1 := if Ascii.eqb x a then b else x in
                      if Ascii.eqb x1 c then d else x1) s.
Proof.
induction s as [|x s IH]; simpl; [reflexivity|]. now rewrite IH.
Qed.

Lemma mapString_app (f : ascii -> ascii) (s t : string) :
mapString f (s ++ t) = mapString f s ++ mapString f t.
Proof.
induction s as [|x s IH]; simpl; [reflexivity|]. now rewrite IH.
Qed.

Lemma mapString_length (f : ascii -> ascii) (s : string) :
String.length (mapString f s) = String.length s.
Proof.
induction s as [|x s IH]; simpl; [reflexivity|]. now rewrite IH.
Qed.

Lemma mapString_id_on (f : ascii -> ascii) (P : ascii -> Prop) (s : string) :
(forall c, P c -> f c = c) -> AllChars P s -> mapString f s = s.
Proof.
intros Hf. induction s as [|x s IH]; simpl; [reflexivity|].
intros [Hx Hs]. now rewrite Hf, IH.
Qed.

Lemma AllChars_impl (P Q : ascii -> Prop) (s : string) :
(forall c, P c -> Q c) -> AllChars P s -> AllChars Q s.
Proof.
intros HPQ. induction s as [|x s IH]; simpl; [trivial|].
intros [Hx Hs]. split; auto.
Qed.

Lemma AllChars_app (P : ascii -> Prop) (s t : string) :
AllChars P (s ++ t) <-> AllChars P s /\ AllChars P t.
Proof.
induction s as [|x s IH]; simpl; tauto.
Qed.

Lemma AllChars_map (P : ascii -> Prop) (f : ascii -> ascii) (s : string) :
AllChars (fun c => P (f c)) s -> AllChars P (mapString f s).
Proof.
induction s as [|x s IH]; simpl; [trivial|]. intros [Hx Hs]. auto.
Qed.

Lemma stripPadding_pad (p : string) :
AllChars isPad p -> stripPadding p = "".
Proof.
induction p as [|x p IH]; simpl; [reflexivity|].
intros [Hx Hp]. rewrite (IH Hp). unfold isPad in Hx. now subst x.
Qed.

Lemma stripPadding_app_pad (s p : string) :
AllChars (fun c => ~ isPad c) s -> AllChars isPad p ->
stripPadding (s ++ p) = s.
Proof.
intros Hs Hp. induction s as [|x s IH]; simpl.
- now apply stripPadding_pad.
- destruct Hs as [Hx Hs]. rewrite (IH Hs).
  destruct s as [|y s']; [|reflexivity].
  destruct (Ascii.eqb_spec x "="); [|reflexivity].
  now elim Hx.
Qed.

Lemma padding_isPad (n : nat) : AllChars isPad (substring 0 n "==").
Proof.
destruct n as [|[|[|n]]]; simpl; unfold isPad; tauto.
Qed.

Lemma sextetChar_facts (c : ascii) :
isSextetChar c ->
normalChar (webSafeChar c) = c
/\ ~ isPad c /\ ~ isPad (webSafeChar c)
/\ (exists n, 0 <= n < 64 /\ Base64.revLookup c = Some n
              /\ Base64.revLookup (webSafeChar c) = Some n
              /\ c = Base64.lookup n).
Proof.
intros (n & Hn & ->).
pose proof (sextet_ok_all n Hn) as Hok.
unfold sextet_ok in Hok. cbv zeta in Hok.
fold (webSafeChar (Base64.lookup n)) in Hok.
fold (normalChar (webSafeChar (Base64.lookup n))) in Hok.
rewrite !andb_true_iff, !negb_true_iff in Hok.
destruct Hok as [[[Hrev Hc] Hw] Hr].
unfold isPad.
repeat split.
- now apply Ascii.eqb_eq.
- intros E. rewrite E in Hc. discriminate.
- intros E. rewrite E in Hw. discriminate.
- exists n.
  destruct (Base64.revLookup (Base64.lookup n)) as [m|]; [|discriminate].
  destruct (Base64.revLookup (webSafeChar (Base64.lookup n))) as [m'|];
    [|discriminate].
  rewrite andb_true_iff, !Z.eqb_eq in Hrev. destruct Hrev; subst.
  auto.
Qed.

(** webSafe64 then normal64 restores a padded base64 text: the body of
  sextet characters followed by the padding its length calls for. *)
Lemma normal64_webSafe64_body (body : string) :
AllChars isSextetChar body ->
let padded := body ++ substring 0 ((3 * String.length body) mod 4) "==" in
webSafe64 padded = mapString webSafeChar body
/\ normal64 (webSafe64 padded) = padded.
Proof.
intros Hbody padded.
assert (Hws : webSafe64 padded = mapString webSafeChar body).
{ unfold webSafe64, padded. rewrite replaceAll_compose.
  fold webSafeChar.
  change (mapString (fun x => webSafeChar x)) with (mapString webSafeChar).
  rewrite mapString_app.
  rewrite (mapString_id_on webSafeChar isPad (substring _ _ _));
    [ | intros c ->; reflexivity | apply padding_isPad ].
  apply stripPadding_app_pad; [|apply padding_isPad].
  apply AllChars_map.
  eapply AllChars_impl; [|exact Hbody].
  intros c Hc. now apply sextetChar_facts in Hc. }
split; [exact Hws|].
rewrite Hws. unfold normal64, padded.
rewrite replaceAll_compose. fold normalChar.
change (mapString (fun x => normalChar x)) with (mapString normalChar).
rewrite mapString_length. f_equal.
clear Hws padded. induction body as [|x body IH]; simpl; [reflexivity|].
destruct Hbody as [Hx Hbody]. rewrite (IH Hbody).
apply sextetChar_facts in Hx. destruct Hx as [-> _]. reflexivity.
Qed.

Lemma padding_length_step (n : nat) :
((3 * S (S (S (S n)))) mod 4 = (3 * n) mod 4)%nat.
Proof.
replace (3 * S (S (S (S n))))%nat with (3 * n + 3 * 4)%nat by lia.
apply Nat.Div0.mod_add.
Qed.

Lemma lookup_isSextetChar (n : Z) :
0 <= n < 64 -> isSextetChar (Base64.lookup n).
Proof. intros Hn. now exists n. Qed.

(** The encoder writes sextet characters, then the padding that brings
  the length to a multiple of four. *)
Lemma encode_body (buf : Buffer) :
is_buffer buf ->
exists body,
  AllChars isSextetChar body
  /\ Base64.encode buf
     = body ++ substring 0 ((3 * String.length body) mod 4) "==".
Proof.
induction buf as [|a|a b|a b c rest IH] using buffer_ind3; intros Hbuf.
- exists "". now split.
- apply is_buffer_cons in Hbuf. destruct Hbuf as [Ha _].
  unfold is_byte in Ha.
  exists (String (Base64.lookup (a / 4))
            (String (Base64.lookup ((a * 16) mod 64)) "")).
  split; [|reflexivity].
  simpl. repeat split;
    apply lookup_isSextetChar; Z.div_mod_to_equations; lia.
- apply is_buffer_cons in Hbuf. destruct Hbuf as [Ha Hbuf].
  apply is_buffer_cons in Hbuf. destruct Hbuf as [Hb _].
  unfold is_byte in Ha, Hb.
  exists (String (Base64.lookup ((a * 256 + b) / 1024))
            (String (Base64.lookup (((a * 256 + b) / 16) mod 64))
               (String (Base64.lookup (((a * 256 + b) * 4) mod 64)) ""))).
  split; [|reflexivity].
  simpl. repeat split;
    apply lookup_isSextetChar; Z.div_mod_to_equations; lia.
- apply is_buffer_cons in Hbuf. destruct Hbuf as [Ha Hbuf].
  apply is_buffer_cons in Hbuf. destruct Hbuf as [Hb Hbuf].
  apply is_buffer_cons in Hbuf. destruct Hbuf as [Hc Hbuf].
  destruct (IH Hbuf) as (body & Hbody & Henc).
  set (tmp := a * 65536 + b * 256 + c).
  exists (String (Base64.lookup ((tmp / 262144) mod 64))
            (String (Base64.lookup ((tmp / 4096) mod 64))
               (String (Base64.lookup ((tmp / 64) mod 64))
                  (String (Base64.lookup (tmp mod 64)) body)))).
  split.
  + simpl. repeat split; try exact Hbody;
      apply lookup_isSextetChar; apply Z.mod_pos_bound; lia.
  + cbn [String.length]. rewrite padding_length_step.
    cbn [Base64.encode]. fold tmp. rewrite Henc. reflexivity.
Qed.

Lemma sextets_lookup (n : Z) (s : string) :
0 <= n < 64 ->
Base64.sextets (String (Base64.lookup n) s) = n :: Base64.sextets s.
Proof.
intros Hn.
destruct (sextetChar_facts _ (lookup_isSextetChar n Hn))
  as (_ & Hpad & _ & m & Hm & Hrev & _ & Hlook).
cbn [Base64.sextets].
destruct (Ascii.eqb_spec (Base64.lookup n) "=") as [E|_];
  [now elim Hpad|].
pose proof (sextet_ok_all n Hn) as Hok. unfold sextet_ok in Hok.
cbv zeta in Hok. rewrite Hrev in *.
destruct (Base64.revLookup _) in Hok; [|discriminate].
rewrite !andb_true_iff, Z.eqb_eq in Hok.
destruct Hok as [[[[-> _] _] _] _]. reflexivity.
Qed.

Lemma sextets_pad (s : string) : Base64.sextets (String "=" s) = [].
Proof. reflexivity. Qed.

(** Decoding what the encoder wrote gives the buffer back. *)
Lemma decode_encode (buf : Buffer) :
is_buffer buf -> Base64.decode (Base64.encode buf) = buf.
Proof.
unfold Base64.decode.
induction buf as [|a|a b|a b c rest IH] using buffer_ind3; intros Hbuf.
- reflexivity.
- apply is_buffer_cons in Hbuf. destruct Hbuf as [Ha _].
  unfold is_byte in Ha. cbn [Base64.encode].
  rewrite !sextets_lookup, sextets_pad
    by (Z.div_mod_to_equations; lia).
  cbn [Base64.bytes]. f_equal. Z.div_mod_to_equations; lia.
- apply is_buffer_cons in Hbuf. destruct Hbuf as [Ha Hbuf].
  apply is_buffer_cons in Hbuf. destruct Hbuf as [Hb _].
  unfold is_byte in Ha, Hb. cbn [Base64.encode]. cbv zeta.
  rewrite !sextets_lookup, sextets_pad
    by (Z.div_mod_to_equations; lia).
  cbn [Base64.bytes]. cbv zeta.
  f_equal; [|f_equal]; Z.div_mod_to_equations; lia.
- apply is_buffer_cons in Hbuf. destruct Hbuf as [Ha Hbuf].
  apply is_buffer_cons in Hbuf. destruct Hbuf as [Hb Hbuf].
  apply is_buffer_cons in Hbuf. destruct Hbuf as [Hc Hbuf].
  unfold is_byte in Ha, Hb, Hc. cbn [Base64.encode]. cbv zeta.
  rewrite !sextets_lookup by (apply Z.mod_pos_bound; lia).
  cbn [Base64.bytes]. cbv zeta. rewrite (IH Hbuf).
  set (tmp := a * 65536 + b * 256 + c).
  assert (Htmp : (tmp / 262144) mod 64 * 262144 + (tmp / 4096) mod 64 * 4096
                 + (tmp / 64) mod 64 * 64 + tmp mod 64 = tmp).
  { assert (0 <= tmp < 16777216) by (unfold tmp; lia).
    clearbody tmp. Z.div_mod_to_equations. lia. }
  rewrite Htmp. unfold tmp.
  f_equal; [|f_equal; [|f_equal]]; Z.div_mod_to_equations; lia.
Qed.

(** The URL-safe text of a buffer, made standard again, is the base64
  text of the buffer. *)
Lemma normal64_webSafe64_encode (buf : Buffer) :
is_buffer buf ->
normal64 (webSafe64 (Base64.encode buf)) = Base64.encode buf.
Proof.
intros Hbuf.
destruct (encode_body buf Hbuf) as (body & Hbody & ->).
now apply normal64_webSafe64_body.
Qed.

(** C8: for every byte buffer, webSafe64 followed by normal64 gives back
  the base64 text the buffer was encoded to (the URL-safe characters
  mapped back and the stripped padding restored), so the text decodes to
  the bytes that were encoded. *)
Theorem normal64_webSafe64_roundtrip (buf : Buffer) :
is_buffer buf ->
normal64 (webSafe64 (toBase64 buf)) = toBase64 buf
/\ fromBase64 (normal64 (webSafe64 (toBase64 buf))) = buf.
Proof.
intros Hbuf. unfold toBase64, fromBase64.
assert (Hback : normal64 (webSafe64 (Base64.encode buf))
                = Base64.encode buf)
  by now apply normal64_webSafe64_encode.
split; [exact Hback|].
rewrite Hback. now apply decode_encode.
Qed.

Lemma normal64_webSafe64_roundtrip_witness :
is_buffer [0xfb; 0xff; 0xfe; 0x01]
/\ normal64 (webSafe64 (toBase64 [0xfb; 0xff; 0xfe; 0x01])) = "+//+AQ=="
/\ fromBase64 (normal64 (webSafe64 (toBase64 [0xfb; 0xff; 0xfe; 0x01])))
   = [0xfb; 0xff; 0xfe; 0x01].
Proof.
assert (H : is_buffer [0xfb; 0xff; 0xfe; 0x01])
  by (repeat constructor; unfold is_byte; lia).
split; [exact H|].
exact (normal64_webSafe64_roundtrip [0xfb; 0xff; 0xfe; 0x01] H).
Defined.

End UrlSafeBase64.

(** ** Reading buffers *)

Lemma length_app_status (payload : Buffer) (x y : Z) :
  Buf.length (payload ++ [x; y]) = Buf.length payload + 2.
Proof. unfold Buf.length. rewrite length_app. simpl. lia. Qed.

Lemma length_nonneg (buf : Buffer) : 0 <= Buf.length buf.
Proof. unfold Buf.length. lia. Qed.

Lemma get_in_bounds (buf : Buffer) (i : Z) :
  0 <= i < Buf.length buf -> exists v, Buf.get buf i = Some v.
Proof.
  unfold Buf.get, Buf.length. intros Hi.
  destruct (Z.ltb_spec i 0); [lia|].
  destruct (nth_error buf (Z.to_nat i)) as [v|] eqn:E; [now exists v|].
  apply nth_error_None in E. lia.
Qed.

Lemma split_status (response : Buffer) :
  2 <= Buf.length response ->
  exists payload x y, response = payload ++ [x; y].
Proof.
  unfold Buf.length. intros Hlen.
  destruct response as [|b response] using rev_ind; [simpl in Hlen; lia|].
  destruct response as [|a response _] using rev_ind.
  - simpl in Hlen. lia.
  - exists response, a, b. now rewrite <- app_assoc.
Qed.

Lemma get_status (payload : Buffer) (x y : Z) :
  Buf.get (payload ++ [x; y]) (Buf.length (payload ++ [x; y]) - 2) = Some x
  /\ Buf.get (payload ++ [x; y]) (Buf.length (payload ++ [x; y]) - 1)
     = Some y.
Proof.
  rewrite length_app_status. unfold Buf.get, Buf.length.
  split.
  - destruct (Z.ltb_spec (Z.of_nat (List.length payload) + 2 - 2) 0); [lia|].
    replace (Z.to_nat (Z.of_nat (List.length payload) + 2 - 2))
      with (List.length payload + 0)%nat by lia.
    now rewrite nth_error_app2, Nat.add_comm, Nat.add_sub by lia.
  - destruct (Z.ltb_spec (Z.of_nat (List.length payload) + 2 - 1) 0); [lia|].
    replace (Z.to_nat (Z.of_nat (List.length payload) + 2 - 1))
      with (List.length payload + 1)%nat by lia.
    now rewrite nth_error_app2, Nat.add_comm, Nat.add_sub by lia.
Qed.

Lemma statusIsNot_app (payload : Buffer) (x y sw1 sw2 : Z) :
  statusIsNot (payload ++ [x; y]) sw1 sw2
  = negb (x =? sw1) || negb (y =? sw2).
Proof.
  unfold statusIsNot.
  destruct (get_status payload x y) as [-> ->]. reflexivity.
Qed.

Lemma statusIsNot_short (response : Buffer) (sw1 sw2 : Z) :
  Buf.length response < 2 -> statusIsNot response sw1 sw2 = true.
Proof.
  unfold statusIsNot, Buf.get, Buf.length. intros Hlen.
  destruct response as [|a [|b response]]; simpl in *; try reflexivity.
  lia.
Qed.

(** The status test of the code is the test that the response ends in
    the two status bytes. *)
Lemma statusIsNot_false (response : Buffer) (sw1 sw2 : Z) :
  statusIsNot response sw1 sw2 = false <-> HasStatus response sw1 sw2.
Proof.
  split.
  - intros H.
    destruct (Z.lt_ge_cases (Buf.length response) 2) as [Hs|Hl].
    + rewrite statusIsNot_short in H by assumption. discriminate.
    + destruct (split_status response Hl) as (payload & x & y & ->).
      rewrite statusIsNot_app in H.
      apply orb_false_iff in H. destruct H as [Hx Hy].
      apply negb_false_iff, Z.eqb_eq in Hx, Hy. subst.
      now exists payload.
  - intros (payload & ->). rewrite statusIsNot_app.
    now rewrite !Z.eqb_refl.
Qed.

Lemma slice_payload (payload : Buffer) (x y : Z) :
  Buf.slice (payload ++ [x; y]) 0 (Buf.length (payload ++ [x; y]) - 2)
  = payload.
Proof.
  unfold Buf.slice. rewrite length_app_status.
  pose proof (length_nonneg payload) as Hp.
  unfold Buf.clamp.
  destruct (Z.ltb_spec 0 0); [lia|].
  destruct (Z.ltb_spec (Buf.length payload + 2 - 2) 0); [lia|].
  rewrite Z.min_l by lia. rewrite Z.min_l by lia.
  change (Z.to_nat 0) with 0%nat. cbn [skipn].
  unfold Buf.length.
  replace (Z.to_nat (Z.of_nat (List.length payload) + 2 - 2 - 0))
    with (List.length payload + 0)%nat by lia.
  rewrite firstn_app_2. simpl. apply app_nil_r.
Qed.

(** [(b & 2^k) === 2^k] reads bit [k] of [b]. *)
Lemma land_pow2_testbit (b k : Z) :
  0 <= k -> (Z.land b (2 ^ k) =? 2 ^ k) = Z.testbit b k.
Proof.
  intros Hk.
  destruct (Z.testbit b k) eqn:Hbit.
  - apply Z.eqb_eq. apply Z.bits_inj'. intros n Hn.
    rewrite Z.land_spec, Z.pow2_bits_eqb by assumption.
    destruct (Z.eqb_spec k n) as [->|_].
    + now rewrite Hbit.
    + apply andb_false_r.
  - apply Z.eqb_neq. intros E.
    assert (Hk' : Z.testbit (Z.land b (2 ^ k)) k = true).
    { rewrite E, Z.pow2_bits_eqb by assumption. apply Z.eqb_refl. }
    rewrite Z.land_spec, Hbit in Hk'. discriminate.
Qed.

Lemma land_1_testbit (b : Z) : (Z.land b 0x01 =? 0x01) = Z.testbit b 0.
Proof. exact (land_pow2_testbit b 0 (Z.le_refl 0)). Qed.

Lemma land_2_testbit (b : Z) : (Z.land b 0x02 =? 0x02) = Z.testbit b 1.
Proof. exact (land_pow2_testbit b 1 Z.le_0_1). Qed.

(** ** Running promises *)

Lemma run_bind {A B : Type} (p : Promise A) (f : A -> Promise B)
      (u2f : Transport) (log : list Call) :
  run (bind p f) u2f log
  = match run p u2f log with
    | (Fulfilled a, log') => run (f a) u2f log'
    | (Rejected e, log') => (Rejected e, log')
    end.
Proof.
  revert log.
  induction p as [a|e|requests timeout k IH]; intros log; simpl;
    [reflexivity|reflexivity|apply IH].
Qed.

Lemma run_settled {A : Type} (s : Settled A) (u2f : Transport)
      (log : list Call) :
  run (settled s) u2f log = (s, log).
Proof. now destruct s. Qed.

Lemma run_sendAPDU (origin : string) (apdu : Buffer) (timeout : Z)
      (u2f : Transport) (log : list Call) :
  run (Index.sendAPDU origin (Some apdu) timeout) u2f log
  = (Index.sendAPDU_settle (u2f log (callOf origin timeout apdu)),
     log ++ [callOf origin timeout apdu]).
Proof. cbn [Index.sendAPDU run]. apply run_settled. Qed.

(** One round trip followed by its handler. *)
Lemma run_roundTrip {B : Type} (origin : string) (apdu : Buffer)
      (timeout : Z) (h : Buffer -> Promise B) (u2f : Transport)
      (log : list Call) :
  run (bind (Index.sendAPDU origin (Some apdu) timeout) h) u2f log
  = match Index.sendAPDU_settle (u2f log (callOf origin timeout apdu)) with
    | Fulfilled response =>
        run (h response) u2f (log ++ [callOf origin timeout apdu])
    | Rejected e => (Rejected e, log ++ [callOf origin timeout apdu])
    end.
Proof. rewrite run_bind, run_sendAPDU. reflexivity. Qed.

(** sendAPDU resolves the frame a device wrote as URL-safe base64, when
    the frame has its two status bytes. *)
Lemma sendAPDU_settle_answer (frame : Buffer) :
  is_buffer frame ->
  Index.sendAPDU_settle (answer frame)
  = if Buf.length frame <? 2 then Rejected MalformedResponse
    else Fulfilled frame.
Proof.
  intros Hframe. unfold answer, Index.sendAPDU_settle. cbn [signatureData].
  unfold toBase64, fromBase64.
  rewrite normal64_webSafe64_encode, decode_encode by assumption.
  reflexivity.
Qed.


(** ** Response frames and their reads *)

Lemma sendAPDU_settle_length (outcome : SignOutcome) (response : Buffer) :
  Index.sendAPDU_settle outcome = Fulfilled response ->
  2 <= Buf.length response.
Proof.
  unfold Index.sendAPDU_settle.
  destruct outcome as [[[sd|]]|err]; cbn [signatureData]; try discriminate.
  destruct (Z.ltb_spec (Buf.length (fromBase64 (normal64 sd))) 2);
    [discriminate|].
  intros [= <-]. assumption.
Qed.

Lemma getInfo_then_wrong_length (response : Buffer) :
  Buf.length response <> 10 ->
  Index.getInfo_then response = Reject ProtocolError.
Proof.
  intros Hlen. unfold Index.getInfo_then.
  destruct (statusIsNot response 144 0); [reflexivity|].
  destruct (Z.eqb_spec (Buf.length response) 10); [contradiction|].
  reflexivity.
Qed.

(** C10: a response frame that sendAPDU resolves has at least two bytes,
    so the reads of the status bytes at [length - 2] and [length - 1]
    that the operations make are inside the frame (the status test
    compares the two bytes found there); getInfo rejects a frame that is
    not ten bytes long whatever its payload, reads bytes 0, 1 and 2 inside
    a frame of ten bytes, and never fails on [undefined]. *)
Theorem response_reads_in_bounds (origin : string) (apdu : option Buffer)
        (timeout : Z) (u2f : Transport) (log : list Call)
        (response : Buffer) :
  fst (run (Index.sendAPDU origin apdu timeout) u2f log)
  = Fulfilled response ->
  2 <= Buf.length response
  /\ (exists sw1 sw2,
        Buf.get response (Buf.length response - 2) = Some sw1
        /\ Buf.get response (Buf.length response - 1) = Some sw2
        /\ forall a b,
             statusIsNot response a b = negb (sw1 =? a) || negb (sw2 =? b))
  /\ (Buf.length response <> 10 ->
      Index.getInfo_then response = Reject ProtocolError)
  /\ (Buf.length response = 10 ->
      exists b0 b1 b2,
        Buf.get response 0 = Some b0 /\ Buf.get response 1 = Some b1
        /\ Buf.get response 2 = Some b2)
  /\ Index.getInfo_then response <> Reject TypeError.
Proof.
  intros Hrun.
  assert (Hlen : 2 <= Buf.length response).
  { destruct apdu as [apdu|]; [|discriminate].
    rewrite run_sendAPDU in Hrun. cbn [fst] in Hrun.
    now apply sendAPDU_settle_length in Hrun. }
  split; [exact Hlen|]. split; [|split; [|split]].
  - destruct (split_status response Hlen) as (payload & x & y & ->).
    exists x, y. destruct (get_status payload x y) as [Hx Hy].
    repeat split; try assumption.
    intros a b. apply statusIsNot_app.
  - apply getInfo_then_wrong_length.
  - intros H10.
    destruct (get_in_bounds response 0) as [b0 H0]; [lia|].
    destruct (get_in_bounds response 1) as [b1 H1]; [lia|].
    destruct (get_in_bounds response 2) as [b2 H2]; [lia|].
    now exists b0, b1, b2.
  - destruct (Z.eq_dec (Buf.length response) 10) as [H10|H10].
    + unfold Index.getInfo_then.
      destruct (statusIsNot response 144 0); [discriminate|].
      destruct (negb (Buf.length response =? 10)); [discriminate|].
      destruct (get_in_bounds response 0) as [b0 ->]; [lia|].
      destruct (get_in_bounds response 1) as [b1 ->]; [lia|].
      discriminate.
    + rewrite getInfo_then_wrong_length by assumption. discriminate.
Qed.

Lemma response_reads_in_bounds_witness :
  2 <= Buf.length [0x01; 0x02; 0x03; 0; 0; 0; 0; 0; 0x90; 0x00].
Proof.
  apply (response_reads_in_bounds
           "https://wallet.example" (Some [0x80; 0xC4; 0x00; 0x00]) 30
           (fun _ _ => answer [0x01; 0x02; 0x03; 0; 0; 0; 0; 0; 0x90; 0x00])
           []).
  reflexivity.
Defined.

(** ** getInfo *)

Lemma run_getInfo (origin : string) (timeout : Z) (u2f : Transport) :
  run (Index.getInfo origin timeout) u2f []
  = match Index.sendAPDU_settle
            (u2f [] (callOf origin timeout [0x80; 0xC4; 0x00; 0x00])) with
    | Fulfilled response =>
        run (Index.getInfo_then response) u2f
            [callOf origin timeout [0x80; 0xC4; 0x00; 0x00]]
    | Rejected e => (Rejected e, [callOf origin timeout [0x80; 0xC4; 0x00; 0x00]])
    end.
Proof. unfold Index.getInfo. now rewrite run_roundTrip. Qed.

Lemma getInfo_then_decodes (b0 b1 b2 b3 b4 b5 b6 b7 : Z) :
  Index.getInfo_then [b0; b1; b2; b3; b4; b5; b6; b7; 0x90; 0x00]
  = Resolve {| Index.info_version := (toString b0 ++ "." ++ toString b1)%string;
               Index.walletInitialized := Z.testbit b2 0;
               Index.pinVerified := Z.testbit b2 1 |}.
Proof.
  unfold Index.getInfo_then.
  change [b0; b1; b2; b3; b4; b5; b6; b7; 144; 0]
    with ([b0; b1; b2; b3; b4; b5; b6; b7] ++ [144; 0]) at 1.
  rewrite statusIsNot_app. cbn [Z.eqb Pos.eqb negb orb].
  change (Buf.length [b0; b1; b2; b3; b4; b5; b6; b7; 144; 0]) with 10.
  cbn [Z.eqb Pos.eqb negb].
  change (Buf.get [b0; b1; b2; b3; b4; b5; b6; b7; 144; 0] 0) with (Some b0).
  change (Buf.get [b0; b1; b2; b3; b4; b5; b6; b7; 144; 0] 1) with (Some b1).
  change (Buf.get [b0; b1; b2; b3; b4; b5; b6; b7; 144; 0] 2) with (Some b2).
  cbn [bit_and].
  now rewrite land_1_testbit, land_2_testbit.
Qed.

(** C9: when the round trip of getInfo resolves a response of ten bytes
    ending in 90 00, getInfo resolves the record whose version is byte 0,
    a dot, byte 1, whose walletInitialized is bit 0 of byte 2 and whose
    pinVerified is bit 1 of byte 2; the response 1, 2, 0x03, ..., 0x90,
    0x00 gives version 1.2, initialized and PIN verified; a response that
    is not ten bytes long or does not end in 90 00 is rejected. *)
Theorem getInfo_decodes (origin : string) (timeout : Z) (u2f : Transport)
        (response : Buffer) :
  Index.sendAPDU_settle
    (u2f [] (callOf origin timeout [0x80; 0xC4; 0x00; 0x00]))
  = Fulfilled response ->
  (forall b0 b1 b2 b3 b4 b5 b6 b7,
      response = [b0; b1; b2; b3; b4; b5; b6; b7; 0x90; 0x00] ->
      fst (run (Index.getInfo origin timeout) u2f [])
      = Fulfilled
          {| Index.info_version := (toString b0 ++ "." ++ toString b1)%string;
             Index.walletInitialized := Z.testbit b2 0;
             Index.pinVerified := Z.testbit b2 1 |})
  /\ (forall b3 b4 b5 b6 b7,
         response = [1; 2; 0x03; b3; b4; b5; b6; b7; 0x90; 0x00] ->
         fst (run (Index.getInfo origin timeout) u2f [])
         = Fulfilled {| Index.info_version := "1.2";
                        Index.walletInitialized := true;
                        Index.pinVerified := true |})
  /\ (Buf.length response <> 10 \/ ~ HasStatus response 0x90 0x00 ->
      fst (run (Index.getInfo origin timeout) u2f [])
      = Rejected ProtocolError).
Proof.
  intros Hsettle. rewrite run_getInfo, Hsettle.
  split; [|split].
  - intros b0 b1 b2 b3 b4 b5 b6 b7 ->.
    now rewrite getInfo_then_decodes.
  - intros b3 b4 b5 b6 b7 ->.
    now rewrite getInfo_then_decodes.
  - intros [Hlen|Hstatus].
    + now rewrite getInfo_then_wrong_length.
    + unfold Index.getInfo_then.
      destruct (statusIsNot response 144 0) eqn:E; [reflexivity|].
      apply statusIsNot_false in E. contradiction.
Qed.

Lemma getInfo_decodes_witness :
  fst (run (Index.getInfo "https://wallet.example" 30)
           (fun _ _ => answer [1; 2; 0x03; 0; 0; 0; 0; 0; 0x90; 0x00]) [])
  = Fulfilled {| Index.info_version := "1.2";
                 Index.walletInitialized := true;
                 Index.pinVerified := true |}.
Proof.
  refine (proj1 (proj2 (getInfo_decodes
                          "https://wallet.example" 30
                          (fun _ _ => answer [1; 2; 0x03; 0; 0; 0; 0; 0; 0x90; 0x00])
                          [1; 2; 0x03; 0; 0; 0; 0; 0; 0x90; 0x00] _))
                0 0 0 0 0 _); reflexivity.
Defined.

(** ** getRandom *)

Lemma getRandom_apdu_frame (length : Z) :
  Index.getRandom_apdu length = [0x80; 0xC0; 0x00; 0x00; length mod 256].
Proof. reflexivity. Qed.

(** The guard of getRandom rejects without a transport call exactly the
    lengths 0 and above 128. *)
Lemma getRandom_guard (origin : string) (timeout length : Z)
      (u2f : Transport) :
  (length = 0 \/ 128 < length ->
   run (Index.getRandom origin timeout length) u2f []
   = (Rejected InvalidLength, []))
  /\ (length <> 0 -> length <= 128 ->
      snd (run (Index.getRandom origin timeout length) u2f [])
      = [callOf origin timeout [0x80; 0xC0; 0x00; 0x00; length mod 256]]).
Proof.
  unfold Index.getRandom. split.
  - intros H.
    destruct (Z.eqb_spec length 0) as [E|E]; [reflexivity|].
    destruct (Z.gtb_spec length 128); [reflexivity|lia].
  - intros Hnz Hle.
    destruct (Z.eqb_spec length 0) as [E|E]; [contradiction|].
    destruct (Z.gtb_spec length 128); [lia|].
    cbn [orb]. rewrite run_roundTrip, getRandom_apdu_frame.
    destruct (Index.sendAPDU_settle _) as [response|e]; [|reflexivity].
    unfold Index.getRandom_then.
    destruct (statusIsNot response 144 0); [reflexivity|].
    destruct (negb _); reflexivity.
Qed.

(** X6: for a length from 1 to 128, getRandom resolves the first
    [length] bytes of a response of [length + 2] bytes ending in 90 00,
    and rejects any other response with the protocol error. *)
Lemma getRandom_in_range (origin : string) (timeout length : Z)
      (u2f : Transport) (response : Buffer) :
  1 <= length <= 128 ->
  Index.sendAPDU_settle
    (u2f [] (callOf origin timeout [0x80; 0xC0; 0x00; 0x00; length]))
  = Fulfilled response ->
  (forall payload,
      response = payload ++ [0x90; 0x00] -> Buf.length payload = length ->
      fst (run (Index.getRandom origin timeout length) u2f [])
      = Fulfilled payload)
  /\ (Buf.length response <> length + 2 \/ ~ HasStatus response 0x90 0x00 ->
      fst (run (Index.getRandom origin timeout length) u2f [])
      = Rejected ProtocolError).
Proof.
  intros Hlen Hsettle. unfold Index.getRandom.
  destruct (Z.eqb_spec length 0) as [E|E]; [lia|].
  destruct (Z.gtb_spec length 128); [lia|].
  cbn [orb]. rewrite run_roundTrip, getRandom_apdu_frame.
  rewrite Z.mod_small by lia. rewrite Hsettle.
  unfold Index.getRandom_then. split.
  - intros payload -> Hpayload.
    rewrite statusIsNot_app, slice_payload, length_app_status, Hpayload.
    now rewrite !Z.eqb_refl.
  - intros [Hwrong|Hstatus].
    + destruct (statusIsNot response 144 0); [reflexivity|].
      destruct (Z.eqb_spec (Buf.length response) (length + 2));
        [contradiction|reflexivity].
    + destruct (statusIsNot response 144 0) eqn:Est; [reflexivity|].
      apply statusIsNot_false in Est. contradiction.
Qed.

(** C4, at the length -1: the guard [length === 0 || length > 128] lets
    a negative length through, so getRandom does not reject before the
    transport; it stores the length as the byte 0xFF and sends the frame
    80 C0 00 00 FF. *)
Theorem getRandom_negative_length_reaches_transport
        (origin : string) (timeout : Z) (u2f : Transport) :
  snd (run (Index.getRandom origin timeout (-1)) u2f [])
  = [callOf origin timeout [0x80; 0xC0; 0x00; 0x00; 0xFF]]
  /\ run (Index.getRandom origin timeout (-1)) u2f []
     <> (Rejected InvalidLength, []).
Proof.
  destruct (getRandom_guard origin timeout (-1) u2f) as [_ Hsent].
  assert (H : snd (run (Index.getRandom origin timeout (-1)) u2f [])
              = [callOf origin timeout [0x80; 0xC0; 0x00; 0x00; 0xFF]])
    by (apply Hsent; lia).
  split; [exact H|].
  intros E. rewrite E in H. discriminate.
Qed.

(** ** verifyPin and the tries-left follow-up *)

Lemma getPinTriesLeft_then_status (sw1 sw2 : Z) :
  Index.getPinTriesLeft_then [sw1; sw2]
  = if sw1 =? 0x63 then Resolve (Some (sw2 - 0xC0))
    else if (sw1 =? 0x6d) && (sw2 =? 0x00) then Reject WalletNotInitialized
    else Reject ProtocolError.
Proof.
  unfold Index.getPinTriesLeft_then.
  change (Buf.length [sw1; sw2]) with 2.
  change (Buf.get [sw1; sw2] 0) with (Some sw1).
  change (Buf.get [sw1; sw2] 1) with (Some sw2).
  cbn [Z.eqb Pos.eqb negb strict_neq strict_eq minus].
  unfold strict_eq, strict_neq.
  destruct (sw1 =? 99); cbn [negb]; [reflexivity|].
  rewrite !negb_involutive. reflexivity.
Qed.

Lemma not_InvalidPinRetry (n : Z) :
  ProtocolError <> InvalidPinRetry n
  /\ WalletNotInitialized <> InvalidPinRetry n.
Proof. split; discriminate. Qed.

(** C5, as the code has it: when the device answers verifyPin with 69 82,
    the client sends the follow-up frame 80 22 80 00, which has no
    payload.  The follow-up status is recognised by its high byte alone:
    with high byte 0x63 the client rejects with the invalid-PIN error that
    carries the low byte minus 0xC0 as the tries left, whatever the low
    byte (63 C2 gives 2 tries left); with any other high byte no
    tries-left value is reported: 6D 00 rejects with the
    wallet-not-initialized error and every other status with the
    protocol error. *)
Theorem verifyPin_tries_left (origin : string) (timeout : Z) (pin : string)
        (u2f : Transport) :
  let call1 :=
    callOf origin timeout (Index.verifyPin_apdu (Buf.fromUtf8 pin)) in
  let call2 := callOf origin timeout [0x80; 0x22; 0x80; 0x00] in
  let result := run (Index.verifyPin origin timeout pin) u2f [] in
  4 <= Buf.length (Buf.fromUtf8 pin) <= 32 ->
  Index.sendAPDU_settle (u2f [] call1) = Fulfilled [0x69; 0x82] ->
  snd result = [call1; call2]
  /\ forall sw1 sw2,
      Index.sendAPDU_settle (u2f [call1] call2) = Fulfilled [sw1; sw2] ->
      (sw1 = 0x63 -> fst result = Rejected (InvalidPinRetry (sw2 - 0xC0)))
      /\ (sw1 <> 0x63 ->
          (forall n, fst result <> Rejected (InvalidPinRetry n))
          /\ fst result
             = Rejected (if (sw1 =? 0x6d) && (sw2 =? 0x00)
                         then WalletNotInitialized else ProtocolError)).
Proof.
  intros call1 call2 result Hpin Hfirst.
  assert (Hrun : result
                 = match Index.sendAPDU_settle (u2f [call1] call2) with
                   | Fulfilled response =>
                       run (bind (Index.getPinTriesLeft_then response)
                                 Index.invalidPin)
                           u2f [call1; call2]
                   | Rejected e => (Rejected e, [call1; call2])
                   end).
  { unfold result, Index.verifyPin.
    destruct (Z.ltb_spec (Buf.length (Buf.fromUtf8 pin)) 4); [lia|].
    destruct (Z.gtb_spec (Buf.length (Buf.fromUtf8 pin)) 32); [lia|].
    cbn [orb]. rewrite run_roundTrip. fold call1. rewrite Hfirst.
    change (Index.verifyPin_then origin timeout [105; 130])
      with (bind (Index.getPinTriesLeft origin timeout) Index.invalidPin).
    rewrite run_bind. unfold Index.getPinTriesLeft.
    rewrite run_roundTrip.
    change (callOf origin timeout (Buf.fromHex "80228000")) with call2.
    cbn [app].
    destruct (Index.sendAPDU_settle (u2f [call1] call2)) as [response|e];
      [|reflexivity].
    now rewrite <- run_bind. }
  split.
  - rewrite Hrun.
    destruct (Index.sendAPDU_settle (u2f [call1] call2)) as [response|e];
      [|reflexivity].
    assert (Hsettled : forall s : Settled (option Z),
               snd (run (bind (settled s) Index.invalidPin) u2f
                        [call1; call2]) = [call1; call2])
      by (intros [a|e]; reflexivity).
    unfold Index.getPinTriesLeft_then.
    destruct (negb _); [exact (Hsettled (Rejected ProtocolError))|].
    destruct (strict_neq _ _).
    + destruct (_ && _);
        [exact (Hsettled (Rejected WalletNotInitialized))
        |exact (Hsettled (Rejected ProtocolError))].
    + exact (Hsettled (Fulfilled (minus (Buf.get response 1) 192))).
  - intros sw1 sw2 Hsecond. rewrite Hrun, Hsecond.
    rewrite getPinTriesLeft_then_status. split.
    + intros ->. reflexivity.
    + intros Hsw1.
      destruct (Z.eqb_spec sw1 99) as [E|_]; [contradiction|].
      split.
      * intros n.
        destruct ((sw1 =? 109) && (sw2 =? 0)); cbn [bind run fst];
          intros [= E]; now apply (not_InvalidPinRetry n) in E.
      * now destruct ((sw1 =? 109) && (sw2 =? 0)).
Qed.

Lemma verifyPin_tries_left_witness :
  fst (run (Index.verifyPin "https://wallet.example" 30 "1234")
           (fun log _ => match log with
                         | [] => answer [0x69; 0x82]
                         | _ => answer [0x63; 0xC2]
                         end) [])
  = Rejected (Error "Invalid PIN-code. 2 tries left.").
Proof.
  refine (proj1 (proj2 (verifyPin_tries_left
                          "https://wallet.example" 30 "1234"
                          (fun log _ => match log with
                                        | [] => answer [0x69; 0x82]
                                        | _ => answer [0x63; 0xC2]
                                        end) _ _)
                       0x63 0xC2 _) _).
  - unfold Buf.length; simpl; lia.
  - reflexivity.
  - reflexivity.
  - reflexivity.
Defined.

(** C5 as the specification words it does not hold: the follow-up
    statuses 63 00 and 63 FF are outside the family 0x63Cn, and verifyPin
    still reports a number of tries left for them, -192 and 63. *)
Lemma verifyPin_tries_outside_family :
  (~ InFamily63Cn 0x63 0x00
   /\ fst (run (Index.verifyPin "https://wallet.example" 30 "1234")
               (fun log _ => match log with
                             | [] => answer [0x69; 0x82]
                             | _ => answer [0x63; 0x00]
                             end) [])
      = Rejected (InvalidPinRetry (-192))
   /\ InvalidPinRetry (-192) = Error "Invalid PIN-code. -192 tries left.")
  /\ (~ InFamily63Cn 0x63 0xFF
      /\ fst (run (Index.verifyPin "https://wallet.example" 30 "1234")
                  (fun log _ => match log with
                                | [] => answer [0x69; 0x82]
                                | _ => answer [0x63; 0xFF]
                                end) [])
         = Rejected (InvalidPinRetry 63)
      /\ InvalidPinRetry 63 = Error "Invalid PIN-code. 63 tries left.").
Proof.
  split; (split; [unfold InFamily63Cn; lia|]);
    split; vm_compute; reflexivity.
Qed.

(** ** Building frames *)

Lemma alloc_length (n : Z) : List.length (Buf.alloc n) = Z.to_nat n.
Proof. apply repeat_length. Qed.

Lemma alloc_add (n m : Z) :
  0 <= n -> 0 <= m -> Buf.alloc (n + m) = Buf.alloc n ++ Buf.alloc m.
Proof.
  intros Hn Hm. unfold Buf.alloc.
  rewrite Z2Nat.inj_add by assumption. apply repeat_app.
Qed.

(** The five stores that write the header of a frame. *)
Lemma set_header (a b c d e : Z) (rest : Buffer) :
  Buf.set (Buf.set (Buf.set (Buf.set (Buf.set
    (Buf.alloc 5 ++ rest) 0 a) 1 b) 2 c) 3 d) 4 e
  = [a mod 256; b mod 256; c mod 256; d mod 256; e mod 256] ++ rest.
Proof. reflexivity. Qed.

(** A copy into the zero bytes allocated for it. *)
Lemma copy_into_alloc (source pre post : Buffer) (s e : Z) :
  0 <= s <= e -> e <= Buf.length source ->
  Buf.copy source (pre ++ Buf.alloc (e - s) ++ post) (Buf.length pre) s e
  = pre ++ firstn (Z.to_nat (e - s)) (skipn (Z.to_nat s) source) ++ post.
Proof.
  unfold Buf.copy, Buf.length. intros Hse He.
  set (piece := firstn (Z.to_nat (e - s)) (skipn (Z.to_nat s) source)).
  assert (Hpiece : List.length piece = Z.to_nat (e - s)).
  { unfold piece. rewrite firstn_length_le; [reflexivity|].
    rewrite length_skipn. lia. }
  assert (Hfit : firstn (Z.to_nat (Z.of_nat (List.length
                                  (pre ++ Buf.alloc (e - s) ++ post))
                                - Z.of_nat (List.length pre))) piece
                 = piece).
  { apply firstn_all2. rewrite !length_app, alloc_length, Hpiece. lia. }
  rewrite Hfit, Hpiece, Nat2Z.id.
  rewrite firstn_app, Nat.sub_diag, firstn_all. cbn [firstn].
  rewrite app_nil_r. f_equal. f_equal.
  rewrite app_assoc, skipn_app.
  rewrite skipn_all2 by (rewrite length_app, alloc_length; lia).
  rewrite length_app, alloc_length.
  now rewrite Nat.sub_diag.
Qed.

Lemma firstn_skipn_whole (source : Buffer) :
  firstn (Z.to_nat (Buf.length source - 0)) (skipn (Z.to_nat 0) source)
  = source.
Proof.
  unfold Buf.length. cbn [Z.to_nat skipn].
  rewrite Z.sub_0_r, Nat2Z.id. apply firstn_all.
Qed.

(** ** The chunking loop *)

Section Chunking.

Variable size : nat.
Hypothesis size_positive : (0 < size)%nat.
Hypothesis size_byte : (size < 256)%nat.

Variable rawData : Buffer.

Lemma piece_length (i : nat) :
  List.length (piece size rawData i)
  = Nat.min size (List.length rawData - i * size).
Proof. unfold piece. now rewrite length_firstn, length_skipn. Qed.

Lemma chunkCount_bounds :
  (chunkCount size rawData * size <= List.length rawData + size - 1
   /\ List.length rawData + size - 1 < chunkCount size rawData * size + size)%nat.
Proof using size_positive.
  clear size_byte.
  unfold chunkCount.
  pose proof (Nat.div_mod (List.length rawData + size - 1) size) as Hdm.
  pose proof (Nat.mod_upper_bound (List.length rawData + size - 1) size).
  lia.
Qed.

(** One pass of the loop body writes the frame of piece [k]. *)
Lemma chunkApdu_frame (k : nat) :
  (k * size < List.length rawData)%nat ->
  chunkApdu (Z.of_nat size) rawData (Z.of_nat (k * size))
  = (chunkFrame size rawData k,
     Z.of_nat (Nat.min size (List.length rawData - k * size))).
Proof.
  intros Hk. unfold chunkApdu.
  set (offset := Z.of_nat (k * size)).
  set (cs := Z.of_nat (Nat.min size (List.length rawData - k * size))).
  assert (Hcs : (if offset + Z.of_nat size >? Buf.length rawData
                 then Buf.length rawData - offset else Z.of_nat size) = cs).
  { unfold cs, offset, Buf.length.
    destruct (Z.gtb_spec (Z.of_nat (k * size) + Z.of_nat size)
                         (Z.of_nat (List.length rawData))); lia. }
  rewrite Hcs. f_equal.
  assert (Hrange : 0 < cs < 256) by (unfold cs; lia).
  rewrite alloc_add by lia.
  rewrite set_header.
  replace (Buf.alloc cs) with (Buf.alloc (offset + cs - offset) ++ [])
    by (rewrite app_nil_r; f_equal; lia).
  change 5 with (Buf.length [128 mod 256; 242 mod 256;
                             (if offset =? 0 then 0 else 1) mod 256;
                             0 mod 256; cs mod 256]) at 1.
  rewrite copy_into_alloc
    by (unfold cs, offset, Buf.length; lia).
  rewrite app_nil_r.
  unfold chunkFrame.
  assert (Hpiece : firstn (Z.to_nat (offset + cs - offset))
                          (skipn (Z.to_nat offset) rawData)
                   = piece size rawData k).
  { unfold piece, offset, cs. rewrite Nat2Z.id.
    replace (Z.to_nat _)
      with (Nat.min size (List.length rawData - k * size)) by lia.
    destruct (Nat.le_ge_cases size (List.length rawData - k * size)).
    - now rewrite Nat.min_l.
    - rewrite Nat.min_r by assumption.
      rewrite !firstn_all2; try reflexivity; rewrite length_skipn; lia. }
  rewrite Hpiece.
  assert (Hlen : Buf.length (piece size rawData k) = cs)
    by (unfold Buf.length; now rewrite piece_length).
  rewrite Hlen, (Z.mod_small cs) by lia.
  assert (Hflag : (if offset =? 0 then 0 else 1)
                  = (if Nat.eqb k 0 then 0 else 1)).
  { unfold offset. destruct k as [|k]; [reflexivity|].
    destruct (Z.eqb_spec (Z.of_nat (S k * size)) 0); [lia|reflexivity]. }
  rewrite Hflag. now destruct (Nat.eqb k 0).
Qed.

Lemma chunkLoop_exit (fuel : nat) (apdus : list Buffer) :
  chunkLoop fuel (Z.of_nat size) rawData (Buf.length rawData) apdus
  = Some apdus.
Proof. destruct fuel; cbn [chunkLoop]; now rewrite Z.eqb_refl. Qed.

(** The loop invariant: before pass [k] the offset is [k * size] and
    the queue holds the frames of the pieces before [k]. *)
Lemma chunkLoop_frames (fuel k : nat) (apdus : list Buffer) :
  (k * size <= List.length rawData)%nat ->
  (List.length rawData - k * size <= fuel)%nat ->
  chunkLoop fuel (Z.of_nat size) rawData (Z.of_nat (k * size)) apdus
  = Some (apdus ++ map (chunkFrame size rawData)
                       (seq k (chunkCount size rawData - k))).
Proof.
  pose proof chunkCount_bounds as HN.
  revert k apdus.
  induction fuel as [|fuel IH]; intros k apdus Hk Hfuel.
  - assert (E : (k * size = List.length rawData)%nat) by lia.
    rewrite E. fold (Buf.length rawData). rewrite chunkLoop_exit.
    replace (chunkCount size rawData - k)%nat with 0%nat by nia.
    now rewrite app_nil_r.
  - destruct (Nat.eq_dec (k * size) (List.length rawData)) as [E|E].
    + rewrite E. fold (Buf.length rawData). rewrite chunkLoop_exit.
      replace (chunkCount size rawData - k)%nat with 0%nat by nia.
      now rewrite app_nil_r.
    + cbn [chunkLoop].
      destruct (Z.eqb_spec (Z.of_nat (k * size)) (Buf.length rawData))
        as [E'|_]; [unfold Buf.length in E'; lia|].
      rewrite chunkApdu_frame by lia.
      destruct (Nat.le_gt_cases (S k * size) (List.length rawData))
        as [Hfull|Hlast].
      * replace (Z.of_nat (k * size)
                 + Z.of_nat (Nat.min size (List.length rawData - k * size)))
          with (Z.of_nat (S k * size)) by lia.
        rewrite IH by lia.
        replace (chunkCount size rawData - k)%nat
          with (S (chunkCount size rawData - S k)) by nia.
        cbn [seq map]. now rewrite <- app_assoc.
      * replace (Z.of_nat (k * size)
                 + Z.of_nat (Nat.min size (List.length rawData - k * size)))
          with (Buf.length rawData) by (unfold Buf.length; lia).
        rewrite chunkLoop_exit.
        replace (chunkCount size rawData - k)%nat with 1%nat by nia.
        reflexivity.
Qed.

(** The loop ends, and its queue is the chunk frames of the payload. *)
Lemma chunkApdus_frames :
  chunkApdus (Z.of_nat size) rawData = Some (chunkFrames size rawData).
Proof.
  unfold chunkApdus, chunkFrames.
  change 0 with (Z.of_nat (0 * size)).
  rewrite chunkLoop_frames by lia.
  now rewrite Nat.sub_0_r.
Qed.

Lemma chunkFrames_length :
  List.length (chunkFrames size rawData) = chunkCount size rawData.
Proof. unfold chunkFrames. now rewrite length_map, length_seq. Qed.

Lemma chunkFrames_nth (i : nat) :
  (i < chunkCount size rawData)%nat ->
  nth i (chunkFrames size rawData) [] = chunkFrame size rawData i.
Proof.
  intros Hi. unfold chunkFrames.
  rewrite (nth_indep _ [] (chunkFrame size rawData 0))
    by (now rewrite length_map, length_seq).
  rewrite map_nth, seq_nth by assumption. reflexivity.
Qed.

Lemma chunkCount_divisible :
  (List.length rawData mod size = 0)%nat ->
  chunkCount size rawData = (List.length rawData / size)%nat.
Proof using size_positive.
  clear size_byte.
  intros Hmod. pose proof chunkCount_bounds as HN.
  pose proof (Nat.div_mod (List.length rawData) size) as Hdm.
  rewrite Hmod in Hdm. nia.
Qed.

(** The last piece of a payload that the size does not divide is the
    remainder. *)
Lemma last_piece_remainder :
  (List.length rawData mod size <> 0)%nat ->
  let last := (chunkCount size rawData - 1)%nat in
  (chunkCount size rawData = List.length rawData / size + 1)%nat
  /\ piece size rawData last = skipn (last * size) rawData
  /\ List.length (piece size rawData last)
     = (List.length rawData mod size)%nat.
Proof using size_positive.
  clear size_byte.
  intros Hmod last. pose proof chunkCount_bounds as HN.
  pose proof (Nat.div_mod (List.length rawData) size) as Hdm.
  pose proof (Nat.mod_upper_bound (List.length rawData) size) as Hub.
  assert (HNeq : (chunkCount size rawData
                  = List.length rawData / size + 1)%nat) by nia.
  assert (Hlast : (last = List.length rawData / size)%nat)
    by (unfold last; lia).
  split; [exact HNeq|]. split.
  - unfold piece. apply firstn_all2. rewrite length_skipn. nia.
  - rewrite piece_length. nia.
Qed.

Lemma chunkCount_positive :
  rawData <> [] -> (0 < chunkCount size rawData)%nat.
Proof using size_positive.
  clear size_byte.
  intros Hne. pose proof chunkCount_bounds as HN.
  destruct rawData; [contradiction|]. cbn [List.length] in HN. nia.
Qed.

End Chunking.

(** ** The chunked transfer of signData *)

(** A chunk round trip lets the transfer go on exactly when the response
    is the two bytes 90 00. *)
Lemma chunk_then_success (response : Buffer) :
  chunk_then response = None <-> response = success.
Proof.
  unfold chunk_then, success. split.
  - destruct response as [|a [|b [|c rest]]]; try discriminate.
    + change (Buf.length [a; b]) with 2.
      change (Buf.get [a; b] 0) with (Some a).
      change (Buf.get [a; b] 1) with (Some b).
      unfold strict_eq, strict_neq. cbn [Z.eqb Pos.eqb negb].
      destruct (Z.eqb_spec a 144) as [->|_], (Z.eqb_spec b 0) as [->|_];
        cbn [negb orb andb]; try reflexivity;
        repeat match goal with
               | |- context [if ?c then _ else _] => destruct c
               end; discriminate.
    + unfold Buf.length. cbn [List.length].
      destruct (Z.eqb_spec (Z.of_nat (S (S (S (List.length rest))))) 2);
        [lia|discriminate].
  - intros ->. reflexivity.
Qed.

Lemma roundTrip_head (origin : string) (timeout : Z) (u2f : Transport)
      (log : list Call) (apdu : Buffer) (apdus : list Buffer) :
  roundTrip origin timeout u2f log (apdu :: apdus) 0
  = Index.sendAPDU_settle (u2f log (callOf origin timeout apdu)).
Proof. unfold roundTrip. cbn [firstn map nth]. now rewrite app_nil_r. Qed.

Lemma roundTrip_tail (origin : string) (timeout : Z) (u2f : Transport)
      (log : list Call) (apdu : Buffer) (apdus : list Buffer) (j : nat) :
  roundTrip origin timeout u2f log (apdu :: apdus) (S j)
  = roundTrip origin timeout u2f (log ++ [callOf origin timeout apdu])
              apdus j.
Proof.
  unfold roundTrip. cbn [firstn map nth]. now rewrite <- app_assoc.
Qed.

Lemma run_finalize_log (origin : string) (timeout : Z) (u2f : Transport)
      (log : list Call) :
  snd (run (Index.finalize origin timeout) u2f log)
  = log ++ [callOf origin timeout [0x80; 0xF2; 0x02; 0x00]].
Proof.
  unfold Index.finalize. rewrite run_roundTrip.
  change Index.finalizeApdu with [128; 242; 2; 0].
  destruct (Index.sendAPDU_settle _) as [response|e]; [|reflexivity].
  unfold Index.finalize_then. now destruct (statusIsNot response 144 0).
Qed.

Section Transfer.

Variable origin : string.
Variable timeout : Z.
Variable u2f : Transport.

(** When a chunk round trip does not give 90 00, the transfer stops
    there: the promise is rejected and no later frame is sent. *)
Lemma localCallback_abort (apdus : list Buffer) :
  forall (log : list Call) (i : nat),
    (i < List.length apdus)%nat ->
    (forall j, (j < i)%nat ->
               roundTrip origin timeout u2f log apdus j
               = Fulfilled success) ->
    roundTrip origin timeout u2f log apdus i <> Fulfilled success ->
    exists err,
      run (Index.localCallback origin timeout apdus) u2f log
      = (Rejected err,
         log ++ map (callOf origin timeout) (firstn (S i) apdus))
      /\ (forall e, roundTrip origin timeout u2f log apdus i = Rejected e ->
                    err = e).
Proof.
  induction apdus as [|apdu rest IH]; intros log i Hi Hbefore Hfail.
  - cbn [List.length] in Hi. lia.
  - cbn [Index.localCallback]. rewrite run_roundTrip.
    destruct i as [|i].
    + rewrite roundTrip_head in Hfail.
      cbn [firstn map].
      destruct (Index.sendAPDU_settle _) as [response|e] eqn:Hsettle.
      * destruct (chunk_then response) as [err|] eqn:Hchunk.
        -- exists err. split; [reflexivity|].
           intros e. rewrite roundTrip_head, Hsettle. discriminate.
        -- apply chunk_then_success in Hchunk. subst response.
           now elim Hfail.
      * exists e. split; [reflexivity|].
        intros e'. rewrite roundTrip_head, Hsettle. now intros [= ->].
    + pose proof (Hbefore 0%nat (Nat.lt_0_succ i)) as Hfirst.
      rewrite roundTrip_head in Hfirst. rewrite Hfirst.
      change (chunk_then success) with (@None JsError).
      cbn [List.length] in Hi.
      destruct rest as [|next rest]; [cbn [List.length] in Hi; lia|].
      destruct (IH (log ++ [callOf origin timeout apdu]) i) as (err & Hrun & Herr).
      * lia.
      * intros j Hj. rewrite <- roundTrip_tail. apply Hbefore. lia.
      * now rewrite <- roundTrip_tail.
      * exists err. split.
        -- rewrite Hrun, <- app_assoc. reflexivity.
        -- intros e. rewrite roundTrip_tail. apply Herr.
Qed.

(** When every chunk round trip gives 90 00, every chunk frame is sent
    in order and the finalize round trip follows. *)
Lemma localCallback_success (apdus : list Buffer) :
  forall log : list Call,
    apdus <> [] ->
    (forall i, (i < List.length apdus)%nat ->
               roundTrip origin timeout u2f log apdus i
               = Fulfilled success) ->
    run (Index.localCallback origin timeout apdus) u2f log
    = run (Index.finalize origin timeout) u2f
          (log ++ map (callOf origin timeout) apdus).
Proof.
  induction apdus as [|apdu rest IH]; intros log Hne Hall.
  - contradiction.
  - cbn [Index.localCallback]. rewrite run_roundTrip.
    pose proof (Hall 0%nat (Nat.lt_0_succ _)) as Hfirst.
    rewrite roundTrip_head in Hfirst. rewrite Hfirst.
    change (chunk_then success) with (@None JsError).
    destruct rest as [|next rest]; [reflexivity|].
    rewrite IH.
    + cbn [map]. now rewrite <- app_assoc.
    + discriminate.
    + intros i Hi. rewrite <- roundTrip_tail. apply Hall.
      cbn [List.length] in *. lia.
Qed.

(** A chunk frame is sent only after every chunk before it had the
    response 90 00: when the calls made go beyond chunk [k - 1], the
    round trips of the chunks before [k] all succeeded. *)
Lemma localCallback_in_order (apdus : list Buffer) :
  forall (log : list Call) (k : nat),
    (k < List.length apdus)%nat ->
    (List.length log + k
     < List.length
         (snd (run (Index.localCallback origin timeout apdus) u2f log)))%nat ->
    forall j, (j < k)%nat ->
              roundTrip origin timeout u2f log apdus j = Fulfilled success.
Proof.
  induction apdus as [|apdu rest IH]; intros log k Hk Hsent j Hj.
  - cbn [List.length] in Hk. lia.
  - destruct k as [|k]; [lia|].
    cbn [Index.localCallback] in Hsent. rewrite run_roundTrip in Hsent.
    destruct (Index.sendAPDU_settle _) as [response|e] eqn:Hsettle.
    + destruct (chunk_then response) as [err|] eqn:Hchunk.
      * cbn [run snd] in Hsent. rewrite length_app in Hsent.
        cbn [List.length] in Hsent. lia.
      * apply chunk_then_success in Hchunk. subst response.
        cbn [List.length] in Hk.
        destruct rest as [|next rest]; [cbn [List.length] in Hk; lia|].
        destruct j as [|j]; [now rewrite roundTrip_head|].
        rewrite roundTrip_tail. apply (IH _ k); try lia.
        rewrite length_app. cbn [List.length] in *. lia.
    + cbn [snd] in Hsent. rewrite length_app in Hsent.
      cbn [List.length] in Hsent. lia.
Qed.

Lemma signData_localCallback (dataToSign : string) :
  Index.signData origin timeout dataToSign
  = Some (Index.localCallback origin timeout
            (chunkFrames 8 (Buf.fromHex dataToSign))).
Proof.
  unfold Index.signData, Index.maxChunkSize.
  change 8 with (Z.of_nat 8).
  rewrite chunkApdus_frames by lia. reflexivity.
Qed.

End Transfer.

(** C2: when the round trip of chunk [i] of signData does not classify
    as success (its response is not 90 00, or sendAPDU rejects, as on a
    transport failure or timeout) after the chunks before it succeeded,
    signData is rejected, the chunk [i] is the last frame sent (no
    further chunk and no finalize frame), and no signature is returned;
    a failure of the transport is the error of the rejection. *)
Theorem signData_aborts_on_failed_chunk
        (origin : string) (timeout : Z) (dataToSign : string)
        (u2f : Transport) (i : nat) :
  let apdus := chunkFrames 8 (Buf.fromHex dataToSign) in
  (i < List.length apdus)%nat ->
  (forall j, (j < i)%nat ->
             roundTrip origin timeout u2f [] apdus j = Fulfilled success) ->
  roundTrip origin timeout u2f [] apdus i <> Fulfilled success ->
  exists p err,
    Index.signData origin timeout dataToSign = Some p
    /\ run p u2f []
       = (Rejected err, map (callOf origin timeout) (firstn (S i) apdus))
    /\ (forall e, roundTrip origin timeout u2f [] apdus i = Rejected e ->
                  err = e).
Proof.
  intros apdus Hi Hbefore Hfail.
  destruct (localCallback_abort origin timeout u2f apdus [] i Hi Hbefore Hfail)
    as (err & Hrun & Herr).
  exists (Index.localCallback origin timeout apdus), err.
  split; [apply signData_localCallback|]. now split.
Qed.

Lemma signData_aborts_on_failed_chunk_witness :
  exists p err,
    Index.signData "https://wallet.example" 30 "000102030405060708090a0b"
    = Some p
    /\ run p (fun log _ => match log with
                           | [] => answer [0x90; 0x00]
                           | _ => SignRejected (TransportError 5)
                           end) []
       = (Rejected err,
          map (callOf "https://wallet.example" 30)
              [[0x80; 0xF2; 0x00; 0x00; 8; 0; 1; 2; 3; 4; 5; 6; 7];
               [0x80; 0xF2; 0x01; 0x00; 4; 8; 9; 10; 11]])
    /\ (forall e, @Rejected Buffer (TransportError 5) = Rejected e -> err = e).
Proof.
  apply (signData_aborts_on_failed_chunk
           "https://wallet.example" 30 "000102030405060708090a0b"
           (fun log _ => match log with
                         | [] => answer [0x90; 0x00]
                         | _ => SignRejected (TransportError 5)
                         end) 1%nat).
  - vm_compute. lia.
  - intros j Hj. assert (j = 0%nat) as -> by lia. reflexivity.
  - discriminate.
Defined.

(** ** The frames of signData *)

(** C1, as the code has it: for a non-empty payload, signData queues
    one chunk frame per eight bytes of payload (length / 8 of them when
    eight divides the length); chunk [i] is 80 F2 P1 00 Lc followed by the
    bytes of the payload from [8 i] on, at most eight, with the start or
    continue flag in P1 (00 on the first chunk, 01 on every other) and P2
    equal to 00; when eight does not divide the length, the last chunk
    carries the remainder in its length byte and payload.  When every
    chunk round trip succeeds, the frames sent are the chunk frames in
    order followed by exactly one finalize frame 80 F2 02 00, whose P1 is
    02. *)
Theorem signData_chunk_frames
        (origin : string) (timeout : Z) (dataToSign : string)
        (u2f : Transport) :
  let rawData := Buf.fromHex dataToSign in
  let n := chunkCount 8 rawData in
  let apdus := chunkFrames 8 rawData in
  rawData <> [] ->
  (forall i, (i < n)%nat ->
             roundTrip origin timeout u2f [] apdus i = Fulfilled success) ->
  chunkApdus Index.maxChunkSize rawData = Some apdus
  /\ List.length apdus = n
  /\ ((List.length rawData mod 8 = 0)%nat ->
      n = (List.length rawData / 8)%nat)
  /\ (forall i, (i < n)%nat ->
        let payload := firstn 8 (skipn (i * 8) rawData) in
        nth i apdus []
        = [0x80; 0xF2; if Nat.eqb i 0 then 0x00 else 0x01; 0x00;
           Buf.length payload] ++ payload
        /\ frameP1 (nth i apdus [])
           = Some (if Nat.eqb i 0 then 0x00 else 0x01)
        /\ frameP2 (nth i apdus []) = Some 0x00)
  /\ ((List.length rawData mod 8 <> 0)%nat ->
      n = (List.length rawData / 8 + 1)%nat
      /\ nth (n - 1) apdus []
         = [0x80; 0xF2; if Nat.eqb (n - 1) 0 then 0x00 else 0x01; 0x00;
            Z.of_nat (List.length rawData mod 8)]
             ++ skipn ((n - 1) * 8) rawData)
  /\ exists p,
      Index.signData origin timeout dataToSign = Some p
      /\ snd (run p u2f [])
         = map (callOf origin timeout) (apdus ++ [[0x80; 0xF2; 0x02; 0x00]])
      /\ frameP1 [0x80; 0xF2; 0x02; 0x00] = Some 0x02.
Proof.
  intros rawData n apdus Hne Hall.
  assert (Hsize : (0 < 8)%nat) by lia.
  assert (Hbyte : (8 < 256)%nat) by lia.
  assert (Hlen : List.length apdus = n)
    by apply chunkFrames_length.
  split; [|split; [|split; [|split; [|split]]]].
  - unfold Index.maxChunkSize. change 8 with (Z.of_nat 8).
    now apply chunkApdus_frames.
  - exact Hlen.
  - now apply chunkCount_divisible.
  - intros i Hi payload. unfold apdus.
    rewrite chunkFrames_nth by assumption.
    split; [reflexivity|]. split; reflexivity.
  - intros Hmod.
    destruct (last_piece_remainder 8 Hsize rawData Hmod)
      as (HN & Hpiece & Hrem).
    split; [exact HN|].
    cbv zeta in Hpiece, Hrem. unfold apdus, n.
    rewrite chunkFrames_nth by lia.
    unfold chunkFrame, Buf.length. now rewrite Hrem, Hpiece.
  - exists (Index.localCallback origin timeout apdus).
    split; [apply signData_localCallback|]. split; [|reflexivity].
    rewrite localCallback_success.
    + rewrite run_finalize_log. cbn [app]. now rewrite map_app.
    + intros E. pose proof (chunkCount_positive 8 Hsize rawData Hne).
      fold n in H. rewrite <- Hlen, E in H. cbn [List.length] in H. lia.
    + intros i Hi. apply Hall. now rewrite <- Hlen.
Qed.

Lemma signData_chunk_frames_witness :
  chunkApdus Index.maxChunkSize (Buf.fromHex "000102030405060708090a0b")
  = Some [[0x80; 0xF2; 0x00; 0x00; 8; 0; 1; 2; 3; 4; 5; 6; 7];
          [0x80; 0xF2; 0x01; 0x00; 4; 8; 9; 10; 11]].
Proof.
  apply (signData_chunk_frames
           "https://wallet.example" 30 "000102030405060708090a0b"
           (fun _ _ => answer [0x90; 0x00])).
  - discriminate.
  - intros i Hi. reflexivity.
Defined.

(** C1 as it is worded fails on the code: the start and continue flags
    are not in P2, which is 00 in every frame (the second chunk of a
    16-byte payload has P2 = 00, not 01, and the finalize frame has
    P2 = 00, not 02); and for the empty payload no finalize frame is
    sent at all. *)
Lemma signData_flags_not_in_P2 :
  let u2f : Transport := fun _ _ => answer [0x90; 0x00] in
  exists apdus,
    chunkApdus Index.maxChunkSize
               (Buf.fromHex "000102030405060708090a0b0c0d0e0f")
    = Some apdus
    /\ List.length apdus = 2%nat
    /\ frameP2 (nth 1 apdus []) = Some 0x00
    /\ frameP2 (nth 1 apdus []) <> Some 0x01
    /\ frameP2 Index.finalizeApdu = Some 0x00
    /\ frameP2 Index.finalizeApdu <> Some 0x02
    /\ Buf.fromHex "" = []
    /\ option_map (fun p => run p u2f [])
                  (Index.signData "https://wallet.example" 30 "")
       = Some (Rejected TypeError, []).
Proof.
  intros u2f.
  exists [[0x80; 0xF2; 0x00; 0x00; 8; 0; 1; 2; 3; 4; 5; 6; 7];
          [0x80; 0xF2; 0x01; 0x00; 8; 8; 9; 10; 11; 12; 13; 14; 15]].
  repeat split; try reflexivity; discriminate.
Qed.

(** ** The frames the client sends *)

Lemma Calls_bind_inv {A B : Type} (p : Promise A) (f : A -> Promise B)
      (c : Call) :
  Calls (bind p f) c -> Calls p c \/ exists a, Calls (f a) c.
Proof.
  induction p as [a|e|requests timeout k IH]; cbn [bind]; intros H.
  - right. now exists a.
  - inversion H.
  - inversion H; subst.
    + left. constructor.
    + destruct (IH _ H4) as [Hp|Hf].
      * left. econstructor. exact Hp.
      * now right.
Qed.

Lemma Calls_settled {A : Type} (s : Settled A) (c : Call) :
  ~ Calls (settled s) c.
Proof. destruct s; intros H; inversion H. Qed.

Lemma Calls_roundTrip {B : Type} (origin : string) (apdu : Buffer)
      (timeout : Z) (h : Buffer -> Promise B) (c : Call) :
  Calls (bind (Index.sendAPDU origin (Some apdu) timeout) h) c ->
  c = callOf origin timeout apdu \/ exists response, Calls (h response) c.
Proof.
  intros H. apply Calls_bind_inv in H. destruct H as [H|H]; [|now right].
  left. cbn [Index.sendAPDU] in H. inversion H; subst.
  - reflexivity.
  - now apply Calls_settled in H4.
Qed.

(** A handler that only settles makes no call. *)
Ltac no_calls :=
  let H := fresh "H" in
  intros H;
  repeat match type of H with
         | Calls (if ?b then _ else _) _ => destruct b
         end;
  inversion H.

Lemma getInfo_then_no_calls (response : Buffer) (c : Call) :
  ~ Calls (Index.getInfo_then response) c.
Proof.
  unfold Index.getInfo_then.
  destruct (Buf.get response 0), (Buf.get response 1); no_calls.
Qed.

Lemma getRandom_then_no_calls (length : Z) (response : Buffer) (c : Call) :
  ~ Calls (Index.getRandom_then length response) c.
Proof. unfold Index.getRandom_then. no_calls. Qed.

Lemma initWallet_then_no_calls (response : Buffer) (c : Call) :
  ~ Calls (Index.initWallet_then response) c.
Proof. unfold Index.initWallet_then. no_calls. Qed.

Lemma wipeoutWallet_then_no_calls (response : Buffer) (c : Call) :
  ~ Calls (Index.wipeoutWallet_then response) c.
Proof. unfold Index.wipeoutWallet_then. no_calls. Qed.

Lemma getPublicKey_then_no_calls (response : Buffer) (c : Call) :
  ~ Calls (Index.getPublicKey_then response) c.
Proof. unfold Index.getPublicKey_then. no_calls. Qed.

Lemma getPinTriesLeft_then_no_calls (response : Buffer) (c : Call) :
  ~ Calls (Index.getPinTriesLeft_then response) c.
Proof. unfold Index.getPinTriesLeft_then. no_calls. Qed.

Lemma finalize_then_no_calls (response : Buffer) (c : Call) :
  ~ Calls (Index.finalize_then response) c.
Proof. unfold Index.finalize_then. no_calls. Qed.

Lemma Calls_getPinTriesLeft (origin : string) (timeout : Z) (c : Call) :
  Calls (Index.getPinTriesLeft origin timeout) c ->
  c = callOf origin timeout [0x80; 0x22; 0x80; 0x00].
Proof.
  unfold Index.getPinTriesLeft. intros H.
  apply Calls_roundTrip in H. destruct H as [H|[response H]].
  - exact H.
  - now apply getPinTriesLeft_then_no_calls in H.
Qed.

Lemma Calls_verifyPin_then (origin : string) (timeout : Z)
      (response : Buffer) (c : Call) :
  Calls (Index.verifyPin_then origin timeout response) c ->
  c = callOf origin timeout [0x80; 0x22; 0x80; 0x00].
Proof.
  unfold Index.verifyPin_then. intros H.
  repeat match type of H with
         | Calls (if ?b then _ else _) _ => destruct b
         end; try (now inversion H).
  apply Calls_bind_inv in H. destruct H as [H|[triesLeft H]].
  - now apply Calls_getPinTriesLeft in H.
  - inversion H.
Qed.

Lemma Calls_finalize (origin : string) (timeout : Z) (c : Call) :
  Calls (Index.finalize origin timeout) c ->
  c = callOf origin timeout [0x80; 0xF2; 0x02; 0x00].
Proof.
  unfold Index.finalize. intros H.
  apply Calls_roundTrip in H. destruct H as [H|[response H]].
  - exact H.
  - now apply finalize_then_no_calls in H.
Qed.

Lemma Calls_localCallback (origin : string) (timeout : Z)
      (apdus : list Buffer) (c : Call) :
  Calls (Index.localCallback origin timeout apdus) c ->
  (exists apdu, In apdu apdus /\ c = callOf origin timeout apdu)
  \/ c = callOf origin timeout [0x80; 0xF2; 0x02; 0x00].
Proof.
  induction apdus as [|apdu rest IH]; cbn [Index.localCallback]; intros H.
  - cbn [Index.sendAPDU bind] in H. inversion H.
  - apply Calls_roundTrip in H. destruct H as [H|[response H]].
    + left. exists apdu. split; [now left|exact H].
    + destruct (chunk_then response); [inversion H|].
      destruct rest as [|next rest].
      * right. now apply Calls_finalize in H.
      * destruct (IH H) as [(a & Ha & Hc)|Hc]; [|now right].
        left. exists a. split; [now right|exact Hc].
Qed.

Lemma verifyPin_apdu_frame (pin : Buffer) :
  Buf.length pin < 256 ->
  Index.verifyPin_apdu pin = [0x80; 0x22; 0x00; 0x00; Buf.length pin] ++ pin.
Proof.
  intros Hlen. pose proof (length_nonneg pin) as Hpos.
  unfold Index.verifyPin_apdu.
  rewrite alloc_add, set_header by lia.
  replace (Buf.alloc (Buf.length pin))
    with (Buf.alloc (Buf.length pin - 0) ++ [])
    by (rewrite app_nil_r; f_equal; lia).
  change 5 with (Buf.length [128 mod 256; 34 mod 256; 0 mod 256; 0 mod 256;
                             Buf.length pin mod 256]) at 1.
  rewrite copy_into_alloc by lia.
  rewrite firstn_skipn_whole, app_nil_r.
  rewrite (Z.mod_small (Buf.length pin)) by lia.
  reflexivity.
Qed.

Lemma set_header6 (a b c d e f : Z) (rest : Buffer) :
  Buf.set (Buf.set (Buf.set (Buf.set (Buf.set (Buf.set
    (Buf.alloc 6 ++ rest) 0 a) 1 b) 2 c) 3 d) 4 e) 5 f
  = [a mod 256; b mod 256; c mod 256; d mod 256; e mod 256; f mod 256]
      ++ rest.
Proof. reflexivity. Qed.

Lemma initWallet_apdu_frame (privateKey pin : Buffer) :
  1 + Buf.length pin + Buf.length privateKey < 256 ->
  Index.initWallet_apdu privateKey pin
  = [0x80; 0x20; 0x00; 0x00; 1 + Buf.length pin + Buf.length privateKey]
      ++ ([Buf.length pin] ++ pin ++ privateKey).
Proof.
  intros Hlen.
  pose proof (length_nonneg pin) as Hpin.
  pose proof (length_nonneg privateKey) as Hkey.
  unfold Index.initWallet_apdu.
  replace (5 + 1 + Buf.length privateKey + Buf.length pin)
    with (6 + (Buf.length pin + Buf.length privateKey)) by lia.
  rewrite alloc_add, set_header6 by lia.
  rewrite alloc_add by lia.
  set (header := [128 mod 256; 32 mod 256; 0 mod 256; 0 mod 256;
                  (1 + Buf.length pin + Buf.length privateKey) mod 256;
                  Buf.length pin mod 256]).
  replace (Buf.alloc (Buf.length pin))
    with (Buf.alloc (Buf.length pin - 0)) by (f_equal; lia).
  change 6 with (Buf.length header) at 1.
  rewrite copy_into_alloc by lia.
  rewrite firstn_skipn_whole.
  replace (header ++ pin ++ Buf.alloc (Buf.length privateKey))
    with ((header ++ pin) ++ Buf.alloc (Buf.length privateKey - 0) ++ [])
    by (now rewrite Z.sub_0_r, app_nil_r, <- app_assoc).
  replace (6 + Buf.length pin) with (Buf.length (header ++ pin))
    by (unfold Buf.length, header; rewrite length_app;
        cbn [List.length]; lia).
  rewrite copy_into_alloc by lia.
  rewrite firstn_skipn_whole, app_nil_r, <- app_assoc.
  unfold header. rewrite !(Z.mod_small (Buf.length pin)) by lia.
  rewrite (Z.mod_small (1 + _ + _)) by lia. reflexivity.
Qed.

Lemma CommandFrame_counts (ins p1 p2 : Z) (payload : Buffer) :
  CommandFrame ([0x80; ins; p1; p2; Buf.length payload] ++ payload).
Proof. now exists ins, p1, p2, payload. Qed.

(** C7, as the code has it: every frame an operation of index.js sends
    starts with the class byte 0x80, the instruction and the two
    parameter bytes.  The frames of initWallet, wipeoutWallet, verifyPin
    and the sign chunks go on with a length byte equal to the payload byte
    count and the payload; the frames of getInfo, getPublicKey, the
    tries-left follow-up and the sign finalize step are the four header
    bytes alone; the frame of getRandom has as fifth byte the requested
    length, and no payload. *)
Theorem frames_of_operations (origin : string) (timeout : Z)
        (op : Operation) (c : Call) :
  CallsOf origin timeout op c ->
  exists frame,
    c = callOf origin timeout frame
    /\ match op with
       | OpGetInfo => frame = [0x80; 0xC4; 0x00; 0x00]
       | OpGetPublicKey => frame = [0x80; 0x40; 0x00; 0x00]
       | OpGetRandom length =>
           frame = [0x80; 0xC0; 0x00; 0x00; length mod 256]
       | OpInitWallet _ _ | OpWipeoutWallet => CommandFrame frame
       | OpVerifyPin _ =>
           CommandFrame frame \/ frame = [0x80; 0x22; 0x80; 0x00]
       | OpSignData _ =>
           CommandFrame frame \/ frame = [0x80; 0xF2; 0x02; 0x00]
       end
    /\ (CommandFrame frame \/ HeaderFrame frame \/ ExpectFrame frame).
Proof.
  assert (Hheader : forall ins p1 p2 : Z, HeaderFrame [128; ins; p1; p2])
    by (intros ins p1 p2; now exists ins, p1, p2).
  destruct op as [|length|privateKey pin| |pin| |dataToSign];
    cbn [CallsOf]; intros H.
  - unfold Index.getInfo in H. apply Calls_roundTrip in H.
    destruct H as [->|[r H]]; [|now apply getInfo_then_no_calls in H].
    eexists. split; [reflexivity|]. split; [reflexivity|].
    right. left. apply Hheader.
  - unfold Index.getRandom in H.
    destruct (_ || _); [inversion H|].
    apply Calls_roundTrip in H.
    destruct H as [->|[r H]]; [|now apply getRandom_then_no_calls in H].
    eexists. split; [reflexivity|]. split; [reflexivity|].
    right. right. now exists 192, 0, 0, (length mod 256).
  - unfold Index.initWallet in H.
    destruct (Z.eqb_spec (Buf.length (Buf.fromHex privateKey)) 32)
      as [Hkey|_]; [|inversion H]. cbn [negb] in H.
    destruct (Z.ltb_spec (Buf.length (Buf.fromUtf8 pin)) 4);
      [inversion H|].
    destruct (Z.gtb_spec (Buf.length (Buf.fromUtf8 pin)) 32);
      [inversion H|].
    cbn [orb] in H. apply Calls_roundTrip in H.
    destruct H as [->|[r H]]; [|now apply initWallet_then_no_calls in H].
    eexists. split; [reflexivity|].
    rewrite initWallet_apdu_frame by lia.
    assert (E : Buf.length ([Buf.length (Buf.fromUtf8 pin)]
                              ++ Buf.fromUtf8 pin ++ Buf.fromHex privateKey)
                = 1 + Buf.length (Buf.fromUtf8 pin)
                  + Buf.length (Buf.fromHex privateKey)).
    { unfold Buf.length. rewrite !length_app. cbn [List.length]. lia. }
    rewrite <- E.
    split; [|left]; apply CommandFrame_counts.
  - unfold Index.wipeoutWallet in H. apply Calls_roundTrip in H.
    destruct H as [->|[r H]]; [|now apply wipeoutWallet_then_no_calls in H].
    eexists. split; [reflexivity|].
    split; [|left]; exact (CommandFrame_counts 240 0 0 []).
  - unfold Index.verifyPin in H.
    destruct (Z.ltb_spec (Buf.length (Buf.fromUtf8 pin)) 4);
      [inversion H|].
    destruct (Z.gtb_spec (Buf.length (Buf.fromUtf8 pin)) 32);
      [inversion H|].
    cbn [orb] in H. apply Calls_roundTrip in H.
    destruct H as [->|[r H]].
    + eexists. split; [reflexivity|].
      rewrite verifyPin_apdu_frame by lia.
      split; [left|left]; apply CommandFrame_counts.
    + apply Calls_verifyPin_then in H. subst c.
      eexists. split; [reflexivity|]. split; [now right|].
      right. left. apply Hheader.
  - unfold Index.getPublicKey in H. apply Calls_roundTrip in H.
    destruct H as [->|[r H]]; [|now apply getPublicKey_then_no_calls in H].
    eexists. split; [reflexivity|]. split; [reflexivity|].
    right. left. apply Hheader.
  - destruct H as (p & Hp & H).
    rewrite signData_localCallback in Hp. injection Hp as <-.
    apply Calls_localCallback in H.
    destruct H as [(apdu & Hin & ->)| ->].
    + eexists. split; [reflexivity|].
      unfold chunkFrames in Hin. apply in_map_iff in Hin.
      destruct Hin as (i & <- & _). unfold chunkFrame.
      split; [left|left]; apply CommandFrame_counts.
    + eexists. split; [reflexivity|]. split; [now right|].
      right. left. apply Hheader.
Qed.

Lemma frames_of_operations_witness :
  exists frame,
    callOf "https://wallet.example" 30 [0x80; 0x22; 0x80; 0x00]
    = callOf "https://wallet.example" 30 frame
    /\ (CommandFrame frame \/ frame = [0x80; 0x22; 0x80; 0x00])
    /\ (CommandFrame frame \/ HeaderFrame frame \/ ExpectFrame frame).
Proof.
  apply (frames_of_operations "https://wallet.example" 30
                              (OpVerifyPin "1234")).
  cbn [CallsOf]. unfold Index.verifyPin.
  change (Buf.length (Buf.fromUtf8 "1234") <? 4) with false.
  change (Buf.length (Buf.fromUtf8 "1234") >? 32) with false.
  cbn [orb bind Index.sendAPDU].
  apply (Calls_later _ _ _ (answer [0x69; 0x82])).
  change (Index.sendAPDU_settle (answer [0x69; 0x82]))
    with (Fulfilled [0x69; 0x82]).
  cbn [settled bind].
  change (Index.verifyPin_then "https://wallet.example" 30 [0x69; 0x82])
    with (bind (Index.getPinTriesLeft "https://wallet.example" 30)
               Index.invalidPin).
  unfold Index.getPinTriesLeft. cbn [bind Index.sendAPDU].
  apply Calls_here.
Defined.

(** C7 as it is worded fails on the code: the frame of getInfo is the
    four bytes 80 C4 00 00, with no length byte, and the frame of
    getRandom for 16 bytes has the length byte 16 and no payload. *)
Lemma frames_without_length_invariant :
  CallsOf "https://wallet.example" 30 OpGetInfo
          (callOf "https://wallet.example" 30 [0x80; 0xC4; 0x00; 0x00])
  /\ ~ CommandFrame [0x80; 0xC4; 0x00; 0x00]
  /\ CallsOf "https://wallet.example" 30 (OpGetRandom 16)
             (callOf "https://wallet.example" 30
                     [0x80; 0xC0; 0x00; 0x00; 16])
  /\ ~ CommandFrame [0x80; 0xC0; 0x00; 0x00; 16].
Proof.
  repeat split.
  - apply Calls_here.
  - intros (ins & p1 & p2 & payload & H). discriminate.
  - apply Calls_here.
  - intros (ins & p1 & p2 & payload & H).
    injection H as _ _ _ Hlen Hpayload. subst payload. discriminate.
Qed.

(** ** The finalize step of the confirming variant *)

Lemma confirm_finalize_then_status (sw1 sw2 : Z) :
  Confirm.finalize_then [sw1; sw2]
  = if (sw1 =? 0x90) && (sw2 =? 0x00) then Resolve []
    else if (sw1 =? 0x64) || (sw2 =? 0x01) then Reject ConfirmationExpired
    else Reject ProtocolError.
Proof.
  unfold Confirm.finalize_then.
  rewrite (statusIsNot_app [] sw1 sw2).
  change (Buf.slice [sw1; sw2] 0 (Buf.length [sw1; sw2] - 2)) with (@nil Z).
  change (Buf.length [sw1; sw2] - 2) with 0.
  change (Buf.length [sw1; sw2] - 1) with 1.
  change (Buf.get [sw1; sw2] 0) with (Some sw1).
  change (Buf.get [sw1; sw2] 1) with (Some sw2).
  unfold strict_eq, strict_neq. rewrite !negb_involutive.
  now destruct (sw1 =? 144), (sw2 =? 0).
Qed.

(** C3, on the code of the confirming variant: the finalize step tests
    [sw1 === 0x64 || sw2 === 0x01], so it reports the expired
    confirmation for every non-success status whose high byte is 0x64 or
    whose low byte is 0x01, not for 0x6401 alone: the statuses 0x6400 and
    0x6D01 are reported as an expired confirmation as well, also at the
    end of a whole signData exchange. *)
Theorem confirm_finalize_expired_on_either_byte :
  let device : Transport :=
    fun log _ => match log with
                 | [] => answer [0x01; 0x00; 0x00; 0x00; 0x00; 0x90; 0x00]
                 | _ => answer [0x01; 0x00; 0x00; 0x00; 0x00; 0x64; 0x00]
                 end in
  (forall sw1 sw2,
      Confirm.finalize_then [sw1; sw2] = Reject ConfirmationExpired
      <-> (sw1 <> 0x90 \/ sw2 <> 0x00) /\ (sw1 = 0x64 \/ sw2 = 0x01))
  /\ Confirm.finalize_then [0x64; 0x00] = Reject ConfirmationExpired
  /\ Confirm.finalize_then [0x6D; 0x01] = Reject ConfirmationExpired
  /\ option_map (fun p => fst (run p device []))
                (Confirm.signData "https://wallet.example" 60 "0102")
     = Some (Rejected ConfirmationExpired).
Proof.
  intros device. split; [|repeat split; reflexivity].
  intros sw1 sw2. rewrite confirm_finalize_then_status.
  destruct (Z.eqb_spec sw1 144), (Z.eqb_spec sw2 0),
    (Z.eqb_spec sw1 100), (Z.eqb_spec sw2 1);
    cbn [andb orb]; split; try discriminate; try reflexivity;
    try (intros [[?|?] [?|?]]; congruence);
    intros _; (split; [|auto]); auto.
Qed.

(** * Further properties of the code *)

(** ** URL-safe texts *)

Section UrlSafeTexts.

Local Open Scope string_scope.

Lemma stripPadding_lastChar (s : string) :
  lastChar (stripPadding s) <> Some "="%char.
Proof.
  induction s as [|x s IH]; cbn [stripPadding]; [discriminate|].
  destruct (stripPadding s) as [|y r] eqn:E.
  - destruct (Ascii.eqb_spec x "=") as [->|Hx]; [discriminate|].
    cbn [lastChar]. now intros [= ->].
  - exact IH.
Qed.

Lemma stripPadding_AllChars (P : ascii -> Prop) (s : string) :
  AllChars P s -> AllChars P (stripPadding s).
Proof.
  induction s as [|x s IH]; cbn [stripPadding AllChars]; [trivial|].
  intros [Hx Hs]. specialize (IH Hs).
  destruct (stripPadding s) as [|y r].
  - destruct (Ascii.eqb x "="); cbn [AllChars]; auto.
  - cbn [AllChars] in *. auto.
Qed.

Lemma stripPadding_app_lastChar (s p : string) :
  lastChar s <> Some "="%char -> AllChars isPad p ->
  stripPadding (s ++ p) = s.
Proof.
  intros Hlast Hp. induction s as [|x s IH]; cbn [append stripPadding].
  - now apply stripPadding_pad.
  - destruct s as [|y s].
    + cbn [append]. rewrite (stripPadding_pad p Hp).
      destruct (Ascii.eqb_spec x "=") as [->|_]; [now elim Hlast|].
      reflexivity.
    + rewrite IH by exact Hlast. reflexivity.
Qed.

Lemma webSafeChar_isUrlSafe (c : ascii) : isUrlSafe (webSafeChar c).
Proof.
  unfold isUrlSafe, webSafeChar.
  destruct (Ascii.eqb_spec c "+") as [->|Hplus]; cbn.
  - split; discriminate.
  - destruct (Ascii.eqb_spec c "/") as [->|Hslash].
    + split; discriminate.
    + now split.
Qed.

Lemma webSafeChar_normalChar (c : ascii) :
  isUrlSafe c -> webSafeChar (normalChar c) = c.
Proof.
  intros [Hplus Hslash]. unfold normalChar.
  destruct (Ascii.eqb_spec c "-") as [->|Hminus]; [reflexivity|].
  destruct (Ascii.eqb_spec c "_") as [->|Hunder]; [reflexivity|].
  unfold webSafeChar.
  destruct (Ascii.eqb_spec c "+") as [->|_]; [now elim Hplus|].
  destruct (Ascii.eqb_spec c "/") as [->|_]; [now elim Hslash|].
  reflexivity.
Qed.

Lemma webSafe64_chars (s : string) :
  webSafe64 s = stripPadding (mapString webSafeChar s).
Proof.
  unfold webSafe64. rewrite replaceAll_compose. reflexivity.
Qed.

(** X1: the text webSafe64 returns is safe in a URL, whatever text it is
    given: it has no [+] and no [/], and it does not end in [=]. *)
Theorem webSafe64_is_url_safe (s : string) :
  AllChars isUrlSafe (webSafe64 s)
  /\ lastChar (webSafe64 s) <> Some "="%char.
Proof.
  rewrite webSafe64_chars. split.
  - apply stripPadding_AllChars, AllChars_map.
    induction s as [|x s IH]; cbn [AllChars]; [trivial|].
    split; [apply webSafeChar_isUrlSafe|exact IH].
  - apply stripPadding_lastChar.
Qed.

(** X2: on receive then send, nothing changes: normal64 followed by
    webSafe64 gives back every text that has no [+], no [/] and no
    trailing [=]; so webSafe64 undoes normal64 on every text webSafe64
    itself produced. *)
Theorem webSafe64_normal64_roundtrip (s : string) :
  AllChars isUrlSafe s -> lastChar s <> Some "="%char ->
  webSafe64 (normal64 s) = s
  /\ forall t, s = webSafe64 t -> webSafe64 (normal64 (webSafe64 t)) = s.
Proof.
  intros Hsafe Hlast.
  assert (Hback : webSafe64 (normal64 s) = s).
  { rewrite webSafe64_chars. unfold normal64.
    rewrite replaceAll_compose.
    change (mapString _ s) with (mapString normalChar s).
    rewrite mapString_app.
    rewrite (mapString_id_on webSafeChar isPad (substring _ _ _));
      [ | intros c ->; reflexivity | apply padding_isPad ].
    assert (Hid : mapString webSafeChar (mapString normalChar s) = s).
    { clear Hlast. induction s as [|x s IH]; cbn [mapString]; [reflexivity|].
      destruct Hsafe as [Hx Hs].
      now rewrite webSafeChar_normalChar, IH. }
    rewrite Hid.
    apply stripPadding_app_lastChar; [exact Hlast|apply padding_isPad]. }
  split; [exact Hback|]. intros t <-. exact Hback.
Qed.

Lemma webSafe64_normal64_roundtrip_witness :
  webSafe64 (normal64 "-__-AQ") = "-__-AQ".
Proof.
  apply (webSafe64_normal64_roundtrip "-__-AQ").
  - cbn [AllChars]. unfold isUrlSafe. repeat split; discriminate.
  - discriminate.
Defined.

End UrlSafeTexts.

(** ** Frames as byte buffers *)

Lemma hexDigit_range (c : ascii) (x : Z) :
  Buf.hexDigit c = Some x -> 0 <= x < 16.
Proof.
  unfold Buf.hexDigit.
  repeat match goal with
         | |- context [if ?b then _ else _] => destruct b eqn:?
         end; intros [= <-];
    repeat match goal with
           | H : (_ && _)%bool = true |- _ =>
               apply andb_true_iff in H; destruct H
           | H : (_ <=? _) = true |- _ => apply Z.leb_le in H
           end; lia.
Qed.

Lemma fromHex_is_buffer (s : string) : is_buffer (Buf.fromHex s).
Proof.
  revert s. fix IH 1. intros [|a [|b rest]]; try constructor.
  cbn [Buf.fromHex].
  destruct (Buf.hexDigit a) as [x|] eqn:Ha; [|constructor].
  destruct (Buf.hexDigit b) as [y|] eqn:Hb; [|constructor].
  apply hexDigit_range in Ha, Hb.
  constructor; [unfold is_byte; lia|apply IH].
Qed.

Lemma fromUtf8_is_buffer (s : string) : is_buffer (Buf.fromUtf8 s).
Proof.
  induction s as [|c s IH]; cbn [Buf.fromUtf8]; constructor; [|exact IH].
  unfold is_byte. pose proof (nat_ascii_bounded c). lia.
Qed.

Lemma is_buffer_app (a b : Buffer) :
  is_buffer a -> is_buffer b -> is_buffer (a ++ b).
Proof. intros Ha Hb. apply Forall_app. now split. Qed.

Lemma is_buffer_cut (n : nat) (buf : Buffer) :
  is_buffer buf -> is_buffer (firstn n buf) /\ is_buffer (skipn n buf).
Proof.
  intros H. rewrite <- (firstn_skipn n buf) in H.
  now apply Forall_app in H.
Qed.

Lemma piece_is_buffer (size : nat) (rawData : Buffer) (i : nat) :
  is_buffer rawData -> is_buffer (piece size rawData i).
Proof.
  intros H. unfold piece.
  apply is_buffer_cut. now apply is_buffer_cut.
Qed.

Lemma piece_length_bound (size : nat) (rawData : Buffer) (i : nat) :
  0 <= Buf.length (piece size rawData i) <= Z.of_nat size.
Proof. unfold Buf.length. rewrite piece_length. lia. Qed.

(** The frame behind every call of an operation of index.js. *)
Lemma CallsOf_frame (origin : string) (timeout : Z) (op : Operation)
      (c : Call) :
  CallsOf origin timeout op c ->
  exists frame,
    c = callOf origin timeout frame
    /\ match op with
       | OpGetInfo => frame = [0x80; 0xC4; 0x00; 0x00]
       | OpGetRandom length =>
           frame = [0x80; 0xC0; 0x00; 0x00; length mod 256]
       | OpInitWallet privateKey pin =>
           Buf.length (Buf.fromHex privateKey) = 32
           /\ 4 <= Buf.length (Buf.fromUtf8 pin) <= 32
           /\ frame
              = [0x80; 0x20; 0x00; 0x00;
                 1 + Buf.length (Buf.fromUtf8 pin)
                 + Buf.length (Buf.fromHex privateKey)]
                  ++ [Buf.length (Buf.fromUtf8 pin)]
                  ++ Buf.fromUtf8 pin ++ Buf.fromHex privateKey
       | OpWipeoutWallet => frame = [0x80; 0xF0; 0x00; 0x00; 0x00]
       | OpVerifyPin pin =>
           4 <= Buf.length (Buf.fromUtf8 pin) <= 32
           /\ (frame = [0x80; 0x22; 0x00; 0x00;
                        Buf.length (Buf.fromUtf8 pin)] ++ Buf.fromUtf8 pin
               \/ frame = [0x80; 0x22; 0x80; 0x00])
       | OpGetPublicKey => frame = [0x80; 0x40; 0x00; 0x00]
       | OpSignData dataToSign =>
           (exists i, frame = chunkFrame 8 (Buf.fromHex dataToSign) i)
           \/ frame = [0x80; 0xF2; 0x02; 0x00]
       end.
Proof.
  destruct op as [|length|privateKey pin| |pin| |dataToSign];
    cbn [CallsOf]; intros H.
  - unfold Index.getInfo in H. apply Calls_roundTrip in H.
    destruct H as [->|[r H]]; [|now apply getInfo_then_no_calls in H].
    eexists. split; reflexivity.
  - unfold Index.getRandom in H.
    destruct (_ || _); [inversion H|].
    apply Calls_roundTrip in H.
    destruct H as [->|[r H]]; [|now apply getRandom_then_no_calls in H].
    eexists. split; reflexivity.
  - unfold Index.initWallet in H.
    destruct (Z.eqb_spec (Buf.length (Buf.fromHex privateKey)) 32)
      as [Hkey|_]; [|inversion H]. cbn [negb] in H.
    destruct (Z.ltb_spec (Buf.length (Buf.fromUtf8 pin)) 4);
      [inversion H|].
    destruct (Z.gtb_spec (Buf.length (Buf.fromUtf8 pin)) 32);
      [inversion H|].
    cbn [orb] in H. apply Calls_roundTrip in H.
    destruct H as [->|[r H]]; [|now apply initWallet_then_no_calls in H].
    eexists. split; [reflexivity|].
    rewrite initWallet_apdu_frame by lia.
    split; [exact Hkey|]. split; [lia|reflexivity].
  - unfold Index.wipeoutWallet in H. apply Calls_roundTrip in H.
    destruct H as [->|[r H]]; [|now apply wipeoutWallet_then_no_calls in H].
    eexists. split; reflexivity.
  - unfold Index.verifyPin in H.
    destruct (Z.ltb_spec (Buf.length (Buf.fromUtf8 pin)) 4);
      [inversion H|].
    destruct (Z.gtb_spec (Buf.length (Buf.fromUtf8 pin)) 32);
      [inversion H|].
    cbn [orb] in H. apply Calls_roundTrip in H.
    destruct H as [->|[r H]].
    + eexists. split; [reflexivity|].
      rewrite verifyPin_apdu_frame by lia.
      split; [lia|now left].
    + apply Calls_verifyPin_then in H. subst c.
      eexists. split; [reflexivity|]. split; [lia|now right].
  - unfold Index.getPublicKey in H. apply Calls_roundTrip in H.
    destruct H as [->|[r H]]; [|now apply getPublicKey_then_no_calls in H].
    eexists. split; reflexivity.
  - destruct H as (p & Hp & H).
    rewrite signData_localCallback in Hp. injection Hp as <-.
    apply Calls_localCallback in H.
    destruct H as [(apdu & Hin & ->)| ->].
    + eexists. split; [reflexivity|]. left.
      unfold chunkFrames in Hin. apply in_map_iff in Hin.
      destruct Hin as (i & <- & _). now exists i.
    + eexists. split; [reflexivity|]. now right.
Qed.

Lemma magic_is_buffer (apdu : Buffer) :
  is_buffer apdu -> is_buffer (Buf.concat Index.xrpMagic apdu).
Proof.
  intros H. unfold Buf.concat, Index.xrpMagic.
  apply is_buffer_app; [apply fromHex_is_buffer|exact H].
Qed.

(** X3: the tunnel loses nothing: the key handle of the request built
    for a frame decodes, after normal64, to the magic 88 77 66 55 44 33 22
    11 followed by the frame, and two different frames never give the
    same request. *)
Theorem keyHandle_carries_frame (origin : string) (apdu : Buffer) :
  is_buffer apdu ->
  fromBase64 (normal64 (keyHandle (Index.signRequest origin apdu)))
  = [0x88; 0x77; 0x66; 0x55; 0x44; 0x33; 0x22; 0x11] ++ apdu
  /\ forall apdu', is_buffer apdu' ->
                   Index.signRequest origin apdu'
                   = Index.signRequest origin apdu ->
                   apdu' = apdu.
Proof.
  intros Hapdu.
  assert (Hdecode : forall a, is_buffer a ->
             fromBase64 (normal64 (keyHandle (Index.signRequest origin a)))
             = [136; 119; 102; 85; 68; 51; 34; 17] ++ a).
  { intros a Ha. cbn [Index.signRequest keyHandle].
    unfold toBase64, fromBase64.
    rewrite normal64_webSafe64_encode, decode_encode
      by now apply magic_is_buffer.
    reflexivity. }
  split; [now apply Hdecode|].
  intros apdu' Hapdu' Heq.
  pose proof (Hdecode apdu' Hapdu') as H'.
  rewrite Heq, Hdecode in H' by assumption.
  now apply app_inv_head in H'.
Qed.

Lemma keyHandle_carries_frame_witness :
  fromBase64 (normal64 (keyHandle (Index.signRequest "https://wallet.example"
                                     [0x80; 0xC4; 0x00; 0x00])))
  = [0x88; 0x77; 0x66; 0x55; 0x44; 0x33; 0x22; 0x11; 0x80; 0xC4; 0x00; 0x00].
Proof.
  apply (keyHandle_carries_frame "https://wallet.example"
                                 [0x80; 0xC4; 0x00; 0x00]).
  repeat constructor; unfold is_byte; lia.
Defined.

(** X4: whatever the arguments and the transport, every frame an
    operation of index.js sends is a sequence of bytes, at most 70 of
    them, that starts with the class byte 0x80, and the device reads it
    back from the key handle behind the magic. *)
Theorem frames_are_byte_buffers (origin : string) (timeout : Z)
        (op : Operation) (c : Call) :
  CallsOf origin timeout op c ->
  exists frame rest request,
    c = ([request], timeout)
    /\ frame = 0x80 :: rest
    /\ is_buffer frame
    /\ Buf.length frame <= 70
    /\ fromBase64 (normal64 (keyHandle request))
       = [0x88; 0x77; 0x66; 0x55; 0x44; 0x33; 0x22; 0x11] ++ frame.
Proof.
  intros H. apply CallsOf_frame in H. destruct H as (frame & -> & Hframe).
  assert (Hgoal : forall rest,
             frame = 128 :: rest -> is_buffer frame ->
             Buf.length frame <= 70 ->
             exists frame' rest' request,
               callOf origin timeout frame = ([request], timeout)
               /\ frame' = 128 :: rest'
               /\ is_buffer frame'
               /\ Buf.length frame' <= 70
               /\ fromBase64 (normal64 (keyHandle request))
                  = [136; 119; 102; 85; 68; 51; 34; 17] ++ frame').
  { intros rest Hrest Hbuf Hlen.
    exists frame, rest, (Index.signRequest origin frame).
    repeat split; try assumption.
    cbn [Index.signRequest keyHandle]. unfold toBase64, fromBase64.
    rewrite normal64_webSafe64_encode, decode_encode
      by now apply magic_is_buffer.
    reflexivity. }
  assert (Hbytes : forall l, Forall is_byte l -> is_buffer l)
    by (intros l Hl; exact Hl).
  destruct op as [|length|privateKey pin| |pin| |dataToSign].
  - subst frame. eapply Hgoal; [reflexivity| |unfold Buf.length; simpl; lia].
    repeat constructor; unfold is_byte; lia.
  - subst frame. eapply Hgoal; [reflexivity| |unfold Buf.length; simpl; lia].
    pose proof (Z.mod_pos_bound length 256).
    repeat constructor; unfold is_byte; lia.
  - destruct Hframe as (Hkey & Hpin & ->).
    pose proof (fromUtf8_is_buffer pin) as Hb1.
    pose proof (fromHex_is_buffer privateKey) as Hb2.
    eapply Hgoal; [reflexivity| |].
    + apply is_buffer_app;
        [repeat constructor; unfold is_byte; lia|].
      apply is_buffer_app;
        [repeat constructor; unfold is_byte; lia|].
      now apply is_buffer_app.
    + unfold Buf.length in *. cbn [List.length app].
        rewrite ?length_app. cbn [List.length]. lia.
  - subst frame. eapply Hgoal; [reflexivity| |unfold Buf.length; simpl; lia].
    repeat constructor; unfold is_byte; lia.
  - destruct Hframe as (Hpin & [-> | ->]).
    + pose proof (fromUtf8_is_buffer pin) as Hb1.
      eapply Hgoal; [reflexivity| |].
      * apply is_buffer_app; [|exact Hb1].
        repeat constructor; unfold is_byte; lia.
      * unfold Buf.length in *. cbn [List.length app].
        rewrite ?length_app. cbn [List.length]. lia.
    + eapply Hgoal; [reflexivity| |unfold Buf.length; simpl; lia].
      repeat constructor; unfold is_byte; lia.
  - subst frame. eapply Hgoal; [reflexivity| |unfold Buf.length; simpl; lia].
    repeat constructor; unfold is_byte; lia.
  - destruct Hframe as [[i ->] | ->].
    + pose proof (piece_length_bound 8 (Buf.fromHex dataToSign) i) as Hp.
      pose proof (piece_is_buffer 8 (Buf.fromHex dataToSign) i
                                  (fromHex_is_buffer dataToSign)) as Hb.
      eapply Hgoal; unfold chunkFrame; [reflexivity| |].
      * apply is_buffer_app; [|exact Hb].
        destruct (Nat.eqb i 0); repeat constructor; unfold is_byte; lia.
      * unfold Buf.length in *. cbn [List.length app].
        rewrite ?length_app. cbn [List.length]. lia.
    + eapply Hgoal; [reflexivity| |unfold Buf.length; simpl; lia].
      repeat constructor; unfold is_byte; lia.
Qed.

Lemma frames_are_byte_buffers_witness :
  exists frame rest request,
    callOf "https://wallet.example" 30 [0x80; 0xF0; 0x00; 0x00; 0x00]
    = ([request], 30)
    /\ frame = 0x80 :: rest
    /\ is_buffer frame
    /\ Buf.length frame <= 70
    /\ fromBase64 (normal64 (keyHandle request))
       = [0x88; 0x77; 0x66; 0x55; 0x44; 0x33; 0x22; 0x11] ++ frame.
Proof.
  apply (frames_are_byte_buffers "https://wallet.example" 30
                                 OpWipeoutWallet).
  apply Calls_here.
Defined.

(** ** Status classification of the single-frame operations *)

Lemma wrong_length_response (a b c : Z) (rest : Buffer) :
  (Buf.length (a :: b :: c :: rest) =? 2) = false.
Proof. unfold Buf.length. cbn [List.length]. apply Z.eqb_neq. lia. Qed.

(** Reads a two-byte response. *)
Ltac two_byte_response a b :=
  change (Buf.length [a; b]) with 2;
  change (Buf.get [a; b] 0) with (Some a);
  change (Buf.get [a; b] 1) with (Some b);
  unfold strict_eq, strict_neq;
  cbn [Z.eqb Pos.eqb negb].

Ltac split_response r a b :=
  let c := fresh "c" in
  let rest := fresh "rest" in
  destruct r as [|a [|b [|c rest]]];
  [ | | two_byte_response a b | rewrite ?wrong_length_response ].

Lemma statusIs_negb (response : Buffer) (sw1 sw2 : Z) :
  statusIs response sw1 sw2 = negb (statusIsNot response sw1 sw2).
Proof.
  unfold statusIs, statusIsNot, strict_eq. now rewrite negb_orb.
Qed.

Lemma statusIs_true (response : Buffer) (sw1 sw2 : Z) :
  statusIs response sw1 sw2 = true <-> HasStatus response sw1 sw2.
Proof.
  rewrite statusIs_negb, negb_true_iff. apply statusIsNot_false.
Qed.

Lemma HasStatus_unique (response : Buffer) (a b a' b' : Z) :
  HasStatus response a b -> HasStatus response a' b' -> a = a' /\ b = b'.
Proof.
  intros [p ->] [p' H].
  apply (f_equal (@rev Z)) in H. rewrite !rev_app_distr in H.
  cbn [rev app] in H. now injection H as -> ->.
Qed.

Lemma initWallet_then_cases (response : Buffer) :
  (response = [0x90; 0x00] /\ Index.initWallet_then response = Resolve tt)
  \/ (response = [0x6d; 0x00]
      /\ Index.initWallet_then response
         = Reject (Error "Wallet already initialized."))
  \/ (response <> [0x90; 0x00] /\ response <> [0x6d; 0x00]
      /\ Index.initWallet_then response = Reject ProtocolError).
Proof.
  unfold Index.initWallet_then. split_response response a b.
  - right. right. repeat split; discriminate.
  - right. right. repeat split; discriminate.
  - destruct (Z.eqb_spec a 144) as [->|Ha], (Z.eqb_spec b 0) as [->|Hb];
      cbn [negb orb andb];
      try (destruct (Z.eqb_spec a 109) as [->|Ha']; cbn [negb andb]);
      try (left; split; reflexivity);
      try (right; left; split; reflexivity);
      right; right; repeat split; congruence.
  - right. right. repeat split; discriminate.
Qed.

Lemma wipeoutWallet_then_cases (response : Buffer) :
  (response = [0x90; 0x00] /\ Index.wipeoutWallet_then response = Resolve tt)
  \/ (response = [0x6d; 0x00]
      /\ Index.wipeoutWallet_then response = Reject WalletNotInitialized)
  \/ (response <> [0x90; 0x00] /\ response <> [0x6d; 0x00]
      /\ Index.wipeoutWallet_then response = Reject ProtocolError).
Proof.
  unfold Index.wipeoutWallet_then. split_response response a b.
  - right. right. repeat split; discriminate.
  - right. right. repeat split; discriminate.
  - destruct (Z.eqb_spec a 144) as [->|Ha], (Z.eqb_spec b 0) as [->|Hb];
      cbn [negb orb andb];
      try (destruct (Z.eqb_spec a 109) as [->|Ha']; cbn [negb andb]);
      try (left; split; reflexivity);
      try (right; left; split; reflexivity);
      right; right; repeat split; congruence.
  - right. right. repeat split; discriminate.
Qed.

(** X5: getRandom makes no transport call exactly when the length is 0
    or above 128, and then rejects with the invalid-length error; for
    every other length it makes exactly one call, with the frame
    80 C0 00 00 followed by the length as a byte. *)
Theorem getRandom_call_or_reject (origin : string) (timeout length : Z)
        (u2f : Transport) :
  (snd (run (Index.getRandom origin timeout length) u2f []) = []
   <-> length = 0 \/ 128 < length)
  /\ (length = 0 \/ 128 < length ->
      fst (run (Index.getRandom origin timeout length) u2f [])
      = Rejected InvalidLength)
  /\ (~ (length = 0 \/ 128 < length) ->
      snd (run (Index.getRandom origin timeout length) u2f [])
      = [callOf origin timeout [0x80; 0xC0; 0x00; 0x00; length mod 256]]).
Proof.
  unfold Index.getRandom.
  destruct (Z.eqb_spec length 0) as [E|E];
    [repeat split; try reflexivity; tauto|].
  destruct (Z.gtb_spec length 128) as [G|G];
    [repeat split; try reflexivity; intros; lia|].
  cbn [orb]. rewrite run_roundTrip, getRandom_apdu_frame.
  assert (Hlog : snd (match Index.sendAPDU_settle
                              (u2f [] (callOf origin timeout
                                         [128; 192; 0; 0; length mod 256])) with
                      | Fulfilled response =>
                          run (Index.getRandom_then length response) u2f
                              ([] ++ [callOf origin timeout
                                        [128; 192; 0; 0; length mod 256]])
                      | Rejected e =>
                          (Rejected e,
                           [] ++ [callOf origin timeout
                                    [128; 192; 0; 0; length mod 256]])
                      end)
                 = [callOf origin timeout [128; 192; 0; 0; length mod 256]]).
  { destruct (Index.sendAPDU_settle _) as [response|e]; [|reflexivity].
    unfold Index.getRandom_then.
    destruct (statusIsNot response 144 0); [reflexivity|].
    destruct (negb _); reflexivity. }
  rewrite Hlog. repeat split; try discriminate; intros; lia.
Qed.

Lemma getRandom_in_range_witness :
  fst (run (Index.getRandom "https://wallet.example" 30 4)
           (fun _ _ => answer [0xde; 0xad; 0xbe; 0xef; 0x90; 0x00]) [])
  = Fulfilled [0xde; 0xad; 0xbe; 0xef].
Proof.
  refine (proj1 (getRandom_in_range
                   "https://wallet.example" 30 4
                   (fun _ _ => answer [0xde; 0xad; 0xbe; 0xef; 0x90; 0x00])
                   [0xde; 0xad; 0xbe; 0xef; 0x90; 0x00] _ _)
                [0xde; 0xad; 0xbe; 0xef] _ _).
  - lia.
  - reflexivity.
  - reflexivity.
  - reflexivity.
Defined.

(** X7: initWallet checks its arguments before the transport: it makes
    no call exactly when the key is not 32 bytes of hex or the PIN is not
    4 to 32 bytes; the key is checked first. *)
Theorem initWallet_validates_arguments (origin : string) (timeout : Z)
        (privateKey pin : string) (u2f : Transport) :
  let result := run (Index.initWallet origin timeout privateKey pin) u2f [] in
  let keyLength := Buf.length (Buf.fromHex privateKey) in
  let pinLength := Buf.length (Buf.fromUtf8 pin) in
  (snd result = [] <-> keyLength <> 32 \/ pinLength < 4 \/ 32 < pinLength)
  /\ (keyLength <> 32 ->
      fst result = Rejected (Error "Invalid private key length."))
  /\ (keyLength = 32 -> pinLength < 4 \/ 32 < pinLength ->
      fst result = Rejected (Error "Invalid pin length.")).
Proof.
  intros result keyLength pinLength. unfold result, Index.initWallet.
  fold keyLength pinLength.
  destruct (Z.eqb_spec keyLength 32) as [Hkey|Hkey]; cbn [negb];
    [|repeat split; try reflexivity; tauto].
  destruct (Z.ltb_spec pinLength 4);
    [repeat split; try reflexivity; intros; lia|].
  destruct (Z.gtb_spec pinLength 32);
    [repeat split; try reflexivity; intros; lia|].
  cbn [orb]. rewrite run_roundTrip.
  destruct (Index.sendAPDU_settle _) as [response|e].
  - destruct (initWallet_then_cases response)
      as [[_ ->]|[[_ ->]|(_ & _ & ->)]];
      cbn [run snd app]; repeat split; try discriminate; intros; lia.
  - cbn [snd app]. repeat split; try discriminate; intros; lia.
Qed.

(** X8: with a 32-byte key and a PIN of 4 to 32 bytes, initWallet sends
    the one frame 80 20 00 00 Lc, the PIN length, the PIN, the key, and
    settles by the response: 90 00 resolves, 6D 00 rejects with the
    already-initialized error, any other response with the protocol error,
    and a failure of the round trip with its own error. *)
Theorem initWallet_outcome (origin : string) (timeout : Z)
        (privateKey pin : string) (u2f : Transport) :
  let key := Buf.fromHex privateKey in
  let code := Buf.fromUtf8 pin in
  let frame := [0x80; 0x20; 0x00; 0x00; 33 + Buf.length code]
                 ++ [Buf.length code] ++ code ++ key in
  let answered := Index.sendAPDU_settle (u2f [] (callOf origin timeout frame)) in
  let result := run (Index.initWallet origin timeout privateKey pin) u2f [] in
  Buf.length key = 32 -> 4 <= Buf.length code <= 32 ->
  snd result = [callOf origin timeout frame]
  /\ (forall e, answered = Rejected e -> fst result = Rejected e)
  /\ (answered = Fulfilled [0x90; 0x00] -> fst result = Fulfilled tt)
  /\ (answered = Fulfilled [0x6d; 0x00] ->
      fst result = Rejected (Error "Wallet already initialized."))
  /\ (forall response,
         answered = Fulfilled response ->
         response <> [0x90; 0x00] -> response <> [0x6d; 0x00] ->
         fst result = Rejected ProtocolError).
Proof.
  intros key code frame answered result Hkey Hpin.
  assert (Hrun : result
                 = match answered with
                   | Fulfilled response =>
                       run (Index.initWallet_then response) u2f
                           [callOf origin timeout frame]
                   | Rejected e => (Rejected e, [callOf origin timeout frame])
                   end).
  { unfold result, Index.initWallet. fold key code.
    destruct (Z.eqb_spec (Buf.length key) 32); [|contradiction].
    destruct (Z.ltb_spec (Buf.length code) 4); [lia|].
    destruct (Z.gtb_spec (Buf.length code) 32); [lia|].
    cbn [negb orb]. rewrite run_roundTrip.
    rewrite initWallet_apdu_frame by lia.
    replace (1 + Buf.length code + Buf.length key)
      with (33 + Buf.length code) by lia.
    reflexivity. }
  rewrite Hrun. clear Hrun.
  destruct answered as [response|e].
  - destruct (initWallet_then_cases response)
      as [[-> ->]|[[-> ->]|(Hok & Hinit & ->)]];
      cbn [run fst snd]; repeat split; try discriminate; try congruence;
      intros r [= <-]; congruence.
  - cbn [fst snd]. repeat split; try discriminate. now intros e' [= ->].
Qed.

Lemma initWallet_outcome_witness :
  fst (run (Index.initWallet "https://wallet.example" 30
              "000102030405060708090a0b0c0d0e0f101112131415161718191a1b1c1d1e1f"
              "1234")
           (fun _ _ => answer [0x6d; 0x00]) [])
  = Rejected (Error "Wallet already initialized.").
Proof.
  refine (proj1 (proj2 (proj2 (proj2
            (initWallet_outcome
               "https://wallet.example" 30
               "000102030405060708090a0b0c0d0e0f101112131415161718191a1b1c1d1e1f"
               "1234" (fun _ _ => answer [0x6d; 0x00]) _ _)))) _).
  - reflexivity.
  - unfold Buf.length; simpl; lia.
  - reflexivity.
Defined.

(** X9: wipeoutWallet sends the one frame 80 F0 00 00 00 and settles by
    the response: 90 00 resolves, 6D 00 rejects with the
    wallet-not-initialized error, any other response (a longer one
    included) with the protocol error, and a failure of the round trip
    with its own error. *)
Theorem wipeoutWallet_outcome (origin : string) (timeout : Z)
        (u2f : Transport) :
  let frame := [0x80; 0xF0; 0x00; 0x00; 0x00] in
  let answered := Index.sendAPDU_settle (u2f [] (callOf origin timeout frame)) in
  let result := run (Index.wipeoutWallet origin timeout) u2f [] in
  snd result = [callOf origin timeout frame]
  /\ (forall e, answered = Rejected e -> fst result = Rejected e)
  /\ (answered = Fulfilled [0x90; 0x00] -> fst result = Fulfilled tt)
  /\ (answered = Fulfilled [0x6d; 0x00] ->
      fst result = Rejected WalletNotInitialized)
  /\ (forall response,
         answered = Fulfilled response ->
         response <> [0x90; 0x00] -> response <> [0x6d; 0x00] ->
         fst result = Rejected ProtocolError).
Proof.
  intros frame answered result.
  unfold result, Index.wipeoutWallet. rewrite run_roundTrip.
  change (Index.sendAPDU_settle _) with answered.
  destruct answered as [response|e].
  - destruct (wipeoutWallet_then_cases response)
      as [[-> ->]|[[-> ->]|(Hok & Hinit & ->)]];
      cbn [run fst snd]; repeat split; try discriminate; try congruence;
      intros r [= <-]; congruence.
  - cbn [fst snd]. repeat split; try discriminate. now intros e' [= ->].
Qed.

(** ** verifyPin and getPublicKey *)

Ltac settle_goal := repeat split; try reflexivity; try congruence.

Ltac choose_case :=
  first [ solve [settle_goal] | left; solve [settle_goal]
        | right; choose_case ].

Lemma verifyPin_then_cases (origin : string) (timeout : Z)
      (response : Buffer) :
  (response = [0x90; 0x00]
   /\ Index.verifyPin_then origin timeout response = Resolve tt)
  \/ (response = [0x6d; 0x00]
      /\ Index.verifyPin_then origin timeout response
         = Reject WalletNotInitialized)
  \/ (response = [0x69; 0x82]
      /\ Index.verifyPin_then origin timeout response
         = bind (Index.getPinTriesLeft origin timeout) Index.invalidPin)
  \/ (response = [0x67; 0x00]
      /\ Index.verifyPin_then origin timeout response
         = Reject (Error "Unsupported PIN-code length."))
  \/ (response = [0x69; 0x83]
      /\ Index.verifyPin_then origin timeout response
         = Reject (Error "PIN-code blocked."))
  \/ (response <> [0x90; 0x00] /\ response <> [0x6d; 0x00]
      /\ response <> [0x69; 0x82] /\ response <> [0x67; 0x00]
      /\ response <> [0x69; 0x83]
      /\ Index.verifyPin_then origin timeout response = Reject ProtocolError).
Proof.
  unfold Index.verifyPin_then. split_response response a b.
  - choose_case.
  - choose_case.
  - destruct (Z.eqb_spec a 144) as [->|Ha], (Z.eqb_spec b 0) as [->|Hb];
      cbn [negb orb andb Z.eqb Pos.eqb];
      try (destruct (Z.eqb_spec a 109) as [->|Ha1]);
      try (destruct (Z.eqb_spec a 105) as [->|Ha2]);
      try (destruct (Z.eqb_spec a 103) as [->|Ha3]);
      try (destruct (Z.eqb_spec b 130) as [->|Hb1]);
      try (destruct (Z.eqb_spec b 131) as [->|Hb2]);
      cbn [negb orb andb Z.eqb Pos.eqb]; choose_case.
  - choose_case.
Qed.

(** The follow-up of verifyPin after the log [log]. *)
Lemma run_followUp (origin : string) (timeout : Z) (u2f : Transport)
      (log : list Call) :
  let call2 := callOf origin timeout [0x80; 0x22; 0x80; 0x00] in
  let result :=
    run (bind (Index.getPinTriesLeft origin timeout) Index.invalidPin)
        u2f log in
  snd result = log ++ [call2]
  /\ (forall e, Index.sendAPDU_settle (u2f log call2) = Rejected e ->
                fst result = Rejected e)
  /\ (forall response,
         Index.sendAPDU_settle (u2f log call2) = Fulfilled response ->
         Buf.length response <> 2 -> fst result = Rejected ProtocolError).
Proof.
  intros call2 result. unfold result, Index.getPinTriesLeft.
  rewrite run_bind, run_roundTrip.
  change (callOf origin timeout (Buf.fromHex "80228000")) with call2.
  destruct (Index.sendAPDU_settle (u2f log call2)) as [response|e].
  - unfold Index.getPinTriesLeft_then.
    destruct (Z.eqb_spec (Buf.length response) 2) as [E|E]; cbn [negb].
    + assert (Hlog : forall s : Settled (option Z),
                 snd (let (s0, log') := run (settled s) u2f (log ++ [call2]) in
                      match s0 with
                      | Fulfilled a => run (Index.invalidPin a) u2f log'
                      | Rejected e => (Rejected e, log')
                      end) = log ++ [call2])
        by (intros [a|e]; reflexivity).
      repeat split; try discriminate; try (intros; congruence).
      destruct (strict_neq _ _).
      * destruct (_ && _);
          [exact (Hlog (Rejected WalletNotInitialized))
          |exact (Hlog (Rejected ProtocolError))].
      * exact (Hlog (Fulfilled (minus (Buf.get response 1) 192))).
    + cbn [run fst snd]. repeat split; try discriminate. 
  - cbn [fst snd]. repeat split; try discriminate. now intros e' [= ->].
Qed.

Lemma run_verifyPin (origin : string) (timeout : Z) (pin : string)
      (u2f : Transport) :
  let code := Buf.fromUtf8 pin in
  let call1 :=
    callOf origin timeout ([0x80; 0x22; 0x00; 0x00; Buf.length code] ++ code) in
  4 <= Buf.length code <= 32 ->
  run (Index.verifyPin origin timeout pin) u2f []
  = match Index.sendAPDU_settle (u2f [] call1) with
    | Fulfilled response =>
        run (Index.verifyPin_then origin timeout response) u2f [call1]
    | Rejected e => (Rejected e, [call1])
    end.
Proof.
  intros code call1 Hpin. unfold Index.verifyPin. fold code.
  destruct (Z.ltb_spec (Buf.length code) 4); [lia|].
  destruct (Z.gtb_spec (Buf.length code) 32); [lia|].
  cbn [orb]. rewrite run_roundTrip, verifyPin_apdu_frame by lia.
  reflexivity.
Qed.

(** X10: verifyPin makes no transport call exactly when the PIN is
    shorter than 4 or longer than 32 bytes, and then rejects with the
    invalid-PIN-length error. *)
Theorem verifyPin_validates_pin (origin : string) (timeout : Z)
        (pin : string) (u2f : Transport) :
  let result := run (Index.verifyPin origin timeout pin) u2f [] in
  let pinLength := Buf.length (Buf.fromUtf8 pin) in
  (snd result = [] <-> pinLength < 4 \/ 32 < pinLength)
  /\ (pinLength < 4 \/ 32 < pinLength ->
      fst result = Rejected (Error "Invalid pin length.")).
Proof.
  intros result pinLength.
  destruct (Z.lt_ge_cases pinLength 4) as [Hshort|Hmin].
  - unfold result, Index.verifyPin. fold pinLength.
    destruct (Z.ltb_spec pinLength 4); [|lia].
    repeat split; try reflexivity; intros; lia.
  - destruct (Z.lt_ge_cases 32 pinLength) as [Hlong|Hmax].
    + unfold result, Index.verifyPin. fold pinLength.
      destruct (Z.ltb_spec pinLength 4); [lia|].
      destruct (Z.gtb_spec pinLength 32); [|lia].
      repeat split; try reflexivity; intros; lia.
    + unfold result. rewrite run_verifyPin by (fold pinLength; lia).
      split; [|intros; lia]. split; [|intros; lia].
      destruct (Index.sendAPDU_settle _) as [response|e]; [|discriminate].
      destruct (verifyPin_then_cases origin timeout response)
        as [[_ ->]|[[_ ->]|[[_ ->]|[[_ ->]|[[_ ->]|(_&_&_&_&_& ->)]]]]];
        try discriminate.
      destruct (run_followUp origin timeout u2f
                  [callOf origin timeout
                     ([128; 34; 0; 0; Buf.length (Buf.fromUtf8 pin)]
                        ++ Buf.fromUtf8 pin)]) as [-> _].
      discriminate.
Qed.

(** X11: for a PIN of 4 to 32 bytes verifyPin sends the frame
    80 22 00 00 Lc and the PIN, and settles by the response: 90 00
    resolves; 6D 00, 67 00 and 69 83 reject with the
    wallet-not-initialized, unsupported-length and PIN-blocked errors; a
    response other than these and 69 82 rejects with the protocol error; a
    failure of the round trip rejects with its own error.  In all these
    cases one call is made: the tries-left follow-up is sent exactly when
    the response is 69 82. *)
Theorem verifyPin_outcome (origin : string) (timeout : Z) (pin : string)
        (u2f : Transport) :
  let code := Buf.fromUtf8 pin in
  let call1 :=
    callOf origin timeout ([0x80; 0x22; 0x00; 0x00; Buf.length code] ++ code) in
  let call2 := callOf origin timeout [0x80; 0x22; 0x80; 0x00] in
  let answered := Index.sendAPDU_settle (u2f [] call1) in
  let result := run (Index.verifyPin origin timeout pin) u2f [] in
  4 <= Buf.length code <= 32 ->
  (forall e, answered = Rejected e -> result = (Rejected e, [call1]))
  /\ (answered = Fulfilled [0x90; 0x00] -> result = (Fulfilled tt, [call1]))
  /\ (answered = Fulfilled [0x6d; 0x00] ->
      result = (Rejected WalletNotInitialized, [call1]))
  /\ (answered = Fulfilled [0x67; 0x00] ->
      result = (Rejected (Error "Unsupported PIN-code length."), [call1]))
  /\ (answered = Fulfilled [0x69; 0x83] ->
      result = (Rejected (Error "PIN-code blocked."), [call1]))
  /\ (forall response,
         answered = Fulfilled response ->
         response <> [0x90; 0x00] -> response <> [0x6d; 0x00] ->
         response <> [0x69; 0x82] -> response <> [0x67; 0x00] ->
         response <> [0x69; 0x83] ->
         result = (Rejected ProtocolError, [call1]))
  /\ (snd result = [call1; call2] <-> answered = Fulfilled [0x69; 0x82]).
Proof.
  intros code call1 call2 answered result Hpin.
  unfold result. rewrite run_verifyPin by assumption.
  fold code call1 answered.
  destruct answered as [response|e].
  - destruct (verifyPin_then_cases origin timeout response)
      as [[-> ->]|[[-> ->]|[[-> ->]|[[-> ->]|[[-> ->]|(H1&H2&H3&H4&H5& ->)]]]]];
      cbn [run snd];
      repeat split; try discriminate; try congruence;
      try (intros r [= <-]; congruence).
    intros _.
    destruct (run_followUp origin timeout u2f [call1]) as [Hlog _].
    exact Hlog.
  - repeat split; try discriminate; congruence.
Qed.

Lemma verifyPin_outcome_witness :
  run (Index.verifyPin "https://wallet.example" 30 "1234")
      (fun _ _ => answer [0x69; 0x83]) []
  = (Rejected (Error "PIN-code blocked."),
     [callOf "https://wallet.example" 30
             [0x80; 0x22; 0x00; 0x00; 4; 49; 50; 51; 52]]).
Proof.
  refine (proj1 (proj2 (proj2 (proj2 (proj2
            (verifyPin_outcome "https://wallet.example" 30 "1234"
                               (fun _ _ => answer [0x69; 0x83]) _))))) _).
  - unfold Buf.length; simpl; lia.
  - reflexivity.
Defined.

(** X12: when the tries-left follow-up of verifyPin itself fails, its
    failure is the error of verifyPin: a failure of the second round
    trip rejects with its own error, and a follow-up response that is not
    two bytes long rejects with the protocol error. *)
Theorem verifyPin_followUp_failure (origin : string) (timeout : Z)
        (pin : string) (u2f : Transport) :
  let code := Buf.fromUtf8 pin in
  let call1 :=
    callOf origin timeout ([0x80; 0x22; 0x00; 0x00; Buf.length code] ++ code) in
  let call2 := callOf origin timeout [0x80; 0x22; 0x80; 0x00] in
  let followUp := Index.sendAPDU_settle (u2f [call1] call2) in
  let result := run (Index.verifyPin origin timeout pin) u2f [] in
  4 <= Buf.length code <= 32 ->
  Index.sendAPDU_settle (u2f [] call1) = Fulfilled [0x69; 0x82] ->
  (forall e, followUp = Rejected e -> fst result = Rejected e)
  /\ (forall response,
         followUp = Fulfilled response -> Buf.length response <> 2 ->
         fst result = Rejected ProtocolError)
  /\ List.length (snd result) = 2%nat.
Proof.
  intros code call1 call2 followUp result Hpin Hfirst.
  unfold result. rewrite run_verifyPin by assumption.
  fold code call1. rewrite Hfirst.
  change (Index.verifyPin_then origin timeout [105; 130])
    with (bind (Index.getPinTriesLeft origin timeout) Index.invalidPin).
  destruct (run_followUp origin timeout u2f [call1]) as (Hlog & Herr & Hlen).
  split; [exact Herr|]. split; [exact Hlen|]. now rewrite Hlog.
Qed.

Lemma verifyPin_followUp_failure_witness :
  fst (run (Index.verifyPin "https://wallet.example" 30 "1234")
           (fun log _ => match log with
                         | [] => answer [0x69; 0x82]
                         | _ => SignRejected (TransportError 5)
                         end) [])
  = Rejected (TransportError 5).
Proof.
  refine (proj1 (verifyPin_followUp_failure
                   "https://wallet.example" 30 "1234"
                   (fun log _ => match log with
                                 | [] => answer [0x69; 0x82]
                                 | _ => SignRejected (TransportError 5)
                                 end) _ _) _ _).
  - unfold Buf.length; simpl; lia.
  - reflexivity.
  - reflexivity.
Defined.

(** X13: getPublicKey sends the one frame 80 40 00 00.  A response
    ending in 6D 00 or 69 82 rejects with the wallet-not-initialized or
    PIN-not-verified error whatever its length; a response ending in
    90 00 resolves its first 65 bytes when it is 67 bytes long and rejects
    with the protocol error otherwise; every other status rejects with the
    protocol error, and a failure of the round trip with its own error. *)
Theorem getPublicKey_outcome (origin : string) (timeout : Z)
        (u2f : Transport) :
  let call := callOf origin timeout [0x80; 0x40; 0x00; 0x00] in
  let answered := Index.sendAPDU_settle (u2f [] call) in
  let result := run (Index.getPublicKey origin timeout) u2f [] in
  snd result = [call]
  /\ (forall e, answered = Rejected e -> fst result = Rejected e)
  /\ (forall response,
         answered = Fulfilled response ->
         (HasStatus response 0x6d 0x00 ->
          fst result = Rejected WalletNotInitialized)
         /\ (HasStatus response 0x69 0x82 ->
             fst result = Rejected PinNotVerified)
         /\ (forall key, response = key ++ [0x90; 0x00] ->
                         fst result
                         = if Buf.length key =? 65 then Fulfilled key
                           else Rejected ProtocolError)
         /\ (~ HasStatus response 0x90 0x00 ->
             ~ HasStatus response 0x6d 0x00 ->
             ~ HasStatus response 0x69 0x82 ->
             fst result = Rejected ProtocolError)).
Proof.
  intros call answered result.
  unfold result, Index.getPublicKey. rewrite run_roundTrip.
  change (callOf origin timeout (Buf.fromHex "80400000")) with call.
  fold answered.
  destruct answered as [response|e].
  - unfold Index.getPublicKey_then. split.
    { destruct (statusIsNot response 144 0).
      - destruct (statusIs response 109 0); [reflexivity|].
        destruct (statusIs response 105 130); reflexivity.
      - destruct (negb _); reflexivity. }
    split; [discriminate|]. intros r [= <-].
    split; [|split; [|split]].
    + intros H. pose proof H as H'. apply statusIs_true in H'.
      destruct (statusIsNot response 144 0) eqn:E.
      * now rewrite H'.
      * apply statusIsNot_false in E.
        destruct (HasStatus_unique _ _ _ _ _ H E). discriminate.
    + intros H. pose proof H as H'. apply statusIs_true in H'.
      destruct (statusIsNot response 144 0) eqn:E.
      * destruct (statusIs response 109 0) eqn:E1.
        -- apply statusIs_true in E1.
           destruct (HasStatus_unique _ _ _ _ _ H E1). discriminate.
        -- now rewrite H'.
      * apply statusIsNot_false in E.
        destruct (HasStatus_unique _ _ _ _ _ H E). discriminate.
    + intros key ->.
      rewrite statusIsNot_app, slice_payload, length_app_status.
      cbn [Z.eqb Pos.eqb negb orb].
      replace (Buf.length key + 2 =? 67) with (Buf.length key =? 65)
        by (destruct (Z.eqb_spec (Buf.length key) 65),
              (Z.eqb_spec (Buf.length key + 2) 67); lia || reflexivity).
      now destruct (Buf.length key =? 65).
    + intros H1 H2 H3.
      destruct (statusIsNot response 144 0) eqn:E;
        [|apply statusIsNot_false in E; contradiction].
      destruct (statusIs response 109 0) eqn:E1;
        [apply statusIs_true in E1; contradiction|].
      destruct (statusIs response 105 130) eqn:E2;
        [apply statusIs_true in E2; contradiction|].
      reflexivity.
  - cbn [fst snd]. split; [reflexivity|]. split; [|discriminate].
    now intros e' [= ->].
Qed.

(** ** More on signData *)

(** Running a promise only adds calls to the log. *)
Lemma run_log_extends {A : Type} (p : Promise A) (u2f : Transport) :
  forall log, exists calls, snd (run p u2f log) = log ++ calls.
Proof.
  induction p as [a|e|requests timeout k IH]; intros log; cbn [run snd].
  - exists []. now rewrite app_nil_r.
  - exists []. now rewrite app_nil_r.
  - destruct (IH (u2f log (requests, timeout)) (log ++ [(requests, timeout)]))
      as [calls ->].
    exists ((requests, timeout) :: calls). now rewrite <- app_assoc.
Qed.

Lemma pieces_concat (size : nat) (rawData : Buffer) (n : nat) :
  forall k,
    List.concat (map (piece size rawData) (seq k n))
      ++ skipn ((k + n) * size) rawData
    = skipn (k * size) rawData.
Proof.
  induction n as [|n IH]; intros k.
  - cbn [seq map List.concat app]. now rewrite Nat.add_0_r.
  - cbn [seq map List.concat]. rewrite <- app_assoc.
    replace (k + S n)%nat with (S k + n)%nat by lia.
    rewrite IH. unfold piece.
    replace (S k * size)%nat with (size + k * size)%nat by lia.
    rewrite <- skipn_skipn. apply firstn_skipn.
Qed.

Lemma chunkFrames_payloads (size : nat) (rawData : Buffer) :
  (0 < size)%nat ->
  List.concat (map (skipn 5) (chunkFrames size rawData)) = rawData.
Proof.
  intros Hsize. unfold chunkFrames. rewrite map_map.
  change (fun x => skipn 5 (chunkFrame size rawData x))
    with (piece size rawData).
  pose proof (pieces_concat size rawData (chunkCount size rawData) 0) as H.
  pose proof (chunkCount_bounds size Hsize rawData) as HN.
  rewrite skipn_all2 in H by (cbn [Nat.add]; lia).
  now rewrite app_nil_r in H.
Qed.

(** X14: the chunking loops lose and repeat nothing: the payloads of the
    queued chunk frames (each frame without its five header bytes),
    joined in order, are the decoded input, for the chunk size 8 of
    index.js and for the chunk size 128 of the confirming variant. *)
Theorem chunk_payloads_reassemble (dataToSign : string) :
  (exists apdus,
      chunkApdus Index.maxChunkSize (Buf.fromHex dataToSign) = Some apdus
      /\ List.concat (map (skipn 5) apdus) = Buf.fromHex dataToSign)
  /\ (exists apdus,
         chunkApdus Confirm.maxChunkSize (Buf.fromHex dataToSign)
         = Some apdus
         /\ List.concat (map (skipn 5) apdus) = Buf.fromHex dataToSign).
Proof.
  split.
  - exists (chunkFrames 8 (Buf.fromHex dataToSign)). split.
    + unfold Index.maxChunkSize. change 8 with (Z.of_nat 8).
      apply chunkApdus_frames; lia.
    + apply chunkFrames_payloads. lia.
  - exists (chunkFrames 128 (Buf.fromHex dataToSign)). split.
    + unfold Confirm.maxChunkSize. change 128 with (Z.of_nat 128).
      apply chunkApdus_frames; lia.
    + apply chunkFrames_payloads. lia.
Qed.

Lemma chunk_then_cases (response : Buffer) :
  (response = success /\ chunk_then response = None)
  \/ (response = [0x6d; 0x00]
      /\ chunk_then response = Some WalletNotInitialized)
  \/ (response = [0x69; 0x82]
      /\ chunk_then response = Some PinNotVerified)
  \/ (response <> success /\ response <> [0x6d; 0x00]
      /\ response <> [0x69; 0x82]
      /\ chunk_then response = Some ProtocolError).
Proof.
  unfold chunk_then, success. split_response response a b.
  - choose_case.
  - choose_case.
  - destruct (Z.eqb_spec a 144) as [->|Ha], (Z.eqb_spec b 0) as [->|Hb];
      cbn [negb orb andb Z.eqb Pos.eqb];
      try (destruct (Z.eqb_spec a 109) as [->|Ha1]);
      try (destruct (Z.eqb_spec a 105) as [->|Ha2]);
      try (destruct (Z.eqb_spec b 130) as [->|Hb1]);
      cbn [negb orb andb Z.eqb Pos.eqb]; choose_case.
  - choose_case.
Qed.

Lemma localCallback_abort_error (origin : string) (timeout : Z)
      (u2f : Transport) (apdus : list Buffer) :
  forall (log : list Call) (i : nat) (response : Buffer) (err : JsError),
    (i < List.length apdus)%nat ->
    (forall j, (j < i)%nat ->
               roundTrip origin timeout u2f log apdus j = Fulfilled success) ->
    roundTrip origin timeout u2f log apdus i = Fulfilled response ->
    chunk_then response = Some err ->
    fst (run (Index.localCallback origin timeout apdus) u2f log)
    = Rejected err.
Proof.
  induction apdus as [|apdu rest IH];
    intros log i response err Hi Hbefore Hthis Herr.
  - cbn [List.length] in Hi. lia.
  - cbn [Index.localCallback]. rewrite run_roundTrip.
    destruct i as [|i].
    + rewrite roundTrip_head in Hthis. rewrite Hthis, Herr. reflexivity.
    + pose proof (Hbefore 0%nat (Nat.lt_0_succ i)) as Hfirst.
      rewrite roundTrip_head in Hfirst. rewrite Hfirst.
      change (chunk_then success) with (@None JsError).
      cbn [List.length] in Hi.
      destruct rest as [|next rest]; [cbn [List.length] in Hi; lia|].
      apply (IH _ i response); try assumption; try lia.
      * intros j Hj. rewrite <- roundTrip_tail. apply Hbefore. lia.
      * now rewrite <- roundTrip_tail.
Qed.

(** X15: the error of a failed chunk tells the cause: when the round
    trip of chunk [i] resolves a response after the chunks before it
    succeeded, 6D 00 rejects signData with the wallet-not-initialized
    error, 69 82 with the PIN-not-verified error, and every other
    response that is not 90 00 (a longer one ending in 90 00 included)
    with the protocol error. *)
Theorem signData_chunk_error
        (origin : string) (timeout : Z) (dataToSign : string)
        (u2f : Transport) (i : nat) (response : Buffer) :
  let apdus := chunkFrames 8 (Buf.fromHex dataToSign) in
  (i < List.length apdus)%nat ->
  (forall j, (j < i)%nat ->
             roundTrip origin timeout u2f [] apdus j = Fulfilled success) ->
  roundTrip origin timeout u2f [] apdus i = Fulfilled response ->
  response <> success ->
  exists p,
    Index.signData origin timeout dataToSign = Some p
    /\ (response = [0x6d; 0x00] ->
        fst (run p u2f []) = Rejected WalletNotInitialized)
    /\ (response = [0x69; 0x82] ->
        fst (run p u2f []) = Rejected PinNotVerified)
    /\ (response <> [0x6d; 0x00] -> response <> [0x69; 0x82] ->
        fst (run p u2f []) = Rejected ProtocolError).
Proof.
  intros apdus Hi Hbefore Hthis Hfail.
  exists (Index.localCallback origin timeout apdus).
  split; [apply signData_localCallback|].
  assert (Hrun : forall err, chunk_then response = Some err ->
             fst (run (Index.localCallback origin timeout apdus) u2f [])
             = Rejected err)
    by (intros err; now apply (localCallback_abort_error _ _ _ _ [] i)).
  destruct (chunk_then_cases response)
    as [[-> _]|[[-> H]|[[-> H]|(_ & H1 & H2 & H)]]];
    [now elim Hfail| | |]; rewrite (Hrun _ H);
    repeat split; try discriminate; try reflexivity; intros; congruence.
Qed.

Lemma signData_chunk_error_witness :
  exists p,
    Index.signData "https://wallet.example" 30 "000102030405060708090a0b"
    = Some p
    /\ fst (run p (fun log _ => match log with
                                | [] => answer [0x90; 0x00]
                                | _ => answer [0x69; 0x82]
                                end) [])
       = Rejected PinNotVerified.
Proof.
  destruct (signData_chunk_error
              "https://wallet.example" 30 "000102030405060708090a0b"
              (fun log _ => match log with
                            | [] => answer [0x90; 0x00]
                            | _ => answer [0x69; 0x82]
                            end) 1%nat [0x69; 0x82])
    as (p & Hp & _ & Hpin & _).
  - vm_compute. lia.
  - intros j Hj. assert (j = 0%nat) as -> by lia. reflexivity.
  - reflexivity.
  - discriminate.
  - exists p. split; [exact Hp|]. now apply Hpin.
Defined.

(** X16: when every chunk round trip succeeds, signData settles by the
    finalize round trip, made after exactly the chunk frames: a response
    ending in 90 00 resolves the bytes before the status as the signature
    (whatever their number), a response with another status rejects with
    the protocol error, and a failure of the round trip with its own
    error. *)
Theorem signData_resolves_signature
        (origin : string) (timeout : Z) (dataToSign : string)
        (u2f : Transport) :
  let rawData := Buf.fromHex dataToSign in
  let apdus := chunkFrames 8 rawData in
  let finalized :=
    Index.sendAPDU_settle
      (u2f (map (callOf origin timeout) apdus)
           (callOf origin timeout [0x80; 0xF2; 0x02; 0x00])) in
  rawData <> [] ->
  (forall i, (i < List.length apdus)%nat ->
             roundTrip origin timeout u2f [] apdus i = Fulfilled success) ->
  exists p,
    Index.signData origin timeout dataToSign = Some p
    /\ (forall e, finalized = Rejected e -> fst (run p u2f []) = Rejected e)
    /\ (forall signature,
           finalized = Fulfilled (signature ++ [0x90; 0x00]) ->
           fst (run p u2f []) = Fulfilled signature)
    /\ (forall response,
           finalized = Fulfilled response -> ~ HasStatus response 0x90 0x00 ->
           fst (run p u2f []) = Rejected ProtocolError).
Proof.
  intros rawData apdus finalized Hne Hall.
  exists (Index.localCallback origin timeout apdus).
  split; [apply signData_localCallback|].
  assert (Hapdus : apdus <> []).
  { intros E.
    pose proof (chunkCount_positive 8 ltac:(lia) rawData Hne) as Hpos.
    unfold apdus in E. rewrite <- chunkFrames_length, E in Hpos.
    cbn [List.length] in Hpos. lia. }
  rewrite localCallback_success by assumption.
  unfold Index.finalize. rewrite run_roundTrip. cbn [app].
  change (callOf origin timeout Index.finalizeApdu)
    with (callOf origin timeout [128; 242; 2; 0]).
  fold finalized. unfold Index.finalize_then.
  destruct finalized as [response|e].
  - split; [discriminate|]. split.
    + intros signature [= ->].
      now rewrite statusIsNot_app, slice_payload.
    + intros r [= <-] Hstatus.
      destruct (statusIsNot response 144 0) eqn:E; [reflexivity|].
      apply statusIsNot_false in E. contradiction.
  - split; [now intros e' [= ->]|]. split; discriminate.
Qed.

Lemma signData_resolves_signature_witness :
  exists p,
    Index.signData "https://wallet.example" 30 "0001020304050607" = Some p
    /\ fst (run p (fun log _ => match log with
                                | [] => answer [0x90; 0x00]
                                | _ => answer [0x30; 0x44; 0x02; 0x90; 0x00]
                                end) [])
       = Fulfilled [0x30; 0x44; 0x02].
Proof.
  destruct (signData_resolves_signature
              "https://wallet.example" 30 "0001020304050607"
              (fun log _ => match log with
                            | [] => answer [0x90; 0x00]
                            | _ => answer [0x30; 0x44; 0x02; 0x90; 0x00]
                            end))
    as (p & Hp & _ & Hsig & _).
  - discriminate.
  - intros i Hi. assert (i = 0%nat) as ->
        by (change (i < 1)%nat in Hi; lia).
    reflexivity.
  - exists p. split; [exact Hp|]. now apply Hsig.
Defined.

(** X17: signData makes no transport call exactly when its input
    decodes to no byte (the empty text, or a text that does not start
    with two hexadecimal digits); it is then rejected with the TypeError
    of sending [undefined]. *)
Theorem signData_without_payload
        (origin : string) (timeout : Z) (dataToSign : string)
        (u2f : Transport) :
  exists p,
    Index.signData origin timeout dataToSign = Some p
    /\ (snd (run p u2f []) = [] <-> Buf.fromHex dataToSign = [])
    /\ (Buf.fromHex dataToSign = [] -> fst (run p u2f []) = Rejected TypeError).
Proof.
  exists (Index.localCallback origin timeout
            (chunkFrames 8 (Buf.fromHex dataToSign))).
  split; [apply signData_localCallback|].
  destruct (Buf.fromHex dataToSign) as [|b rest] eqn:E.
  - repeat split; reflexivity.
  - assert (Hpos : (0 < chunkCount 8 (b :: rest))%nat)
      by (apply chunkCount_positive; [lia|discriminate]).
    unfold chunkFrames.
    destruct (chunkCount 8 (b :: rest)) as [|n]; [lia|].
    cbn [seq map Index.localCallback]. rewrite run_roundTrip.
    split; [|discriminate]. split; [|discriminate].
    destruct (Index.sendAPDU_settle _) as [response|e]; [|discriminate].
    destruct (chunk_then response); [discriminate|].
    cbn [app].
    match goal with
    | |- snd (run ?q u2f ?log) = [] -> _ =>
        destruct (run_log_extends q u2f log) as [calls ->]
    end.
    discriminate.
Qed.

(** ** All operations of index.js *)

Lemma Some_eq {A : Type} (a b : A) : Some a = Some b -> a = b.
Proof. congruence. Qed.

Lemma no_calls_run {A : Type} (p : Promise A) (u2f : Transport)
      (log : list Call) :
  (forall c, ~ Calls p c) -> snd (run p u2f log) = log.
Proof.
  destruct p as [a|e|requests timeout k]; intros H; try reflexivity.
  elim (H (requests, timeout)). constructor.
Qed.

Lemma roundTrip_first_failure {B : Type} (origin : string) (apdu : Buffer)
      (timeout : Z) (h : Buffer -> Promise B) (u2f : Transport)
      (res : option JsError) (c : Call) (rest : list Call) (e : JsError) :
  outcome (bind (Index.sendAPDU origin (Some apdu) timeout) h) u2f
  = (res, c :: rest) ->
  Index.sendAPDU_settle (u2f [] c) = Rejected e ->
  res = Some e /\ rest = [].
Proof.
  unfold outcome. rewrite run_roundTrip. cbn [app].
  destruct (Index.sendAPDU_settle (u2f [] (callOf origin timeout apdu)))
    as [response|e'] eqn:Hsettle.
  - destruct (run_log_extends (h response) u2f [callOf origin timeout apdu])
      as [calls Hlog].
    rewrite Hlog. cbn [app]. intros [= _ <- _] Hc. congruence.
  - cbn [fst snd settledError]. intros [= <- <- <-] Hc.
    split; congruence.
Qed.

Lemma roundTrip_one_call {B : Type} (origin : string) (apdu : Buffer)
      (timeout : Z) (h : Buffer -> Promise B) (u2f : Transport) :
  (forall response c, ~ Calls (h response) c) ->
  (List.length
     (snd (run (bind (Index.sendAPDU origin (Some apdu) timeout) h) u2f []))
   <= 1)%nat.
Proof.
  intros Hh. rewrite run_roundTrip.
  destruct (Index.sendAPDU_settle _) as [response|e]; [|cbn; lia].
  rewrite no_calls_run by apply Hh. cbn. lia.
Qed.

Lemma localCallback_call_bound (origin : string) (timeout : Z)
      (u2f : Transport) (apdus : list Buffer) :
  forall log,
    (List.length (snd (run (Index.localCallback origin timeout apdus) u2f log))
     <= List.length log + List.length apdus + 1)%nat.
Proof.
  induction apdus as [|apdu rest IH]; intros log.
  - cbn. lia.
  - cbn [Index.localCallback]. rewrite run_roundTrip.
    destruct (Index.sendAPDU_settle _) as [response|e].
    + destruct (chunk_then response).
      * cbn [run snd]. rewrite length_app. cbn [List.length]. lia.
      * destruct rest as [|next rest].
        -- rewrite run_finalize_log, !length_app. cbn [List.length]. lia.
        -- specialize (IH (log ++ [callOf origin timeout apdu])).
           rewrite length_app in IH. cbn [List.length] in *. lia.
    + cbn [snd]. rewrite length_app. cbn [List.length]. lia.
Qed.

(** X18: a failure of the first round trip is reported as it is: when
    an operation of index.js makes a call and sendAPDU rejects for it (the
    transport fails or times out, signatureData is missing, or the
    response is too short), the operation rejects with that same error
    and makes no further call. *)
Theorem first_failure_is_reported (origin : string) (timeout : Z)
        (op : Operation) (u2f : Transport) (res : option JsError)
        (c : Call) (rest : list Call) (e : JsError) :
  performs origin timeout op u2f = Some (res, c :: rest) ->
  Index.sendAPDU_settle (u2f [] c) = Rejected e ->
  res = Some e /\ rest = [].
Proof.
  destruct op as [|length|privateKey pin| |pin| |dataToSign];
    cbn [performs].
  - intros H. apply Some_eq in H. revert H. apply roundTrip_first_failure.
  - intros H. apply Some_eq in H. revert H. unfold Index.getRandom.
    destruct (_ || _); [discriminate|]. apply roundTrip_first_failure.
  - intros H. apply Some_eq in H. revert H. unfold Index.initWallet.
    destruct (negb _); [discriminate|].
    destruct (_ || _); [discriminate|]. apply roundTrip_first_failure.
  - intros H. apply Some_eq in H. revert H. apply roundTrip_first_failure.
  - intros H. apply Some_eq in H. revert H. unfold Index.verifyPin.
    destruct (_ || _); [discriminate|]. apply roundTrip_first_failure.
  - intros H. apply Some_eq in H. revert H. apply roundTrip_first_failure.
  - rewrite signData_localCallback. intros H. apply Some_eq in H. revert H.
    destruct (chunkFrames 8 (Buf.fromHex dataToSign)) as [|apdu apdus];
      [discriminate|].
    cbn [Index.localCallback]. apply roundTrip_first_failure.
Qed.

Lemma first_failure_is_reported_witness :
  Some (TransportError 2) = Some (TransportError 2)
  /\ @nil Call = [].
Proof.
  apply (first_failure_is_reported
           "https://wallet.example" 30 OpGetPublicKey
           (fun _ _ => SignRejected (TransportError 2))
           (Some (TransportError 2))
           (callOf "https://wallet.example" 30 [0x80; 0x40; 0x00; 0x00])
           [] (TransportError 2)).
  - reflexivity.
  - reflexivity.
Defined.

(** X19: every operation of index.js ends, and the number of transport
    calls it makes is bounded whatever the transport answers: at most one
    call for getInfo, getRandom, initWallet, wipeoutWallet and
    getPublicKey, at most two for verifyPin, and at most one per chunk
    plus one for signData. *)
Theorem operations_call_bound (origin : string) (timeout : Z)
        (op : Operation) (u2f : Transport) :
  exists res calls,
    performs origin timeout op u2f = Some (res, calls)
    /\ (List.length calls <= callBound op)%nat.
Proof.
  destruct op as [|length|privateKey pin| |pin| |dataToSign];
    cbn [performs callBound]; unfold outcome.
  - eexists _, _. split; [reflexivity|].
    apply roundTrip_one_call. intros r c. apply getInfo_then_no_calls.
  - eexists _, _. split; [reflexivity|]. unfold Index.getRandom.
    destruct (_ || _); [cbn; lia|].
    apply roundTrip_one_call. intros r c. apply getRandom_then_no_calls.
  - eexists _, _. split; [reflexivity|]. unfold Index.initWallet.
    destruct (negb _); [cbn; lia|].
    destruct (_ || _); [cbn; lia|].
    apply roundTrip_one_call. intros r c. apply initWallet_then_no_calls.
  - eexists _, _. split; [reflexivity|].
    apply roundTrip_one_call. intros r c. apply wipeoutWallet_then_no_calls.
  - eexists _, _. split; [reflexivity|]. unfold Index.verifyPin.
    destruct (_ || _); [cbn; lia|].
    rewrite run_roundTrip.
    destruct (Index.sendAPDU_settle _) as [response|e]; [|cbn; lia].
    destruct (verifyPin_then_cases origin timeout response)
      as [[_ ->]|[[_ ->]|[[_ ->]|[[_ ->]|[[_ ->]|(_&_&_&_&_& ->)]]]]];
      try (cbn; lia).
    match goal with
    | |- context [run _ u2f ?log] =>
        destruct (run_followUp origin timeout u2f log) as [-> _]
    end.
    cbn. lia.
  - eexists _, _. split; [reflexivity|].
    apply roundTrip_one_call. intros r c. apply getPublicKey_then_no_calls.
  - rewrite signData_localCallback. eexists _, _. split; [reflexivity|].
    cbn [snd].
    pose proof (localCallback_call_bound origin timeout u2f
                  (chunkFrames 8 (Buf.fromHex dataToSign)) []) as H.
    rewrite chunkFrames_length in H. cbn [List.length] in H. lia.
Qed.

(** X20: signData never sends a frame ahead of the device: when the
    calls made go beyond chunk [k - 1], every chunk before [k] had the
    response 90 00. *)
Theorem signData_sends_in_order
        (origin : string) (timeout : Z) (dataToSign : string)
        (u2f : Transport) (p : Promise Buffer) (k : nat) :
  let apdus := chunkFrames 8 (Buf.fromHex dataToSign) in
  Index.signData origin timeout dataToSign = Some p ->
  (k < List.length apdus)%nat ->
  (k < List.length (snd (run p u2f [])))%nat ->
  forall j, (j < k)%nat ->
            roundTrip origin timeout u2f [] apdus j = Fulfilled success.
Proof.
  intros apdus Hp Hk Hsent.
  rewrite signData_localCallback in Hp. injection Hp as <-.
  now apply (localCallback_in_order origin timeout u2f apdus [] k).
Qed.

Lemma signData_sends_in_order_witness :
  roundTrip "https://wallet.example" 30 (fun _ _ => answer [0x90; 0x00]) []
            (chunkFrames 8 (Buf.fromHex "000102030405060708090a0b")) 0
  = Fulfilled success.
Proof.
  apply (signData_sends_in_order
           "https://wallet.example" 30 "000102030405060708090a0b"
           (fun _ _ => answer [0x90; 0x00])
           (Index.localCallback "https://wallet.example" 30
              (chunkFrames 8 (Buf.fromHex "000102030405060708090a0b")))
           1%nat).
  - reflexivity.
  - vm_compute. lia.
  - vm_compute. lia.
  - lia.
Defined.

(** ** The confirming variant (src/unnamed/part_000) *)

Lemma confirm_run_roundTrip {B : Type} (origin : string) (apdu : Buffer)
      (timeout : Z) (h : Buffer -> Promise B) (u2f : Transport)
      (log : list Call) :
  run (bind (Confirm.sendAPDU origin (Some apdu) timeout) h) u2f log
  = match Confirm.sendAPDU_settle (u2f log (callOf origin timeout apdu)) with
    | Fulfilled response =>
        run (h response) u2f (log ++ [callOf origin timeout apdu])
    | Rejected e => (Rejected e, log ++ [callOf origin timeout apdu])
    end.
Proof.
  rewrite run_bind. cbn [Confirm.sendAPDU run]. rewrite run_settled.
  reflexivity.
Qed.

Lemma slice_after_header (h1 h2 h3 h4 h5 : Z) (rest : Buffer) :
  Buf.slice (h1 :: h2 :: h3 :: h4 :: h5 :: rest) 5
            (Buf.length (h1 :: h2 :: h3 :: h4 :: h5 :: rest))
  = rest.
Proof.
  unfold Buf.slice, Buf.clamp, Buf.length. cbn [List.length].
  destruct (Z.ltb_spec 5 0); [lia|].
  destruct (Z.ltb_spec (Z.of_nat (S (S (S (S (S (List.length rest))))))) 0);
    [lia|].
  rewrite Z.min_l by lia. rewrite Z.min_l by lia.
  change (Z.to_nat 5) with 5%nat. cbn [skipn].
  apply firstn_all2. lia.
Qed.

(** How the variant settles on the decoded data of a response. *)
Lemma confirm_settle_data (sd : string) :
  let data := fromBase64 (normal64 sd) in
  Confirm.sendAPDU_settle (SignResolved {| signatureData := Some sd |})
  = match data with
    | h1 :: h2 :: h3 :: h4 :: h5 :: frame =>
        if (2 <=? Buf.length frame)
           && (h1 =? 1) && (h2 =? 0) && (h3 =? 0) && (h4 =? 0) && (h5 =? 0)
        then Fulfilled frame
        else Rejected MalformedResponse
    | _ => Rejected MalformedResponse
    end.
Proof.
  intros data. unfold Confirm.sendAPDU_settle. cbn [signatureData].
  fold data.
  destruct data as [|h1 [|h2 [|h3 [|h4 [|h5 frame]]]]]; try reflexivity.
  rewrite slice_after_header.
  change (Buf.get (h1 :: h2 :: h3 :: h4 :: h5 :: frame) 0) with (Some h1).
  change (Buf.get (h1 :: h2 :: h3 :: h4 :: h5 :: frame) 1) with (Some h2).
  change (Buf.get (h1 :: h2 :: h3 :: h4 :: h5 :: frame) 2) with (Some h3).
  change (Buf.get (h1 :: h2 :: h3 :: h4 :: h5 :: frame) 3) with (Some h4).
  change (Buf.get (h1 :: h2 :: h3 :: h4 :: h5 :: frame) 4) with (Some h5).
  unfold strict_neq.
  assert (Hlen : Buf.length (h1 :: h2 :: h3 :: h4 :: h5 :: frame)
                 = 5 + Buf.length frame)
    by (unfold Buf.length; cbn [List.length]; lia).
  rewrite Hlen.
  destruct (Z.ltb_spec (5 + Buf.length frame) (5 + 2)),
    (Z.leb_spec 2 (Buf.length frame)); try lia; cbn [andb]; [reflexivity|].
  destruct (h1 =? 1), (h2 =? 0), (h3 =? 0), (h4 =? 0), (h5 =? 0);
    reflexivity.
Qed.

(** X21: the confirming variant unwraps the response: sendAPDU resolves
    a frame exactly when the decoded data are the header 01 00 00 00 00
    followed by a frame of at least two bytes, and it resolves that frame;
    data with another header or a shorter frame are rejected as a
    malformed response.  So what it resolves always has its two status
    bytes. *)
Theorem confirm_sendAPDU_unwraps (data : Buffer) :
  is_buffer data ->
  (forall frame,
      Confirm.sendAPDU_settle (answer data) = Fulfilled frame
      <-> data = tunnelHeader ++ frame /\ 2 <= Buf.length frame)
  /\ ((forall frame, data = tunnelHeader ++ frame -> Buf.length frame < 2) ->
      Confirm.sendAPDU_settle (answer data) = Rejected MalformedResponse)
  /\ (forall outcome frame,
         Confirm.sendAPDU_settle outcome = Fulfilled frame ->
         2 <= Buf.length frame).
Proof.
  intros Hdata.
  assert (Hsettle : Confirm.sendAPDU_settle (answer data)
                    = match data with
                      | h1 :: h2 :: h3 :: h4 :: h5 :: frame =>
                          if (2 <=? Buf.length frame)
                             && (h1 =? 1) && (h2 =? 0) && (h3 =? 0)
                             && (h4 =? 0) && (h5 =? 0)
                          then Fulfilled frame
                          else Rejected MalformedResponse
                      | _ => Rejected MalformedResponse
                      end).
  { unfold answer. rewrite confirm_settle_data.
    unfold toBase64, fromBase64.
    now rewrite normal64_webSafe64_encode, decode_encode by assumption. }
  split; [|split].
  - intros frame. rewrite Hsettle. unfold tunnelHeader.
    destruct data as [|h1 [|h2 [|h3 [|h4 [|h5 rest]]]]];
      try (split; [discriminate|intros [H _]; discriminate]).
    destruct ((2 <=? Buf.length rest) && (h1 =? 1) && (h2 =? 0) && (h3 =? 0)
              && (h4 =? 0) && (h5 =? 0)) eqn:E.
    + rewrite !andb_true_iff, !Z.eqb_eq, Z.leb_le in E.
      destruct E as [[[[[Hlen ->] ->] ->] ->] ->].
      split.
      * intros [= ->]. now split.
      * intros [[= ->] _]. reflexivity.
    + split; [discriminate|].
      intros [[= -> -> -> -> -> ->] Hlen].
      apply Z.leb_le in Hlen. rewrite Hlen in E. discriminate.
  - intros Hnone. rewrite Hsettle.
    destruct data as [|h1 [|h2 [|h3 [|h4 [|h5 rest]]]]]; try reflexivity.
    destruct ((2 <=? Buf.length rest) && (h1 =? 1) && (h2 =? 0) && (h3 =? 0)
              && (h4 =? 0) && (h5 =? 0)) eqn:E; [|reflexivity].
    rewrite !andb_true_iff, !Z.eqb_eq, Z.leb_le in E.
    destruct E as [[[[[Hlen ->] ->] ->] ->] ->].
    specialize (Hnone rest eq_refl). lia.
  - intros outcome frame.
    destruct outcome as [[[sd|]]|err]; try discriminate.
    rewrite confirm_settle_data. cbv zeta.
    destruct (fromBase64 (normal64 sd))
      as [|h1 [|h2 [|h3 [|h4 [|h5 rest]]]]]; try discriminate.
    destruct (Z.leb_spec 2 (Buf.length rest)); cbn [andb];
      [|discriminate].
    destruct (_ && _); [|discriminate]. now intros [= <-].
Qed.

Lemma confirm_sendAPDU_unwraps_witness :
  Confirm.sendAPDU_settle (answer [0x01; 0x00; 0x00; 0x00; 0x00; 0x90; 0x00])
  = Fulfilled [0x90; 0x00].
Proof.
  apply (confirm_sendAPDU_unwraps [0x01; 0x00; 0x00; 0x00; 0x00; 0x90; 0x00]).
  - repeat constructor; unfold is_byte; lia.
  - split; [reflexivity|]. unfold Buf.length; simpl; lia.
Defined.

Lemma confirmRoundTrip_head (origin : string) (timeout : Z) (u2f : Transport)
      (log : list Call) (apdu : Buffer) (apdus : list Buffer) :
  confirmRoundTrip origin timeout u2f log (apdu :: apdus) 0
  = Confirm.sendAPDU_settle (u2f log (callOf origin timeout apdu)).
Proof.
  unfold confirmRoundTrip. cbn [firstn map nth]. now rewrite app_nil_r.
Qed.

Lemma confirmRoundTrip_tail (origin : string) (timeout : Z) (u2f : Transport)
      (log : list Call) (apdu : Buffer) (apdus : list Buffer) (j : nat) :
  confirmRoundTrip origin timeout u2f log (apdu :: apdus) (S j)
  = confirmRoundTrip origin timeout u2f
                     (log ++ [callOf origin timeout apdu]) apdus j.
Proof.
  unfold confirmRoundTrip. cbn [firstn map nth]. now rewrite <- app_assoc.
Qed.

Section ConfirmTransfer.

Variable origin : string.
Variable timeout : Z.
Variable u2f : Transport.

Lemma confirm_localCallback_abort (apdus : list Buffer) :
  forall (log : list Call) (i : nat),
    (i < List.length apdus)%nat ->
    (forall j, (j < i)%nat ->
               confirmRoundTrip origin timeout u2f log apdus j
               = Fulfilled success) ->
    confirmRoundTrip origin timeout u2f log apdus i <> Fulfilled success ->
    exists err,
      run (Confirm.localCallback origin timeout apdus) u2f log
      = (Rejected err,
         log ++ map (callOf origin timeout) (firstn (S i) apdus))
      /\ (forall e,
             confirmRoundTrip origin timeout u2f log apdus i = Rejected e ->
             err = e).
Proof.
  induction apdus as [|apdu rest IH]; intros log i Hi Hbefore Hfail.
  - cbn [List.length] in Hi. lia.
  - cbn [Confirm.localCallback]. rewrite confirm_run_roundTrip.
    destruct i as [|i].
    + rewrite confirmRoundTrip_head in Hfail. cbn [firstn map].
      destruct (Confirm.sendAPDU_settle _) as [response|e] eqn:Hsettle.
      * destruct (chunk_then response) as [err|] eqn:Hchunk.
        -- exists err. split; [reflexivity|].
           intros e. rewrite confirmRoundTrip_head, Hsettle. discriminate.
        -- apply chunk_then_success in Hchunk. subst response.
           now elim Hfail.
      * exists e. split; [reflexivity|].
        intros e'. rewrite confirmRoundTrip_head, Hsettle. now intros [= ->].
    + pose proof (Hbefore 0%nat (Nat.lt_0_succ i)) as Hfirst.
      rewrite confirmRoundTrip_head in Hfirst. rewrite Hfirst.
      change (chunk_then success) with (@None JsError).
      cbn [List.length] in Hi.
      destruct rest as [|next rest]; [cbn [List.length] in Hi; lia|].
      destruct (IH (log ++ [callOf origin timeout apdu]) i)
        as (err & Hrun & Herr).
      * lia.
      * intros j Hj. rewrite <- confirmRoundTrip_tail. apply Hbefore. lia.
      * now rewrite <- confirmRoundTrip_tail.
      * exists err. split.
        -- rewrite Hrun, <- app_assoc. reflexivity.
        -- intros e. rewrite confirmRoundTrip_tail. apply Herr.
Qed.


Lemma confirm_signData_localCallback (dataToSign : string) :
  60 <= timeout ->
  Confirm.signData origin timeout dataToSign
  = Some (Confirm.localCallback origin timeout
            (chunkFrames 128 (Buf.fromHex dataToSign))).
Proof.
  intros Htimeout. unfold Confirm.signData, Confirm.maxChunkSize.
  destruct (Z.ltb_spec timeout 60); [lia|].
  change 128 with (Z.of_nat 128).
  rewrite chunkApdus_frames by lia. reflexivity.
Qed.

End ConfirmTransfer.

(** X22: the confirming variant asks for a timeout of at least 60
    seconds before anything else: with a smaller timeout signData is
    rejected without a transport call whatever the data; with a timeout
    of 60 or more it makes no call exactly when the data decode to no
    byte. *)
Theorem confirm_signData_timeout_gate
        (origin : string) (timeout : Z) (dataToSign : string)
        (u2f : Transport) :
  exists p,
    Confirm.signData origin timeout dataToSign = Some p
    /\ (timeout < 60 ->
        run p u2f []
        = (Rejected (Error "Timeout should be at least 60 seconds."), []))
    /\ (snd (run p u2f []) = []
        <-> timeout < 60 \/ Buf.fromHex dataToSign = []).
Proof.
  destruct (Z.lt_ge_cases timeout 60) as [Hlow|Hok].
  - exists (Reject (Error "Timeout should be at least 60 seconds.")).
    unfold Confirm.signData. destruct (Z.ltb_spec timeout 60); [|lia].
    repeat split; auto.
  - exists (Confirm.localCallback origin timeout
              (chunkFrames 128 (Buf.fromHex dataToSign))).
    split; [now apply confirm_signData_localCallback|].
    split; [intros; lia|].
    destruct (Buf.fromHex dataToSign) as [|b rest] eqn:E.
    + split; [now right|reflexivity].
    + assert (Hpos : (0 < chunkCount 128 (b :: rest))%nat)
        by (apply chunkCount_positive; [lia|discriminate]).
      unfold chunkFrames.
      destruct (chunkCount 128 (b :: rest)) as [|n]; [lia|].
      cbn [seq map Confirm.localCallback]. rewrite confirm_run_roundTrip.
      split; [|intros [H|H]; [lia|discriminate]].
      destruct (Confirm.sendAPDU_settle _) as [response|e]; [|discriminate].
      destruct (chunk_then response); [discriminate|].
      cbn [app].
      match goal with
      | |- snd (run ?q u2f ?log) = [] -> _ =>
          destruct (run_log_extends q u2f log) as [calls ->]
      end.
      discriminate.
Qed.

(** X23: in the confirming variant, with a timeout of at least 60, a
    chunk round trip that does not give 90 00 stops the transfer as in
    index.js: signData is rejected and the failed chunk is the last frame
    sent; the chunks are those of size 128. *)
Theorem confirm_signData_aborts_on_failed_chunk
        (origin : string) (timeout : Z) (dataToSign : string)
        (u2f : Transport) (i : nat) :
  let apdus := chunkFrames 128 (Buf.fromHex dataToSign) in
  60 <= timeout ->
  (i < List.length apdus)%nat ->
  (forall j, (j < i)%nat ->
             confirmRoundTrip origin timeout u2f [] apdus j
             = Fulfilled success) ->
  confirmRoundTrip origin timeout u2f [] apdus i <> Fulfilled success ->
  exists p err,
    Confirm.signData origin timeout dataToSign = Some p
    /\ run p u2f []
       = (Rejected err, map (callOf origin timeout) (firstn (S i) apdus))
    /\ (forall e,
           confirmRoundTrip origin timeout u2f [] apdus i = Rejected e ->
           err = e).
Proof.
  intros apdus Htimeout Hi Hbefore Hfail.
  destruct (confirm_localCallback_abort origin timeout u2f apdus [] i
                                        Hi Hbefore Hfail)
    as (err & Hrun & Herr).
  exists (Confirm.localCallback origin timeout apdus), err.
  split; [now apply confirm_signData_localCallback|]. now split.
Qed.

Lemma confirm_signData_aborts_on_failed_chunk_witness :
  exists p err,
    Confirm.signData "https://wallet.example" 60 "0001" = Some p
    /\ run p (fun _ _ => answer [0x01; 0x00; 0x00; 0x00; 0x00; 0x69; 0x82]) []
       = (Rejected err,
          map (callOf "https://wallet.example" 60)
              [[0x80; 0xF2; 0x00; 0x00; 2; 0; 1]])
    /\ (forall e, @Fulfilled Buffer [0x69; 0x82] = Rejected e -> err = e).
Proof.
  apply (confirm_signData_aborts_on_failed_chunk
           "https://wallet.example" 60 "0001"
           (fun _ _ => answer [0x01; 0x00; 0x00; 0x00; 0x00; 0x69; 0x82])
           0%nat).
  - lia.
  - vm_compute. lia.
  - intros j Hj. lia.
  - discriminate.
Defined.



(** ** initWallet, getRandomID and getPublicKey of the confirming variant *)

Lemma confirm_initWallet_apdu_frame (secretType : string)
      (secret pin : Buffer) :
  1 + Buf.length pin + Buf.length secret < 256 ->
  Confirm.initWallet_apdu secretType secret pin
  = [0x80; 0x20; 0x00;
     if String.eqb secretType "privateKey" then 0x00 else 0x01;
     1 + Buf.length pin + Buf.length secret]
      ++ ([Buf.length pin] ++ pin ++ secret).
Proof.
  intros Hlen.
  pose proof (length_nonneg pin) as Hpin.
  pose proof (length_nonneg secret) as Hsecret.
  unfold Confirm.initWallet_apdu.
  replace (5 + 1 + Buf.length secret + Buf.length pin)
    with (6 + (Buf.length pin + Buf.length secret)) by lia.
  rewrite alloc_add by lia. rewrite alloc_add by lia.
  set (flag := if String.eqb secretType "privateKey" then 0 else 1).
  assert (Hflag : flag mod 256 = flag)
    by (unfold flag; now destruct (String.eqb secretType "privateKey")).
  set (header := [128 mod 256; 32 mod 256; 0 mod 256; flag mod 256;
                  (1 + Buf.length pin + Buf.length secret) mod 256;
                  Buf.length pin mod 256]).
  assert (Hheader :
            Buf.set
              (Buf.set
                 (if String.eqb secretType "privateKey"
                  then Buf.set (Buf.set (Buf.set (Buf.set
                         (Buf.alloc 6 ++ Buf.alloc (Buf.length pin)
                            ++ Buf.alloc (Buf.length secret))
                         0 128) 1 32) 2 0) 3 0
                  else Buf.set (Buf.set (Buf.set (Buf.set
                         (Buf.alloc 6 ++ Buf.alloc (Buf.length pin)
                            ++ Buf.alloc (Buf.length secret))
                         0 128) 1 32) 2 0) 3 1)
                 4 (1 + Buf.length pin + Buf.length secret))
              5 (Buf.length pin)
            = header ++ Buf.alloc (Buf.length pin)
                ++ Buf.alloc (Buf.length secret)).
  { unfold header, flag.
    destruct (String.eqb secretType "privateKey"); reflexivity. }
  rewrite Hheader.
  replace (Buf.alloc (Buf.length pin))
    with (Buf.alloc (Buf.length pin - 0)) by (f_equal; lia).
  change 6 with (Buf.length header) at 1.
  rewrite copy_into_alloc by lia.
  rewrite firstn_skipn_whole.
  replace (header ++ pin ++ Buf.alloc (Buf.length secret))
    with ((header ++ pin) ++ Buf.alloc (Buf.length secret - 0) ++ [])
    by (now rewrite Z.sub_0_r, app_nil_r, <- app_assoc).
  replace (6 + Buf.length pin) with (Buf.length (header ++ pin))
    by (unfold Buf.length, header; rewrite length_app;
        cbn [List.length]; lia).
  rewrite copy_into_alloc by lia.
  rewrite firstn_skipn_whole, app_nil_r, <- app_assoc.
  unfold header. rewrite Hflag.
  rewrite !(Z.mod_small (Buf.length pin)) by lia.
  rewrite (Z.mod_small (1 + _ + _)) by lia. reflexivity.
Qed.

(** X25: initWallet of the confirming variant checks its arguments
    before the transport, the secret first: a type other than privateKey
    and xrpSecret, a private key that is not 32 bytes, an XRP secret that
    is not 16 bytes, or a PIN outside 4 to 32 bytes reject without a
    call, each with its own error. *)
Theorem confirm_initWallet_validates_arguments
        (origin : string) (timeout : Z) (secretType secret pin : string)
        (u2f : Transport) :
  let result :=
    run (Confirm.initWallet origin timeout secretType secret pin) u2f [] in
  let secretLength := Buf.length (Buf.fromHex secret) in
  let pinLength := Buf.length (Buf.fromUtf8 pin) in
  (secretType <> "privateKey"%string -> secretType <> "xrpSecret"%string ->
   result = (Rejected (Error "Invalid secret type."), []))
  /\ (secretType = "privateKey"%string -> secretLength <> 32 ->
      result = (Rejected (Error "Invalid secret length."), []))
  /\ (secretType = "xrpSecret"%string -> secretLength <> 16 ->
      result = (Rejected (Error "Invalid secret length."), []))
  /\ ((secretType = "privateKey"%string /\ secretLength = 32)
      \/ (secretType = "xrpSecret"%string /\ secretLength = 16) ->
      (pinLength < 4 \/ 32 < pinLength ->
       result = (Rejected (Error "Invalid pin length."), []))
      /\ (4 <= pinLength <= 32 -> List.length (snd result) = 1%nat)).
Proof.
  intros result secretLength pinLength.
  unfold result, Confirm.initWallet, Confirm.checkSecret.
  fold secretLength pinLength.
  split; [|split; [|split]].
  - intros H1 H2.
    destruct (String.eqb_spec secretType "privateKey"); [contradiction|].
    destruct (String.eqb_spec secretType "xrpSecret"); [contradiction|].
    reflexivity.
  - intros -> Hlen. cbn [String.eqb Ascii.eqb Bool.eqb andb].
    destruct (Z.eqb_spec secretLength 32); [contradiction|]. reflexivity.
  - intros -> Hlen. cbn [String.eqb Ascii.eqb Bool.eqb andb].
    destruct (Z.eqb_spec secretLength 16); [contradiction|]. reflexivity.
  - intros Hvalid.
    assert (Hcheck : (if String.eqb secretType "privateKey"
                      then if negb (secretLength =? 32)
                           then Some (Error "Invalid secret length.")
                           else None
                      else if String.eqb secretType "xrpSecret"
                           then if negb (secretLength =? 16)
                                then Some (Error "Invalid secret length.")
                                else None
                           else Some (Error "Invalid secret type."))
                     = None).
    { destruct Hvalid as [[-> ->]|[-> ->]]; reflexivity. }
    rewrite Hcheck. split.
    + intros Hpin.
      destruct (Z.ltb_spec pinLength 4); [reflexivity|].
      destruct (Z.gtb_spec pinLength 32); [reflexivity|lia].
    + intros Hpin.
      destruct (Z.ltb_spec pinLength 4); [lia|].
      destruct (Z.gtb_spec pinLength 32); [lia|].
      cbn [orb]. rewrite confirm_run_roundTrip.
      destruct (Confirm.sendAPDU_settle _) as [response|e]; [|reflexivity].
      destruct (initWallet_then_cases response)
        as [[_ ->]|[[_ ->]|(_ & _ & ->)]]; reflexivity.
Qed.

(** X26: with a valid secret and PIN, initWallet of the confirming
    variant sends the one frame 80 20 00 P2 Lc, the PIN length, the PIN,
    the secret, where P2 is 00 for a private key and 01 for an XRP secret,
    and settles by the response as in index.js. *)
Theorem confirm_initWallet_outcome
        (origin : string) (timeout : Z) (secretType secret pin : string)
        (u2f : Transport) :
  let key := Buf.fromHex secret in
  let code := Buf.fromUtf8 pin in
  let frame :=
    [0x80; 0x20; 0x00;
     if String.eqb secretType "privateKey" then 0x00 else 0x01;
     1 + Buf.length code + Buf.length key]
      ++ [Buf.length code] ++ code ++ key in
  let answered :=
    Confirm.sendAPDU_settle (u2f [] (callOf origin timeout frame)) in
  let result :=
    run (Confirm.initWallet origin timeout secretType secret pin) u2f [] in
  (secretType = "privateKey"%string /\ Buf.length key = 32)
  \/ (secretType = "xrpSecret"%string /\ Buf.length key = 16) ->
  4 <= Buf.length code <= 32 ->
  snd result = [callOf origin timeout frame]
  /\ (forall e, answered = Rejected e -> fst result = Rejected e)
  /\ (answered = Fulfilled [0x90; 0x00] -> fst result = Fulfilled tt)
  /\ (answered = Fulfilled [0x6d; 0x00] ->
      fst result = Rejected (Error "Wallet already initialized."))
  /\ (forall response,
         answered = Fulfilled response ->
         response <> [0x90; 0x00] -> response <> [0x6d; 0x00] ->
         fst result = Rejected ProtocolError).
Proof.
  intros key code frame answered result Hsecret Hpin.
  assert (Hrun : result
                 = match answered with
                   | Fulfilled response =>
                       run (Index.initWallet_then response) u2f
                           [callOf origin timeout frame]
                   | Rejected e => (Rejected e, [callOf origin timeout frame])
                   end).
  { unfold result, Confirm.initWallet. fold key code.
    assert (Hcheck : Confirm.checkSecret secretType key = None).
    { unfold Confirm.checkSecret.
      destruct Hsecret as [[-> Hlen]|[-> Hlen]]; rewrite Hlen; reflexivity. }
    rewrite Hcheck.
    destruct (Z.ltb_spec (Buf.length code) 4); [lia|].
    destruct (Z.gtb_spec (Buf.length code) 32); [lia|].
    cbn [orb]. rewrite confirm_run_roundTrip.
    rewrite confirm_initWallet_apdu_frame
      by (destruct Hsecret as [[_ Hlen]|[_ Hlen]]; lia).
    reflexivity. }
  rewrite Hrun. clear Hrun.
  destruct answered as [response|e].
  - destruct (initWallet_then_cases response)
      as [[-> ->]|[[-> ->]|(Hok & Hinit & ->)]];
      cbn [run fst snd]; repeat split; try discriminate; try congruence;
      intros r [= <-]; congruence.
  - cbn [fst snd]. repeat split; try discriminate. now intros e' [= ->].
Qed.

Lemma confirm_initWallet_outcome_witness :
  snd (run (Confirm.initWallet "https://wallet.example" 30 "xrpSecret"
              "000102030405060708090a0b0c0d0e0f" "1234")
           (fun _ _ => answer [0x01; 0x00; 0x00; 0x00; 0x00; 0x90; 0x00]) [])
  = [callOf "https://wallet.example" 30
            [0x80; 0x20; 0x00; 0x01; 21; 4; 49; 50; 51; 52;
             0; 1; 2; 3; 4; 5; 6; 7; 8; 9; 10; 11; 12; 13; 14; 15]].
Proof.
  apply (confirm_initWallet_outcome
           "https://wallet.example" 30 "xrpSecret"
           "000102030405060708090a0b0c0d0e0f" "1234"
           (fun _ _ => answer [0x01; 0x00; 0x00; 0x00; 0x00; 0x90; 0x00])).
  - right. split; reflexivity.
  - unfold Buf.length; simpl; lia.
Defined.

(** The handlers of getRandomID and getPublicKey test the status, then
    the length. *)
Lemma status_then_length (h : Buffer -> Promise Buffer) (n : Z) :
  (forall response,
      h response
      = if statusIsNot response 0x90 0x00
        then
          if statusIs response 0x6d 0x00
          then Reject WalletNotInitialized
          else if statusIs response 0x69 0x82
          then Reject PinNotVerified
          else Reject ProtocolError
        else if negb (Buf.length response =? n)
        then Reject ProtocolError
        else Resolve (Buf.slice response 0 (Buf.length response - 2))) ->
  forall response,
    (HasStatus response 0x6d 0x00 -> h response = Reject WalletNotInitialized)
    /\ (HasStatus response 0x69 0x82 -> h response = Reject PinNotVerified)
    /\ (forall payload,
           response = payload ++ [0x90; 0x00] ->
           h response = if Buf.length payload =? n - 2 then Resolve payload
                        else Reject ProtocolError)
    /\ (~ HasStatus response 0x90 0x00 ->
        ~ HasStatus response 0x6d 0x00 ->
        ~ HasStatus response 0x69 0x82 ->
        h response = Reject ProtocolError).
Proof.
  intros Hh response. rewrite Hh.
  split; [|split; [|split]].
  - intros H. pose proof H as H'. apply statusIs_true in H'.
    destruct (statusIsNot response 144 0) eqn:E.
    + now rewrite H'.
    + apply statusIsNot_false in E.
      destruct (HasStatus_unique _ _ _ _ _ H E). discriminate.
  - intros H. pose proof H as H'. apply statusIs_true in H'.
    destruct (statusIsNot response 144 0) eqn:E.
    + destruct (statusIs response 109 0) eqn:E1.
      * apply statusIs_true in E1.
        destruct (HasStatus_unique _ _ _ _ _ H E1). discriminate.
      * now rewrite H'.
    + apply statusIsNot_false in E.
      destruct (HasStatus_unique _ _ _ _ _ H E). discriminate.
  - intros payload ->.
    rewrite statusIsNot_app, slice_payload, length_app_status.
    cbn [Z.eqb Pos.eqb negb orb].
    destruct (Z.eqb_spec (Buf.length payload + 2) n),
      (Z.eqb_spec (Buf.length payload) (n - 2)); try lia; reflexivity.
  - intros H1 H2 H3.
    destruct (statusIsNot response 144 0) eqn:E;
      [|apply statusIsNot_false in E; contradiction].
    destruct (statusIs response 109 0) eqn:E1;
      [apply statusIs_true in E1; contradiction|].
    destruct (statusIs response 105 130) eqn:E2;
      [apply statusIs_true in E2; contradiction|].
    reflexivity.
Qed.

(** X27: getRandomID sends the one frame 80 E2 00 00 00.  A response
    ending in 6D 00 or 69 82 rejects with the wallet-not-initialized or
    PIN-not-verified error; a response ending in 90 00 resolves its first
    8 bytes when it is 10 bytes long and rejects with the protocol error
    otherwise; every other status rejects with the protocol error, and a
    failure of the round trip with its own error. *)
Theorem getRandomID_outcome (origin : string) (timeout : Z)
        (u2f : Transport) :
  let call := callOf origin timeout [0x80; 0xE2; 0x00; 0x00; 0x00] in
  let answered := Confirm.sendAPDU_settle (u2f [] call) in
  let result := run (Confirm.getRandomID origin timeout) u2f [] in
  snd result = [call]
  /\ (forall e, answered = Rejected e -> fst result = Rejected e)
  /\ (forall response,
         answered = Fulfilled response ->
         (HasStatus response 0x6d 0x00 ->
          fst result = Rejected WalletNotInitialized)
         /\ (HasStatus response 0x69 0x82 ->
             fst result = Rejected PinNotVerified)
         /\ (forall id, response = id ++ [0x90; 0x00] ->
                        fst result
                        = if Buf.length id =? 8 then Fulfilled id
                          else Rejected ProtocolError)
         /\ (~ HasStatus response 0x90 0x00 ->
             ~ HasStatus response 0x6d 0x00 ->
             ~ HasStatus response 0x69 0x82 ->
             fst result = Rejected ProtocolError)).
Proof.
  intros call answered result.
  unfold result, Confirm.getRandomID. rewrite confirm_run_roundTrip.
  change (callOf origin timeout (Buf.fromHex "80E2000000")) with call.
  fold answered.
  destruct answered as [response|e].
  - pose proof (status_then_length Confirm.getRandomID_then 10
                  (fun r => eq_refl) response) as (H1 & H2 & H3 & H4).
    split.
    { unfold Confirm.getRandomID_then.
      destruct (statusIsNot response 144 0).
      - destruct (statusIs response 109 0); [reflexivity|].
        destruct (statusIs response 105 130); reflexivity.
      - destruct (negb _); reflexivity. }
    split; [discriminate|]. intros r [= <-].
    split; [|split; [|split]].
    + intros H. now rewrite (H1 H).
    + intros H. now rewrite (H2 H).
    + intros id Hid. rewrite (H3 id Hid).
      change (10 - 2) with 8. now destruct (Buf.length id =? 8).
    + intros N1 N2 N3. now rewrite (H4 N1 N2 N3).
  - cbn [fst snd]. split; [reflexivity|]. split; [|discriminate].
    now intros e' [= ->].
Qed.

(** X28: getPublicKey of the confirming variant expects a compressed
    key: a response ending in 90 00 resolves its first 33 bytes when it is
    35 bytes long and rejects with the protocol error otherwise (a 67-byte
    response of index.js included); the other statuses are classified as
    in index.js. *)
Theorem confirm_getPublicKey_outcome (origin : string) (timeout : Z)
        (u2f : Transport) :
  let call := callOf origin timeout [0x80; 0x40; 0x00; 0x00] in
  let answered := Confirm.sendAPDU_settle (u2f [] call) in
  let result := run (Confirm.getPublicKey origin timeout) u2f [] in
  snd result = [call]
  /\ (forall e, answered = Rejected e -> fst result = Rejected e)
  /\ (forall response,
         answered = Fulfilled response ->
         (HasStatus response 0x6d 0x00 ->
          fst result = Rejected WalletNotInitialized)
         /\ (HasStatus response 0x69 0x82 ->
             fst result = Rejected PinNotVerified)
         /\ (forall key, response = key ++ [0x90; 0x00] ->
                         fst result
                         = if Buf.length key =? 33 then Fulfilled key
                           else Rejected ProtocolError)
         /\ (~ HasStatus response 0x90 0x00 ->
             ~ HasStatus response 0x6d 0x00 ->
             ~ HasStatus response 0x69 0x82 ->
             fst result = Rejected ProtocolError)).
Proof.
  intros call answered result.
  unfold result, Confirm.getPublicKey. rewrite confirm_run_roundTrip.
  change (callOf origin timeout (Buf.fromHex "80400000")) with call.
  fold answered.
  destruct answered as [response|e].
  - pose proof (status_then_length Confirm.getPublicKey_then 35
                  (fun r => eq_refl) response) as (H1 & H2 & H3 & H4).
    split.
    { unfold Confirm.getPublicKey_then.
      destruct (statusIsNot response 144 0).
      - destruct (statusIs response 109 0); [reflexivity|].
        destruct (statusIs response 105 130); reflexivity.
      - destruct (negb _); reflexivity. }
    split; [discriminate|]. intros r [= <-].
    split; [|split; [|split]].
    + intros H. now rewrite (H1 H).
    + intros H. now rewrite (H2 H).
    + intros key Hkey. rewrite (H3 key Hkey).
      change (35 - 2) with 33. now destruct (Buf.length key =? 33).
    + intros N1 N2 N3. now rewrite (H4 N1 N2 N3).
  - cbn [fst snd]. split; [reflexivity|]. split; [|discriminate].
    now intros e' [= ->].
Qed.

(** ** The tunnel adapter *)

Section Tunnel.

Local Open Scope string_scope.

Lemma group_ok_all (n : Z) : 0 <= n < 64 -> group_ok n = true.
Proof.
  intros Hn.
  assert (Hall : forallb group_ok (map Z.of_nat (seq 0 64)) = true)
    by (vm_compute; reflexivity).
  rewrite forallb_forall in Hall.
  apply Hall.
  replace n with (Z.of_nat (Z.to_nat n)) by lia.
  apply in_map, in_seq. lia.
Qed.

Lemma urlChar_webSafe (n : Z) :
  0 <= n < 64 ->
  webSafeChar (Base64.lookup n) = Rfc4648.urlChar n
  /\ ~ isPad (Rfc4648.urlChar n).
Proof.
  intros Hn. pose proof (group_ok_all n Hn) as Hok.
  unfold group_ok in Hok.
  rewrite andb_true_iff, negb_true_iff in Hok.
  destruct Hok as [Hchar Hpad]. split.
  - now apply Ascii.eqb_eq.
  - unfold isPad. intros E. rewrite E in Hpad. discriminate.
Qed.

(** The base64 text of a buffer, with the characters mapped as webSafe64
    maps them, is the reference text followed by padding. *)
Lemma encode_base64url (buf : Buffer) :
  is_buffer buf ->
  AllChars (fun c => ~ isPad c) (Rfc4648.base64url buf)
  /\ exists padding,
      AllChars isPad padding
      /\ mapString webSafeChar (Base64.encode buf)
         = Rfc4648.base64url buf ++ padding.
Proof.
  induction buf as [|a|a b|a b c rest IH] using buffer_ind3; intros Hbuf.
  - split; [exact I|]. exists "". now split.
  - apply is_buffer_cons in Hbuf. destruct Hbuf as [Ha _].
    unfold is_byte in Ha.
    assert (H1 : 0 <= a / 4 < 64) by (Z.div_mod_to_equations; lia).
    assert (H2 : 0 <= a mod 4 * 16 < 64) by (Z.div_mod_to_equations; lia).
    assert (E2 : (a * 16) mod 64 = a mod 4 * 16)
      by (Z.div_mod_to_equations; lia).
    destruct (urlChar_webSafe _ H1) as [C1 P1].
    destruct (urlChar_webSafe _ H2) as [C2 P2].
    split; [cbn; tauto|].
    exists "==". split; [cbn; unfold isPad; tauto|].
    cbn [Base64.encode mapString Rfc4648.base64url append].
    rewrite E2, C1, C2. reflexivity.
  - apply is_buffer_cons in Hbuf. destruct Hbuf as [Ha Hbuf].
    apply is_buffer_cons in Hbuf. destruct Hbuf as [Hb _].
    unfold is_byte in Ha, Hb.
    assert (H1 : 0 <= a / 4 < 64) by (Z.div_mod_to_equations; lia).
    assert (H2 : 0 <= a mod 4 * 16 + b / 16 < 64)
      by (Z.div_mod_to_equations; lia).
    assert (H3 : 0 <= b mod 16 * 4 < 64) by (Z.div_mod_to_equations; lia).
    assert (E1 : (a * 256 + b) / 1024 = a / 4)
      by (Z.div_mod_to_equations; lia).
    assert (E2 : ((a * 256 + b) / 16) mod 64 = a mod 4 * 16 + b / 16)
      by (Z.div_mod_to_equations; lia).
    assert (E3 : ((a * 256 + b) * 4) mod 64 = b mod 16 * 4)
      by (Z.div_mod_to_equations; lia).
    destruct (urlChar_webSafe _ H1) as [C1 P1].
    destruct (urlChar_webSafe _ H2) as [C2 P2].
    destruct (urlChar_webSafe _ H3) as [C3 P3].
    split; [cbn; tauto|].
    exists "=". split; [cbn; unfold isPad; tauto|].
    cbn [Base64.encode mapString Rfc4648.base64url append]. cbv zeta.
    rewrite E1, E2, E3, C1, C2, C3. reflexivity.
  - apply is_buffer_cons in Hbuf. destruct Hbuf as [Ha Hbuf].
    apply is_buffer_cons in Hbuf. destruct Hbuf as [Hb Hbuf].
    apply is_buffer_cons in Hbuf. destruct Hbuf as [Hc Hbuf].
    destruct (IH Hbuf) as (Hbody & padding & Hpad & Henc).
    unfold is_byte in Ha, Hb, Hc.
    assert (H1 : 0 <= a / 4 < 64) by (Z.div_mod_to_equations; lia).
    assert (H2 : 0 <= a mod 4 * 16 + b / 16 < 64)
      by (Z.div_mod_to_equations; lia).
    assert (H3 : 0 <= b mod 16 * 4 + c / 64 < 64)
      by (Z.div_mod_to_equations; lia).
    assert (H4 : 0 <= c mod 64 < 64) by (Z.div_mod_to_equations; lia).
    assert (E1 : ((a * 65536 + b * 256 + c) / 262144) mod 64 = a / 4)
      by (Z.div_mod_to_equations; lia).
    assert (E2 : ((a * 65536 + b * 256 + c) / 4096) mod 64
                 = a mod 4 * 16 + b / 16)
      by (Z.div_mod_to_equations; lia).
    assert (E3 : ((a * 65536 + b * 256 + c) / 64) mod 64
                 = b mod 16 * 4 + c / 64)
      by (Z.div_mod_to_equations; lia).
    assert (E4 : (a * 65536 + b * 256 + c) mod 64 = c mod 64)
      by (Z.div_mod_to_equations; lia).
    destruct (urlChar_webSafe _ H1) as [C1 P1].
    destruct (urlChar_webSafe _ H2) as [C2 P2].
    destruct (urlChar_webSafe _ H3) as [C3 P3].
    destruct (urlChar_webSafe _ H4) as [C4 P4].
    split; [cbn [Rfc4648.base64url AllChars]; tauto|].
    exists padding. split; [exact Hpad|].
    cbn [Base64.encode mapString Rfc4648.base64url append]. cbv zeta.
    rewrite E1, E2, E3, E4, C1, C2, C3, C4, Henc. reflexivity.
Qed.

(** webSafe64 of the base64 text of a buffer is the URL-safe base64 of
    RFC 4648 for that buffer. *)
Lemma webSafe64_base64url (buf : Buffer) :
  is_buffer buf -> webSafe64 (toBase64 buf) = Rfc4648.base64url buf.
Proof.
  intros Hbuf. unfold toBase64. rewrite webSafe64_chars.
  destruct (encode_base64url buf Hbuf) as (Hbody & padding & Hpad & ->).
  now apply stripPadding_app_pad.
Qed.

End Tunnel.

(** The reference on the test vectors of RFC 4648, section 10 (the texts
    of f, fo, foo, foob, fooba and foobar, without their padding), and on
    bytes whose groups are 62 and 63. *)
Lemma base64url_vectors :
  map Rfc4648.base64url
      [[]; [102]; [102; 111]; [102; 111; 111]; [102; 111; 111; 98];
       [102; 111; 111; 98; 97]; [102; 111; 111; 98; 97; 114];
       [0xfb; 0xff; 0xfe]]
  = [EmptyString; "Zg"; "Zm8"; "Zm9v"; "Zm9vYg"; "Zm9vYmE"; "Zm9vYmFy";
     "-__-"]%string.
Proof. reflexivity. Qed.

(** The request the code builds, in the terms of the reference. *)
Lemma signRequest_base64url (origin : string) (apdu : Buffer) :
  is_buffer apdu ->
  Index.signRequest origin apdu
  = {| version := "U2F_V2";
       challenge := Rfc4648.base64url (repeat 0 32);
       keyHandle :=
         Rfc4648.base64url
           ([0x88; 0x77; 0x66; 0x55; 0x44; 0x33; 0x22; 0x11] ++ apdu);
       appId := origin |}.
Proof.
  intros Hapdu. unfold Index.signRequest. cbv zeta.
  rewrite (webSafe64_base64url (Buf.concat Index.xrpMagic apdu))
    by now apply magic_is_buffer.
  reflexivity.
Qed.

(** What sendAPDU makes of a response whose signatureData is the
    reference text of a frame. *)
Lemma sendAPDU_settle_base64url (frame : Buffer) :
  is_buffer frame ->
  Index.sendAPDU_settle
    (SignResolved {| signatureData := Some (Rfc4648.base64url frame) |})
  = if Buf.length frame <? 2 then Rejected MalformedResponse
    else Fulfilled frame.
Proof.
  intros Hframe. rewrite <- webSafe64_base64url by assumption.
  now apply sendAPDU_settle_answer.
Qed.

(** C6: for every command frame (a sequence of bytes) and timeout,
    sendAPDU makes exactly one transport call, with the single request
    whose version is U2F_V2, whose challenge is the URL-safe base64 of 32
    zero bytes (43 times the letter A), whose key handle is the URL-safe
    base64 of the magic 88 77 66 55 44 33 22 11 followed by the frame, and
    whose appId is the origin; URL-safe base64 is the encoding of RFC 4648
    with the alphabet that ends in - and _ and without padding.  It
    rejects with the error of the transport when the transport fails,
    with the tunnel error when signatureData is absent, and with the
    malformed-response error when the decoded signatureData has fewer
    than two bytes; otherwise it resolves the decoded signatureData.  When
    signatureData is the URL-safe base64 of a frame, what is decoded is
    that frame. *)
Theorem sendAPDU_tunnel (origin : string) (apdu : Buffer) (timeout : Z)
        (u2f : Transport) :
  let request :=
    {| version := "U2F_V2";
       challenge := "AAAAAAAAAAAAAAAAAAAAAAAAAAAAAAAAAAAAAAAAAAA";
       keyHandle :=
         Rfc4648.base64url
           ([0x88; 0x77; 0x66; 0x55; 0x44; 0x33; 0x22; 0x11] ++ apdu);
       appId := origin |} in
  let result := run (Index.sendAPDU origin (Some apdu) timeout) u2f [] in
  is_buffer apdu ->
  challenge request = Rfc4648.base64url (repeat 0 32)
  /\ result
     = (match u2f [] ([request], timeout) with
        | SignRejected err => Rejected err
        | SignResolved {| signatureData := None |} => Rejected TunnelError
        | SignResolved {| signatureData := Some sd |} =>
            if Buf.length (fromBase64 (normal64 sd)) <? 2
            then Rejected MalformedResponse
            else Fulfilled (fromBase64 (normal64 sd))
        end,
        [([request], timeout)])
  /\ (forall frame, is_buffer frame ->
      u2f [] ([request], timeout)
      = SignResolved {| signatureData := Some (Rfc4648.base64url frame) |} ->
      fst result = if Buf.length frame <? 2 then Rejected MalformedResponse
                   else Fulfilled frame).
Proof.
  intros request result Hapdu.
  assert (Hreq : callOf origin timeout apdu = ([request], timeout)).
  { unfold callOf. now rewrite signRequest_base64url. }
  unfold result. rewrite run_sendAPDU, Hreq.
  split; [reflexivity|]. split.
  - cbn [app]. f_equal.
    destruct (u2f [] ([request], timeout)) as [[[sd|]]|err];
      reflexivity.
  - intros frame Hframe ->. cbn [fst].
    now apply sendAPDU_settle_base64url.
Qed.

Lemma sendAPDU_tunnel_witness :
  is_buffer [0xfb; 0xff; 0xfe]
  /\ run (Index.sendAPDU "https://wallet.example"
                         (Some [0xfb; 0xff; 0xfe]) 30)
         (fun _ _ => SignResolved {| signatureData := Some "bQA"%string |}) []
     = (Fulfilled [0x6d; 0x00],
        [([{| version := "U2F_V2";
              challenge := "AAAAAAAAAAAAAAAAAAAAAAAAAAAAAAAAAAAAAAAAAAA";
              keyHandle := "iHdmVUQzIhH7__4";
              appId := "https://wallet.example" |}], 30)]).
Proof.
  assert (Hapdu : is_buffer [0xfb; 0xff; 0xfe])
    by (repeat constructor; unfold is_byte; lia).
  split; [exact Hapdu|].
  exact (proj1 (proj2 (sendAPDU_tunnel
                         "https://wallet.example" [0xfb; 0xff; 0xfe] 30
                         (fun _ _ =>
                            SignResolved {| signatureData := Some "bQA"%string |})
                         Hapdu))).
Defined.
